(** * Markdown to block conversion and batched page mutation

    A shallow embedding of the Markdown paths of the Notion MCP server:
    the text normaliser ([richText.ts]), the block factory
    ([blockCreators.ts]), the token walker ([markdownToBlocks.ts]), the
    batch engine ([batchUtils.ts]), the page rewrite and append tools
    ([rewritePage.ts], [appendBlockChildren.ts]) and the two read tools
    ([retrieveBlockChildren.ts], [searchPage.ts]), followed by the
    properties proved about them. *)

From Stdlib Require Import String Ascii DecimalString.
From Stdlib Require Import List Arith NArith ZArith Bool Lia.
Import ListNotations.

Set Implicit Arguments.

(** ** ECMAScript strings

    A string is a sequence of UTF-16 code units; [length], [substring]
    and indexing all count code units. *)

Module JS.

Definition codeunit := N.
Definition jsstring := list codeunit.

(** A literal, written with the characters of its source text. *)
Definition js (s : string) : jsstring :=
  List.map N_of_ascii (list_ascii_of_string s).

Fixpoint eqb (a b : jsstring) : bool :=
  match a, b with
  | [], [] => true
  | x :: a', y :: b' => N.eqb x y && eqb a' b'
  | _, _ => false
  end.

(** [s.substring(start, end)] for [start <= end]. *)
Definition substring (s : jsstring) (start stop : nat) : jsstring :=
  firstn (stop - start) (skipn start s).

(** [s.substring(start)]. *)
Definition substringFrom (s : jsstring) (start : nat) : jsstring :=
  skipn start s.

(** [a || b] on strings: the empty string is the only falsy string. *)
Definition orElse (a b : jsstring) : jsstring :=
  match a with [] => b | _ => a end.

Definition truthy (s : jsstring) : bool :=
  match s with [] => false | _ => true end.

(** The class [\s] of a regular expression, which is also the set
    that [trim] removes: WhiteSpace and LineTerminator. *)
Definition isWhiteSpace (c : codeunit) : bool :=
  ((9 <=? c) && (c <=? 13) || (c =? 32) || (c =? 160) || (c =? 5760)
   || (8192 <=? c) && (c <=? 8202) || (c =? 8232) || (c =? 8233)
   || (c =? 8239) || (c =? 8287) || (c =? 12288) || (c =? 65279))%N.

Fixpoint trimStart (s : jsstring) : jsstring :=
  match s with
  | c :: s' => if isWhiteSpace c then trimStart s' else s
  | [] => []
  end.

Definition trimEnd (s : jsstring) : jsstring :=
  rev (trimStart (rev s)).

Definition trim (s : jsstring) : jsstring := trimEnd (trimStart s).

(** [parts.join(sep)]. *)
Fixpoint join (sep : jsstring) (parts : list jsstring) : jsstring :=
  match parts with
  | [] => []
  | [p] => p
  | p :: rest => p ++ sep ++ join sep rest
  end.

(** A non-negative integer inside a template literal. *)
Definition ofNat (n : nat) : jsstring :=
  js (NilZero.string_of_uint (Nat.to_uint n)).

End JS.

Import JS.

(** ** richText.ts *)

Module RichText.

Definition MAX_RICH_TEXT_LENGTH : nat := 2000.

Record NotionRichTextItem := mkRichText {
  content : jsstring;
  link : option jsstring
}.

(** [/[\s.,;:!?]/.test(remaining[i])]; an index past the end reads
    [undefined], which the test turns into the text "undefined". *)
Definition isBreak (c : option codeunit) : bool :=
  match c with
  | Some c =>
      (isWhiteSpace c || (c =? 46) || (c =? 44) || (c =? 59)
       || (c =? 58) || (c =? 33) || (c =? 63))%N
  | None => false
  end.

(** The inner [for] of [splitTextIntoChunks]: [k] is [i + 1], the
    loop runs while [i >= searchStart] and leaves at the first break
    character, scanning downwards. *)
Fixpoint findSplitIndex (remaining : jsstring) (searchStart k splitIndex : nat) : nat :=
  match k with
  | 0 => splitIndex
  | S i =>
      if searchStart <=? i then
        if isBreak (nth_error remaining i) then i + 1
        else findSplitIndex remaining searchStart i splitIndex
      else splitIndex
  end.

(** The [while] of [splitTextIntoChunks]; [None] when the fuel is
    used up. *)
Fixpoint splitLoop (fuel : nat) (remaining : jsstring) (maxLength : nat)
         (chunks : list jsstring) : option (list jsstring) :=
  match fuel with
  | 0 => None
  | S fuel' =>
      if 0 <? length remaining then
        if length remaining <=? maxLength then Some (chunks ++ [remaining])
        else
          let searchStart := Nat.max 0 (maxLength - 100) in
          let splitIndex := findSplitIndex remaining searchStart maxLength maxLength in
          splitLoop fuel' (substringFrom remaining splitIndex) maxLength
                    (chunks ++ [substring remaining 0 splitIndex])
      else Some chunks
  end.

(** [splitTextIntoChunks(text, maxLength = MAX_RICH_TEXT_LENGTH)].
    Every turn of the loop that does not leave it either consumes a
    code unit or consumes none for ever, so [length text] turns
    decide: [None] stands for a call that does not return. *)
Definition splitTextIntoChunks (text : jsstring) (maxLength : option nat)
  : option (list jsstring) :=
  let maxLength := match maxLength with Some m => m | None => MAX_RICH_TEXT_LENGTH end in
  if length text <=? maxLength then Some [text]
  else splitLoop (S (length text)) text maxLength [].

(** What the embedding takes from the ECMAScript library instead of
    modelling it: the eight chained [RegExp] replacements of
    [stripInlineMarkdown], [String.prototype.toLowerCase] with its
    Unicode case tables, and whether [new URL(url)] accepts [url]. *)
Class JsHost := {
  inlineMarkupReplace : jsstring -> jsstring;
  toLowerCase : jsstring -> jsstring;
  isValidURL : jsstring -> bool
}.

Section WithHost.
Context `{JsHost}.

Definition stripInlineMarkdown (text : jsstring) : jsstring :=
  if negb (truthy text) then [] else inlineMarkupReplace text.

(** [None] is a [null] or [undefined] argument. *)
Definition createPlainTextRichText (text : option jsstring)
  : list NotionRichTextItem :=
  match text with
  | None => []
  | Some text =>
      let plainText := stripInlineMarkdown text in
      if length plainText =? 0 then [mkRichText [] None]
      else
        match splitTextIntoChunks plainText None with
        | Some chunks => List.map (fun chunk => mkRichText chunk None) chunks
        | None => [] (* not reached: the default limit is positive *)
        end
  end.

Definition createLinkRichText (text url : jsstring) : NotionRichTextItem :=
  mkRichText text (Some url).

End WithHost.

End RichText.

Import RichText.

(** ** blockCreators.ts *)

Module BlockCreators.

(** A value read from an object by key: a string the object owns, or
    a member inherited from [Object.prototype]. *)
Inductive PropertyValue :=
| StringValue (s : jsstring)
| InheritedValue (name : jsstring).

(** [NotionBlock], one constructor per [type] the creators emit.
    [children] is [None] when the payload has no [children] field;
    [caption] likewise. *)
#[warnings="-register-all"] Inductive NotionBlock :=
| Paragraph (rich_text : list NotionRichTextItem)
| Heading1 (rich_text : list NotionRichTextItem)
| Heading2 (rich_text : list NotionRichTextItem)
| Heading3 (rich_text : list NotionRichTextItem)
| BulletedListItem (rich_text : list NotionRichTextItem)
                   (children : option (list NotionBlock))
| NumberedListItem (rich_text : list NotionRichTextItem)
                   (children : option (list NotionBlock))
| Code (rich_text : list NotionRichTextItem) (language : PropertyValue)
| Quote (rich_text : list NotionRichTextItem)
| Divider
| ToDo (rich_text : list NotionRichTextItem) (checked : bool)
| Image (url : jsstring) (caption : option (list NotionRichTextItem)).

Definition blockType (b : NotionBlock) : jsstring :=
  match b with
  | Paragraph _ => js "paragraph"
  | Heading1 _ => js "heading_1"
  | Heading2 _ => js "heading_2"
  | Heading3 _ => js "heading_3"
  | BulletedListItem _ _ => js "bulleted_list_item"
  | NumberedListItem _ _ => js "numbered_list_item"
  | Code _ _ => js "code"
  | Quote _ => js "quote"
  | Divider => js "divider"
  | ToDo _ _ => js "to_do"
  | Image _ _ => js "image"
  end.

(** The [children] field of the payload, when there is one. *)
Definition childrenField (b : NotionBlock) : option (list NotionBlock) :=
  match b with
  | BulletedListItem _ children | NumberedListItem _ children => children
  | _ => None
  end.

(** The own properties of [languageMap], in source order. *)
Definition languageMap : list (jsstring * jsstring) :=
  [ (js "js", js "javascript");
    (js "ts", js "typescript");
    (js "py", js "python");
    (js "rb", js "ruby");
    (js "sh", js "shell");
    (js "bash", js "shell");
    (js "zsh", js "shell");
    (js "yml", js "yaml");
    (js "md", js "markdown");
    ([], js "plain text") ].

(** The keys every object literal inherits from [Object.prototype]. *)
Definition objectPrototypeKeys : list jsstring :=
  [ js "constructor"; js "__proto__"; js "hasOwnProperty";
    js "isPrototypeOf"; js "propertyIsEnumerable"; js "toLocaleString";
    js "toString"; js "valueOf"; js "__defineGetter__";
    js "__defineSetter__"; js "__lookupGetter__"; js "__lookupSetter__" ].

Fixpoint ownProperty (map : list (jsstring * jsstring)) (key : jsstring)
  : option jsstring :=
  match map with
  | [] => None
  | (k, v) :: rest => if JS.eqb k key then Some v else ownProperty rest key
  end.

(** [languageMap[key]]; [None] is [undefined]. *)
Definition languageMapGet (key : jsstring) : option PropertyValue :=
  match ownProperty languageMap key with
  | Some v => Some (StringValue v)
  | None =>
      if existsb (JS.eqb key) objectPrototypeKeys
      then Some (InheritedValue key) else None
  end.

Section WithHost.
Context `{JsHost}.

Definition createParagraphBlock (text : jsstring) : NotionBlock :=
  Paragraph (createPlainTextRichText (Some text)).

Definition createHeading1Block (text : jsstring) : NotionBlock :=
  Heading1 (createPlainTextRichText (Some text)).

Definition createHeading2Block (text : jsstring) : NotionBlock :=
  Heading2 (createPlainTextRichText (Some text)).

Definition createHeading3Block (text : jsstring) : NotionBlock :=
  Heading3 (createPlainTextRichText (Some text)).

(** [children && children.length > 0] decides whether the field is
    set. *)
Definition attachChildren (children : option (list NotionBlock))
  : option (list NotionBlock) :=
  match children with
  | Some cs => if 0 <? length cs then Some cs else None
  | None => None
  end.

Definition createBulletedListItemBlock (text : jsstring)
           (children : option (list NotionBlock)) : NotionBlock :=
  BulletedListItem (createPlainTextRichText (Some text)) (attachChildren children).

Definition createNumberedListItemBlock (text : jsstring)
           (children : option (list NotionBlock)) : NotionBlock :=
  NumberedListItem (createPlainTextRichText (Some text)) (attachChildren children).

Definition createCodeBlock (code : jsstring) (language : option jsstring)
  : NotionBlock :=
  let normalizedLanguage :=
    match language with
    | Some l => orElse (toLowerCase l) []
    | None => []
    end in
  let notionLanguage :=
    match languageMapGet normalizedLanguage with
    | Some v => v (* every entry and every inherited member is truthy *)
    | None =>
        if truthy normalizedLanguage then StringValue normalizedLanguage
        else StringValue (js "plain text")
    end in
  Code [mkRichText code None] notionLanguage.

Definition createQuoteBlock (text : jsstring) : NotionBlock :=
  Quote (createPlainTextRichText (Some text)).

Definition createDividerBlock : NotionBlock := Divider.

Definition createToDoBlock (text : jsstring) (checked : bool) : NotionBlock :=
  ToDo (createPlainTextRichText (Some text)) checked.

(** [caption || url] and [caption ? ... : {}] test the caption for
    truthiness; [None] is [undefined]. *)
Definition createImageBlock (url : jsstring) (caption : option jsstring)
  : NotionBlock :=
  let captionText := match caption with Some c => c | None => [] end in
  if negb (isValidURL url) then
    createParagraphBlock (js "[Image: " ++ orElse captionText url ++ js "]")
  else
    Image url (if truthy captionText
               then Some (createPlainTextRichText (Some captionText))
               else None).

End WithHost.

End BlockCreators.

Import BlockCreators.

(** ** markdownToBlocks.ts *)

Module MarkdownToBlocks.

(** A token of the [marked] lexer, block or inline, list items
    included: one object shape with the fields the walker reads.
    [lang], [title], [checked] and [tokens] may be missing. *)
#[warnings="-register-all"] Inductive Token : Type := mkToken {
  type : jsstring;
  raw : jsstring;
  text : jsstring;
  depth : nat;
  lang : option jsstring;
  href : jsstring;
  title : option jsstring;
  ordered : bool;
  items : list Token;
  task : bool;
  checked : option bool;
  tokens : option (list Token)
}.

(** [Lexer.lex] of [marked]. *)
Class Tokenizer := { lex : jsstring -> list Token }.

Definition MAX_NESTING_DEPTH : nat := 3.

(** The module variable [conversionWarnings]. *)
Definition Warnings := list jsstring.

Definition getConversionWarnings (conversionWarnings : Warnings) : list jsstring :=
  conversionWarnings.

Definition unknownTokenWarning (token : Token) : jsstring :=
  js "Unknown token type: " ++ type token.

Definition nestingWarning (depth : nat) : jsstring :=
  js "Nested list at depth " ++ ofNat (depth + 1)
     ++ js " exceeds maximum depth of " ++ ofNat MAX_NESTING_DEPTH
     ++ js ". Flattening to siblings.".

(** The first loop of [processListItem]: the text of the item and
    the last [list] sub-token met. *)
Fixpoint scanItemTokens (toks : list Token) (textContent : jsstring)
         (nestedList : option Token) : jsstring * option Token :=
  match toks with
  | [] => (textContent, nestedList)
  | token :: rest =>
      if JS.eqb (type token) (js "list") then
        scanItemTokens rest textContent (Some token)
      else if JS.eqb (type token) (js "text") || JS.eqb (type token) (js "paragraph") then
        scanItemTokens rest (textContent ++ orElse (text token) []) nestedList
      else scanItemTokens rest textContent nestedList
  end.

Section WithHost.
Context `{JsHost}.

Definition processHeading (token : Token) : NotionBlock :=
  let text := orElse (text token) [] in
  match depth token with
  | 1 => createHeading1Block text
  | 2 => createHeading2Block text
  | _ => createHeading3Block text
  end.

(** [imgToken.text || imgToken.title || undefined]. *)
Definition imageCaption (imgToken : Token) : option jsstring :=
  if truthy (text imgToken) then Some (text imgToken)
  else match title imgToken with
       | Some t => if truthy t then Some t else None
       | None => None
       end.

(** The loop of [processParagraph] over the inline tokens. *)
Fixpoint paragraphLoop (inline : list Token) (blocks : list NotionBlock)
         (textParts : list jsstring) : list NotionBlock * list jsstring :=
  match inline with
  | [] => (blocks, textParts)
  | inlineToken :: rest =>
      if JS.eqb (type inlineToken) (js "image") then
        let flushed :=
          if 0 <? length textParts
          then blocks ++ [createParagraphBlock (join [] textParts)]
          else blocks in
        paragraphLoop rest
          (flushed ++ [createImageBlock (href inlineToken) (imageCaption inlineToken)])
          []
      else
        paragraphLoop rest blocks
          (textParts ++ [orElse (raw inlineToken) (orElse (text inlineToken) [])])
  end.

Definition processParagraph (token : Token) : list NotionBlock :=
  let blocks :=
    match tokens token with
    | Some inline =>
        let '(blocks, textParts) := paragraphLoop inline [] [] in
        if 0 <? length textParts then
          let text := trim (join [] textParts) in
          if truthy text then blocks ++ [createParagraphBlock text] else blocks
        else blocks
    | None =>
        if truthy (trim (text token)) then [createParagraphBlock (text token)]
        else []
    end in
  if 0 <? length blocks then blocks
  else [createParagraphBlock (orElse (text token) [])].

Definition processCodeBlock (token : Token) : NotionBlock :=
  createCodeBlock (orElse (text token) []) (lang token).

(** What [processBlockquote] does with a block that came out of a
    non-paragraph sub-token. *)
Definition requote (block : NotionBlock) : NotionBlock :=
  match block with
  | Paragraph rich_text =>
      createQuoteBlock
        (orElse (match rich_text with item :: _ => content item | [] => [] end) [])
  | _ => block
  end.

(** The loop of [processBlockquote]; [processToken] is the walker
    at the fuel left. *)
Fixpoint blockquoteLoop
         (processToken : Token -> Warnings -> option (list NotionBlock * Warnings))
         (inner : list Token) (blocks : list NotionBlock) (ws : Warnings)
  : option (list NotionBlock * Warnings) :=
  match inner with
  | [] => Some (blocks, ws)
  | innerToken :: rest =>
      if JS.eqb (type innerToken) (js "paragraph") then
        blockquoteLoop processToken rest
          (blocks ++ [createQuoteBlock (orElse (text innerToken) [])]) ws
      else
        match processToken innerToken ws with
        | None => None
        | Some (processed, ws') =>
            blockquoteLoop processToken rest (blocks ++ List.map requote processed) ws'
        end
  end.

(** The loop of [processListItems]. *)
Fixpoint listItemsLoop
         (processListItem : Token -> Warnings
                            -> option (NotionBlock * list NotionBlock * Warnings))
         (items : list Token) (blocks : list NotionBlock) (ws : Warnings)
  : option (list NotionBlock * Warnings) :=
  match items with
  | [] => Some (blocks, ws)
  | item :: rest =>
      match processListItem item ws with
      | None => None
      | Some (block, flattenedItems, ws') =>
          let blocks := blocks ++ [block] in
          listItemsLoop processListItem rest
            (if 0 <? length flattenedItems then blocks ++ flattenedItems else blocks)
            ws'
      end
  end.

(** The walker.  The functions of the source call each other along
    the token tree; here every such call spends one unit of [fuel],
    and [None] is a walk that ran out of it.  The warnings
    collected so far go in and come out. *)
Fixpoint processListItems (fuel : nat) (items : list Token) (ordered : bool)
                          (depth : nat) (ws : Warnings) {struct fuel}
  : option (list NotionBlock * Warnings) :=
  match fuel with
  | 0 => None
  | S fuel' =>
      listItemsLoop (fun item => processListItem fuel' item ordered depth) items [] ws
  end

with processListItem (fuel : nat) (item : Token) (ordered : bool)
                     (depth : nat) (ws : Warnings) {struct fuel}
  : option (NotionBlock * list NotionBlock * Warnings) :=
  match fuel with
  | 0 => None
  | S fuel' =>
      if task item then
        Some (createToDoBlock (orElse (text item) [])
                              (match checked item with Some c => c | None => false end),
              [], ws)
      else
        let '(textContent, nestedList) :=
          match tokens item with
          | Some toks => scanItemTokens toks [] None
          | None => (orElse (text item) [], None)
          end in
        let createItem children :=
          if ordered then createNumberedListItemBlock textContent children
          else createBulletedListItemBlock textContent children in
        match nestedList with
        | Some nestedList =>
            if depth <? MAX_NESTING_DEPTH then
              match processListItems fuel' (items nestedList)
                                     (MarkdownToBlocks.ordered nestedList)
                                     (depth + 1) ws with
              | None => None
              | Some (children, ws') => Some (createItem (Some children), [], ws')
              end
            else
              match processListItems fuel' (items nestedList)
                                     (MarkdownToBlocks.ordered nestedList)
                                     depth (ws ++ [nestingWarning depth]) with
              | None => None
              | Some (flattenedItems, ws') => Some (createItem None, flattenedItems, ws')
              end
        | None => Some (createItem None, [], ws)
        end
  end.

Definition processList (fuel : nat) (token : Token) (ws : Warnings)
  : option (list NotionBlock * Warnings) :=
  processListItems fuel (items token) (ordered token) 1 ws.

Fixpoint processToken (fuel : nat) (token : Token) (ws : Warnings) {struct fuel}
  : option (list NotionBlock * Warnings) :=
  match fuel with
  | 0 => None
  | S fuel' =>
      if JS.eqb (type token) (js "heading") then Some ([processHeading token], ws)
      else if JS.eqb (type token) (js "paragraph") then Some (processParagraph token, ws)
      else if JS.eqb (type token) (js "code") then Some ([processCodeBlock token], ws)
      else if JS.eqb (type token) (js "blockquote") then processBlockquote fuel' token ws
      else if JS.eqb (type token) (js "list") then processList fuel' token ws
      else if JS.eqb (type token) (js "hr") then Some ([createDividerBlock], ws)
      else if JS.eqb (type token) (js "space") then Some ([], ws)
      else if JS.eqb (type token) (js "html") then
        if truthy (trim (text token))
        then Some ([createParagraphBlock (trim (text token))], ws)
        else Some ([], ws)
      else Some ([], ws ++ [unknownTokenWarning token])
  end

with processBlockquote (fuel : nat) (token : Token) (ws : Warnings) {struct fuel}
  : option (list NotionBlock * Warnings) :=
  match fuel with
  | 0 => None
  | S fuel' =>
      match tokens token with
      | Some inner => blockquoteLoop (processToken fuel') inner [] ws
      | None => Some ([createQuoteBlock (orElse (text token) [])], ws)
      end
  end.

Context `{Tokenizer}.

(** The loop of [markdownToBlocks] over the top-level tokens. *)
Fixpoint topLevelLoop (fuel : nat) (toks : list Token) (blocks : list NotionBlock)
         (ws : Warnings) : option (list NotionBlock * Warnings) :=
  match toks with
  | [] => Some (blocks, ws)
  | token :: rest =>
      match processToken fuel token ws with
      | None => None
      | Some (processedBlocks, ws') =>
          topLevelLoop fuel rest (blocks ++ processedBlocks) ws'
      end
  end.

(** [markdownToBlocks(markdown)] started with [conversionWarnings]
    in the module variable: the blocks returned and the module
    variable afterwards. *)
Definition markdownToBlocks (fuel : nat) (markdown : jsstring)
           (conversionWarnings : Warnings)
  : option (list NotionBlock * Warnings) :=
  if negb (truthy markdown) || JS.eqb (trim markdown) [] then
    Some ([], conversionWarnings)
  else
    let conversionWarnings : Warnings := [] in
    let tokens := lex markdown in
    topLevelLoop fuel tokens [] conversionWarnings.

End WithHost.

End MarkdownToBlocks.

Import MarkdownToBlocks.

(** ** The remote document service

    The client of the service is taken as it is used: three
    operations that change the remote state and either answer or
    throw.  Every call is also written to a log, so that statements
    can speak about which calls were issued and in what order. *)

Module Notion.

Record ChildBlock := mkChild { id : option jsstring }.

Record ListResponse := mkListResponse {
  results : list ChildBlock;
  has_more : bool;
  next_cursor : option jsstring
}.

Class Client := {
  Remote : Type;
  Response : Type;
  Error : Type;
  (** [notion.blocks.children.append({block_id, children})] *)
  blocks_children_append :
    jsstring -> list NotionBlock -> Remote -> (Response + Error) * Remote;
  (** [notion.blocks.children.list({block_id, start_cursor, page_size})] *)
  blocks_children_list :
    jsstring -> option jsstring -> nat -> Remote -> (ListResponse + Error) * Remote;
  (** [notion.blocks.delete({block_id})] *)
  blocks_delete : jsstring -> Remote -> (unit + Error) * Remote;
  (** [String(error)] *)
  errorToString : Error -> jsstring
}.

Section WithClient.
Context `{Client}.

Inductive Call :=
| AppendCall (block_id : jsstring) (children : list NotionBlock)
             (outcome : Response + Error)
| ListCall (block_id : jsstring) (start_cursor : option jsstring)
| DeleteCall (block_id : jsstring) (outcome : unit + Error).

Record World := mkWorld {
  conversionWarnings : Warnings;
  remote : Remote;
  calls : list Call
}.

(** How a computation ends: with a value, with a thrown error, or
    not at all (out of fuel). *)
Inductive Completion (A : Type) :=
| Returned (a : A)
| Threw (e : Error)
| Diverged.
Arguments Returned {A} a.
Arguments Threw {A} e.
Arguments Diverged {A}.

Definition M (A : Type) := World -> Completion A * World.

Definition ret {A} (a : A) : M A := fun w => (Returned a, w).

Definition bind {A B} (m : M A) (k : A -> M B) : M B :=
  fun w =>
    match m w with
    | (Returned a, w') => k a w'
    | (Threw e, w') => (Threw e, w')
    | (Diverged, w') => (Diverged, w')
    end.

Definition tryCatch {A} (m : M A) (handler : Error -> M A) : M A :=
  fun w =>
    match m w with
    | (Threw e, w') => handler e w'
    | r => r
    end.

Definition diverge {A} : M A := fun w => (Diverged, w).

Definition settle {A} (outcome : A + Error) : Completion A :=
  match outcome with
  | inl a => Returned a
  | inr e => Threw e
  end.

Definition childrenAppend (block_id : jsstring) (children : list NotionBlock) : M Response :=
  fun w =>
    let '(outcome, remote') := blocks_children_append block_id children (remote w) in
    (settle outcome,
     mkWorld (conversionWarnings w) remote'
             (calls w ++ [AppendCall block_id children outcome])).

Definition childrenList (block_id : jsstring) (start_cursor : option jsstring)
           (page_size : nat) : M ListResponse :=
  fun w =>
    let '(outcome, remote') :=
      blocks_children_list block_id start_cursor page_size (remote w) in
    (settle outcome,
     mkWorld (conversionWarnings w) remote'
             (calls w ++ [ListCall block_id start_cursor])).

Definition blockDelete (block_id : jsstring) : M unit :=
  fun w =>
    let '(outcome, remote') := blocks_delete block_id (remote w) in
    (settle outcome,
     mkWorld (conversionWarnings w) remote'
             (calls w ++ [DeleteCall block_id outcome])).

Definition isDelete (c : Call) : bool :=
  match c with DeleteCall _ _ => true | _ => false end.

Definition isList (c : Call) : bool :=
  match c with ListCall _ _ => true | _ => false end.

Definition isAppend (c : Call) : bool :=
  match c with AppendCall _ _ _ => true | _ => false end.

Definition appendFailed (c : Call) : bool :=
  match c with AppendCall _ _ (inr _) => true | _ => false end.

Definition appendedChildren (c : Call) : list (list NotionBlock) :=
  match c with AppendCall _ children _ => [children] | _ => [] end.

End WithClient.

Arguments Returned {_ A} a.
Arguments Threw {_ A} e.
Arguments Diverged {_ A}.

End Notion.

Import Notion.

Declare Scope monad_scope.
Notation "x <- m ;; k" := (Notion.bind m (fun x => k))
  (at level 61, m at next level, right associativity) : monad_scope.
Notation "' pat <- m ;; k" := (Notion.bind m (fun x => match x with pat => k end))
  (at level 61, pat pattern, m at next level, right associativity) : monad_scope.
Open Scope monad_scope.

(** ** batchUtils.ts *)

Module BatchUtils.

Definition NOTION_BLOCK_LIMIT : nat := 100.

(** [blocks.slice(start, end)] for [start <= end]. *)
Definition slice {T} (blocks : list T) (start stop : nat) : list T :=
  firstn (stop - start) (skipn start blocks).

(** The [for] of [chunkBlocks]; [None] when the fuel is used up. *)
Fixpoint chunkLoop {T} (fuel : nat) (blocks : list T) (chunkSize i : nat)
         (chunks : list (list T)) : option (list (list T)) :=
  match fuel with
  | 0 => None
  | S fuel' =>
      if i <? length blocks then
        chunkLoop fuel' blocks chunkSize (i + chunkSize)
                  (chunks ++ [slice blocks i (i + chunkSize)])
      else Some chunks
  end.

(** [chunkBlocks(blocks, chunkSize = NOTION_BLOCK_LIMIT)].  The loop
    either moves [i] forward at every turn, and then stops within
    [length blocks] turns, or never moves it: [None] stands for a
    call that does not return. *)
Definition chunkBlocks {T} (blocks : list T) (chunkSize : option nat)
  : option (list (list T)) :=
  let chunkSize := match chunkSize with Some c => c | None => NOTION_BLOCK_LIMIT end in
  if length blocks =? 0 then Some []
  else chunkLoop (S (length blocks)) blocks chunkSize 0 [].

Section WithClient.
Context `{Client}.

Record BatchAppendResult := mkBatchResult {
  success : bool;
  totalBlocks : nat;
  batchCount : nat;
  successfulBatches : nat;
  batchResults : list Response;
  errors : list (nat * Error)
}.

(** The [for] of [appendBlocksInBatches] from index [i] on. *)
Fixpoint appendLoop (blockId : jsstring) (chunks : list (list NotionBlock)) (i : nat)
         (results : list Response) (errors : list (nat * Error))
         (successfulBatches : nat)
  : M (list Response * list (nat * Error) * nat) :=
  match chunks with
  | [] => ret (results, errors, successfulBatches)
  | chunk :: rest =>
      '(results, errors, successfulBatches) <-
        tryCatch
          (response <- childrenAppend blockId chunk ;;
           ret (results ++ [response], errors, successfulBatches + 1))
          (fun error => ret (results, errors ++ [(i, error)], successfulBatches)) ;;
      appendLoop blockId rest (i + 1) results errors successfulBatches
  end.

Definition appendBlocksInBatches (blockId : jsstring) (blocks : list NotionBlock)
  : M BatchAppendResult :=
  if length blocks =? 0 then
    ret (mkBatchResult true 0 0 0 [] [])
  else
    match chunkBlocks blocks None with
    | None => diverge
    | Some chunks =>
        '(results, errors, successfulBatches) <- appendLoop blockId chunks 0 [] [] 0 ;;
        ret (mkBatchResult (length errors =? 0) (length blocks) (length chunks)
                           successfulBatches results errors)
    end.

(** The ids of one page of children: [if ("id" in block)]. *)
Definition childIdsOf (results : list ChildBlock) : list jsstring :=
  flat_map (fun block => match id block with Some i => [i] | None => [] end) results.

(** The [do ... while (cursor)] of [fetchAllChildBlockIds]. *)
Fixpoint fetchLoop (fuel : nat) (blockId : jsstring) (cursor : option jsstring)
         (childIds : list jsstring) : M (list jsstring) :=
  match fuel with
  | 0 => diverge
  | S fuel' =>
      response <- childrenList blockId cursor 100 ;;
      let childIds := childIds ++ childIdsOf (results response) in
      let cursor := if has_more response then next_cursor response else None in
      match cursor with
      | Some c =>
          if truthy c then fetchLoop fuel' blockId cursor childIds
          else ret childIds
      | None => ret childIds
      end
  end.

Definition fetchAllChildBlockIds (fuel : nat) (blockId : jsstring) : M (list jsstring) :=
  fetchLoop fuel blockId None [].

End WithClient.

End BatchUtils.

Import BatchUtils.

(** ** rewritePage.ts *)

Module RewritePage.

Record RewritePageParams := mkParams {
  pageId : jsstring;
  markdown : jsstring;
  validateBeforeDelete : option bool
}.

(** [CallToolResult] with one text item. *)
Record CallToolResult := mkResult {
  resultText : jsstring;
  isError : bool
}.

Section WithClient.
Context `{JsHost} `{Tokenizer} `{Client}.

(** [handleNotionError] of [utils/error.js]. *)
Variable handleNotionError : Error -> CallToolResult.

(** The [for] of [deleteBlocksByIds]. *)
Fixpoint deleteLoop (blockIds : list jsstring) (deletedCount : nat)
         (errors : list jsstring) : M (nat * list jsstring) :=
  match blockIds with
  | [] => ret (deletedCount, errors)
  | blockId :: rest =>
      '(deletedCount, errors) <-
        tryCatch
          (_ <- blockDelete blockId ;; ret (deletedCount + 1, errors))
          (fun error =>
             ret (deletedCount, errors ++ [blockId ++ js ": " ++ errorToString error])) ;;
      deleteLoop rest deletedCount errors
  end.

Definition deleteBlocksByIds (blockIds : list jsstring) : M (nat * list jsstring) :=
  deleteLoop blockIds 0 [].

(** The two calls into the converter, on the module variable kept
    in the world. *)
Definition convert (fuel : nat) (markdown : jsstring) : M (list NotionBlock) :=
  fun w =>
    match markdownToBlocks fuel markdown (conversionWarnings w) with
    | Some (blocks, ws) => (Returned blocks, mkWorld ws (remote w) (calls w))
    | None => (Diverged, w)
    end.

Definition readWarnings : M (list jsstring) :=
  fun w => (Returned (getConversionWarnings (conversionWarnings w)), w).

Definition emptyConversionMessage : jsstring :=
  js "Error: Markdown conversion resulted in 0 blocks. Please provide valid Markdown content.".

Definition newline : jsstring := [10%N].

Definition appendFailureMessage (pageId : jsstring) (batchResult : BatchAppendResult)
  : jsstring :=
  join newline
    [ js "Error: Failed to append new content to page " ++ pageId;
      js "Original content has been preserved (no data lost).";
      js "Successful batches: " ++ ofNat (successfulBatches batchResult)
         ++ js "/" ++ ofNat (batchCount batchResult);
      js "Errors: "
         ++ join (js "; ")
              (List.map (fun e => js "Batch " ++ ofNat (fst e) ++ js ": "
                                     ++ errorToString (snd e))
                        (errors batchResult));
      js "Note: "
         ++ (if 0 <? successfulBatches batchResult
             then js "Some new blocks were added but original content remains."
             else js "No new blocks were added.") ].

Definition successLines (pageId : jsstring) (batchResult : BatchAppendResult)
           (deletedCount : nat) (warnings deleteErrors : list jsstring)
  : list jsstring :=
  let resultMessages :=
    [ js "Page rewrite completed for " ++ pageId;
      js "Added: " ++ ofNat (totalBlocks batchResult) ++ js " new block(s) in "
         ++ ofNat (batchCount batchResult) ++ js " batch(es)";
      js "Deleted: " ++ ofNat deletedCount ++ js " existing block(s)" ] in
  let resultMessages :=
    if 0 <? length warnings
    then resultMessages ++ [js "Conversion warnings: " ++ join (js "; ") warnings]
    else resultMessages in
  let resultMessages :=
    if 0 <? length deleteErrors
    then resultMessages
           ++ [js "Note: Some old blocks could not be deleted: "
                  ++ join (js "; ") (firstn 3 deleteErrors)
                  ++ (if 3 <? length deleteErrors
                      then js " (+" ++ ofNat (length deleteErrors - 3) ++ js " more)"
                      else [])]
    else resultMessages in
  resultMessages.

Definition successMessage (pageId : jsstring) (batchResult : BatchAppendResult)
           (deletedCount : nat) (warnings deleteErrors : list jsstring) : jsstring :=
  join newline (successLines pageId batchResult deletedCount warnings deleteErrors).

Definition rewritePage (fuel : nat) (params : RewritePageParams) : M CallToolResult :=
  let pageId := pageId params in
  let markdown := markdown params in
  let validateBeforeDelete :=
    match validateBeforeDelete params with Some v => v | None => true end in
  tryCatch
    (blocks <- convert fuel markdown ;;
     warnings <- readWarnings ;;
     if length blocks =? 0 then
       ret (mkResult emptyConversionMessage true)
     else
       existingBlockIds <-
         (if validateBeforeDelete then fetchAllChildBlockIds fuel pageId else ret []) ;;
       batchResult <- appendBlocksInBatches pageId blocks ;;
       if negb (success batchResult) then
         ret (mkResult (appendFailureMessage pageId batchResult) true)
       else
         '(deletedCount, deleteErrors) <-
           (if 0 <? length existingBlockIds
            then deleteBlocksByIds existingBlockIds
            else ret (0, [])) ;;
         ret (mkResult (successMessage pageId batchResult deletedCount
                                       warnings deleteErrors)
                       false))
    (fun error => ret (handleNotionError error)).

End WithClient.

End RewritePage.

Import RewritePage.

(** ** Stand-ins for the collaborators

    Small hosts, tokens and clients on which the definitions above can
    be run. *)

Module Fixtures.

(** [toLowerCase] on a text of ASCII code units. *)
Definition asciiToLowerCase (s : jsstring) : jsstring :=
  List.map (fun c => if ((65 <=? c) && (c <=? 90))%N then (c + 32)%N else c) s.

(** A host for texts that carry no inline markup and tags written in
    ASCII; a URL is taken as well-formed when it starts with "http". *)
Definition plainHost : JsHost :=
  {| inlineMarkupReplace := fun s => s;
     toLowerCase := asciiToLowerCase;
     isValidURL := fun url => JS.eqb (firstn 4 url) (js "http") |}.

Definition token (type text : string) : Token :=
  mkToken (js type) (js text) (js text) 0 None [] None false [] false None None.

Definition paragraphToken (text : string) (inline : option (list Token)) : Token :=
  mkToken (js "paragraph") (js text) (js text) 0 None [] None false [] false None inline.

Definition listToken (ordered : bool) (items : list Token) : Token :=
  mkToken (js "list") [] [] 0 None [] None ordered items false None None.

Definition listItem (text : string) (tokens : list Token) : Token :=
  mkToken (js "list_item") (js text) (js text) 0 None [] None false [] false None
          (Some tokens).

  (** A lexer that reads every document as one link reference
    definition, a token kind the walker does not know. *)
Definition defLexer : Tokenizer :=
  {| lex := fun markdown => [mkToken (js "def") markdown [] 0 None [] None false []
                                     false None None] |}.

(** A lexer that reads every document as one paragraph of text. *)
Definition paragraphLexer : Tokenizer :=
  {| lex := fun markdown =>
              [mkToken (js "paragraph") markdown markdown 0 None [] None false []
                       false None None] |}.

Definition twoOldChildren : ListResponse :=
  mkListResponse [mkChild (Some (js "old-1")); mkChild (Some (js "old-2"))] false None.

(** A service that refuses every append. *)
Definition refusingClient : Client :=
  {| Remote := unit;
     Response := unit;
     Error := jsstring;
     blocks_children_append := fun _ _ r => (inr (js "validation_error"), r);
     blocks_children_list := fun _ _ _ r => (inl twoOldChildren, r);
     blocks_delete := fun _ r => (inl tt, r);
     errorToString := fun e => e |}.

(** A service that accepts everything. *)
Definition acceptingClient : Client :=
  {| Remote := unit;
     Response := unit;
     Error := jsstring;
     blocks_children_append := fun _ _ r => (inl tt, r);
     blocks_children_list := fun _ _ _ r => (inl twoOldChildren, r);
     blocks_delete := fun _ r => (inl tt, r);
     errorToString := fun e => e |}.

End Fixtures.

(** ** Measures on tokens *)

Fixpoint tokenSize (t : Token) : nat :=
  S ((fix sizes (l : list Token) : nat :=
        match l with [] => 0 | x :: r => tokenSize x + sizes r end) (items t)
     + match tokens t with
       | Some l =>
           (fix sizes (l : list Token) : nat :=
              match l with [] => 0 | x :: r => tokenSize x + sizes r end) l
       | None => 0
       end).

Definition tokenSizes (l : list Token) : nat :=
  list_sum (List.map tokenSize l).

(** The inline sub-tokens of a paragraph hold no image. *)
Definition noImages (token : Token) : bool :=
  match tokens token with
  | Some inline => forallb (fun t => negb (JS.eqb (type t) (js "image"))) inline
  | None => true
  end.

(** [raw || text] of an inline token, the empty string when both are empty. *)
Definition inlineText (inlineToken : Token) : jsstring :=
  orElse (raw inlineToken) (orElse (text inlineToken) []).

(** The text a paragraph is built from: its inline sub-tokens joined
    when it has any, its own [text] otherwise. *)
Definition paragraphText (token : Token) : jsstring :=
  match tokens token with
  | Some inline => join [] (List.map inlineText inline)
  | None => text token
  end.

(** The tag of a code block once lower-cased, empty when there is none. *)
Definition normalizedTag `{JsHost} (language : option jsstring) : jsstring :=
  match language with
  | Some l => toLowerCase l
  | None => []
  end.


(** [item.checked || false]. *)
Definition checkedOrFalse (item : Token) : bool :=
  match checked item with Some c => c | None => false end.

(** A checklist item as [marked] gives it for the two lines
    "- [ ] Task" and, indented under it, "- Nested": the text of the
    item holds both lines, its sub-tokens are the text and the nested
    list. *)
Definition nestedTaskItem : Token :=
  mkToken (js "list_item") [] (js "Task" ++ [10%N] ++ js "- Nested") 0 None [] None
          false [] true (Some false)
          (Some [ Fixtures.token "text" "Task";
                  Fixtures.listToken false
                    [Fixtures.listItem "Nested" [Fixtures.token "text" "Nested"]] ]).

(** The same item without its checkbox. *)
Definition nestedPlainItem : Token :=
  mkToken (js "list_item") [] (js "Task" ++ [10%N] ++ js "- Nested") 0 None [] None
          false [] false None (tokens nestedTaskItem).

(** ** Reading a list item *)

Definition isListToken (t : Token) : bool := JS.eqb (type t) (js "list").

Definition isTextToken (t : Token) : bool :=
  JS.eqb (type t) (js "text") || JS.eqb (type t) (js "paragraph").

(** The last [list] sub-token among the sub-tokens of an item. *)
Fixpoint lastList (toks : list Token) : option Token :=
  match toks with
  | [] => None
  | t :: rest =>
      match lastList rest with
      | Some l => Some l
      | None => if isListToken t then Some t else None
      end
  end.

(** The texts of the [text] and [paragraph] sub-tokens, one after the
    other. *)
Definition textsOf (toks : list Token) : jsstring :=
  concat (List.map (fun t => orElse (text t) []) (filter isTextToken toks)).

(** The text a list item is labelled with, and the nested list that is
    looked at. *)
Definition itemText (item : Token) : jsstring :=
  match tokens item with
  | Some toks => textsOf toks
  | None => orElse (text item) []
  end.

Definition lastNestedList (item : Token) : option Token :=
  match tokens item with
  | Some toks => lastList toks
  | None => None
  end.

(** The block of an item of a list met above the depth limit: a
    checklist item gives a [to_do] block of its text, which has no
    children; any other item gives a list item of its label whose
    children are the blocks of its last nested list, built one level
    further down, the field being left out when there is no nested
    list or it gives no block. *)
Definition itemBlock `{JsHost} (fuel : nat) (ordered : bool) (depth : nat)
           (item : Token) (b : NotionBlock) : Prop :=
  if task item then
    b = ToDo (createPlainTextRichText (Some (orElse (text item) [])))
             (checkedOrFalse item)
  else
    exists children,
      b = (if ordered then NumberedListItem else BulletedListItem)
            (createPlainTextRichText (Some (itemText item))) children
      /\ match lastNestedList item with
         | None => children = None
         | Some nestedList =>
             exists kids,
               (forall ws, exists ws',
                   processListItems fuel (items nestedList)
                                    (MarkdownToBlocks.ordered nestedList) (depth + 1) ws
                   = Some (kids, ws'))
               /\ children = (match kids with [] => None | _ :: _ => Some kids end)
         end.


(** ** Reading the log of calls *)

Section CallLog.
Context `{Client}.

(** The failures among the calls, numbered from [i] in the order of
    the calls. *)
Fixpoint failuresFrom (i : nat) (cs : list Call) : list (nat * Error) :=
  match cs with
  | [] => []
  | AppendCall _ _ (inr e) :: rest => (i, e) :: failuresFrom (S i) rest
  | _ :: rest => failuresFrom (S i) rest
  end.

(** The answers among the calls. *)
Fixpoint responsesOf (cs : list Call) : list Response :=
  match cs with
  | [] => []
  | AppendCall _ _ (inl r) :: rest => r :: responsesOf rest
  | _ :: rest => responsesOf rest
  end.

(** An append to the container [blockId]. *)
Definition appendsTo (blockId : jsstring) (c : Call) : bool :=
  match c with
  | AppendCall block_id _ _ => JS.eqb block_id blockId
  | _ => false
  end.

End CallLog.

(** [validateBeforeDelete = true] in the destructuring of the
    parameters. *)
Definition validateBeforeDeleteOrDefault (params : RewritePageParams) : bool :=
  match validateBeforeDelete params with Some v => v | None => true end.

(** Step 2 of [rewritePage]: the ids captured before the append. *)
Definition captureExistingBlockIds `{Client} (fuel : nat) (params : RewritePageParams)
  : M (list jsstring) :=
  if validateBeforeDeleteOrDefault params
  then fetchAllChildBlockIds fuel (pageId params)
  else Notion.ret [].

(** A rewrite of the page "page-1" with the one line "Hello", in a
    world where nothing has happened yet. *)
Definition helloParams : RewritePageParams :=
  mkParams (js "page-1") (js "Hello") None.

Definition freshWorld : @World Fixtures.refusingClient :=
  @mkWorld Fixtures.refusingClient [] tt [].

Definition reportError (e : jsstring) : CallToolResult := mkResult e true.

(** The paragraph that holds nothing but a no-break space, as the
    lexer gives it for a line made of that character. *)
Definition blankParagraph : Token :=
  mkToken (js "paragraph") [160%N] [160%N] 0 None [] None false [] false None
          (Some [mkToken (js "text") [160%N] [160%N] 0 None [] None false [] false None None]).

(** ** Further notions used by the properties *)

(** A cut of [splitTextIntoChunks] is well placed: the chunk is longer
    than [maxLength - 100] and not longer than [maxLength], and either
    it ends in a break character or it is exactly [maxLength] long
    because the last hundred code units of the window hold no break
    character. *)
Definition wellPlacedCut (maxLength : nat) (chunk : jsstring) : Prop :=
  maxLength - 100 < length chunk
  /\ length chunk <= maxLength
  /\ (isBreak (nth_error chunk (length chunk - 1)) = true
      \/ (length chunk = maxLength
          /\ forall i, maxLength - 100 <= i -> i < maxLength ->
                       isBreak (nth_error chunk i) = false)).

(** The number of levels of a block: one for the block itself and one
    more for every level of [children] under it. *)
Fixpoint blockHeight (b : NotionBlock) : nat :=
  match b with
  | BulletedListItem _ (Some cs) | NumberedListItem _ (Some cs) =>
      S ((fix heights (l : list NotionBlock) : nat :=
            match l with [] => 0 | c :: r => Nat.max (blockHeight c) (heights r) end) cs)
  | _ => 1
  end.

Definition maxHeight (l : list NotionBlock) : nat :=
  fold_right (fun c h => Nat.max (blockHeight c) h) 0 l.

(** No block, at any level, has a [children] field that is an empty
    array. *)
Fixpoint childrenNeverEmpty (b : NotionBlock) : bool :=
  match b with
  | BulletedListItem _ (Some cs) | NumberedListItem _ (Some cs) =>
      (0 <? length cs)
      && (fix all (l : list NotionBlock) : bool :=
            match l with [] => true | c :: r => childrenNeverEmpty c && all r end) cs
  | _ => true
  end.

(** A block the service accepts as far as nesting goes. *)
Definition wellNested (b : NotionBlock) : Prop :=
  blockHeight b <= MAX_NESTING_DEPTH /\ childrenNeverEmpty b = true.

(** What the blocks of a list walked at [depth] are like. *)
Definition nestedWithin (depth : nat) (b : NotionBlock) : Prop :=
  blockHeight b <= Nat.max 1 (4 - depth) /\ childrenNeverEmpty b = true.

(** The token kinds [processToken] has a case for. *)
Definition knownTokenTypes : list jsstring :=
  [ js "heading"; js "paragraph"; js "code"; js "blockquote"; js "list";
    js "hr"; js "space"; js "html" ].

(** The block kind a list gives to an item that is not a checklist
    item. *)
Definition listItemType (ordered : bool) : jsstring :=
  if ordered then js "numbered_list_item" else js "bulleted_list_item".

(** The list of "- L1", "- L2", "- L3", "- L4", each nested in the one
    before, as the lexer gives it. *)
Definition fourLevelList : Token :=
  Fixtures.listToken false
    [Fixtures.listItem "L1"
       [Fixtures.token "text" "L1";
        Fixtures.listToken false
          [Fixtures.listItem "L2"
             [Fixtures.token "text" "L2";
              Fixtures.listToken false
                [Fixtures.listItem "L3"
                   [Fixtures.token "text" "L3";
                    Fixtures.listToken false
                      [Fixtures.listItem "L4" [Fixtures.token "text" "L4"]]]]]]]].

(** A lexer that reads every document as that list. *)
Definition fourLevelLexer : Tokenizer := {| lex := fun _ => [fourLevelList] |}.

(** A step of the walker treats the warnings as a log it only adds
    to: what it returns does not depend on the warnings it is given,
    and the warnings it hands back are those it was given followed by
    its own. *)
Definition appendsWarnings {A} (f : Warnings -> option (A * Warnings)) : Prop :=
  forall ws a ws',
    f ws = Some (a, ws') ->
    exists emitted,
      ws' = ws ++ emitted /\ forall ws2, f ws2 = Some (a, ws2 ++ emitted).

(** The conversion of a sequence of top-level tokens, started without
    blocks and without warnings. *)
Definition convertTokens `{JsHost} (fuel : nat) (toks : list Token)
  : option (list NotionBlock * Warnings) :=
  topLevelLoop fuel toks [] [].

Definition isParagraphToken (t : Token) : bool := JS.eqb (type t) (js "paragraph").

Definition isImageToken (t : Token) : bool := JS.eqb (type t) (js "image").

(** A paragraph "see ![logo](https://x.io/l.png) above ": text, an
    image, text. *)
Definition paragraphWithImage : Token :=
  mkToken (js "paragraph") [] [] 0 None [] None false [] false None
          (Some [ Fixtures.token "text" "see ";
                  mkToken (js "image") [] (js "logo") 0 None (js "https://x.io/l.png")
                          None false [] false None None;
                  Fixtures.token "text" " above " ]).

(** A blockquote of the two paragraphs "Line 1" and "Line 2". *)
Definition twoLineQuote : Token :=
  mkToken (js "blockquote") [] [] 0 None [] None false [] false None
          (Some [ Fixtures.paragraphToken "Line 1" None;
                  Fixtures.paragraphToken "Line 2" None ]).

(** A lexer that reads every document as a heading, a table and a
    paragraph. *)
Definition tableLexer : Tokenizer :=
  {| lex := fun _ =>
              [ mkToken (js "heading") [] (js "Title") 1 None [] None false [] false
                        None None;
                Fixtures.token "table" "";
                Fixtures.paragraphToken "after" None ] |}.

(** ** Further notions about the remote service *)

Section Paging.
Context `{Client}.

(** The cursor [fetchAllChildBlockIds] goes on with after a page:
    [has_more ? next_cursor ?? undefined : undefined], when truthy. *)
Definition followingCursor (response : ListResponse) : option jsstring :=
  if has_more response then
    match next_cursor response with
    | Some c => if truthy c then Some c else None
    | None => None
    end
  else None.

(** Asked for the children of [blockId] from [cursor] on, with 100 to
    a page, the service in state [r] answers with the pages [pages],
    each but the last naming a cursor to go on with, and is left in
    state [r']. *)
Inductive servesPages (blockId : jsstring)
  : option jsstring -> Remote -> list ListResponse -> Remote -> Prop :=
| servesLastPage cursor r response r' :
    blocks_children_list blockId cursor 100 r = (inl response, r') ->
    followingCursor response = None ->
    servesPages blockId cursor r [response] r'
| servesNextPage cursor r response r' c pages r'' :
    blocks_children_list blockId cursor 100 r = (inl response, r') ->
    followingCursor response = Some c ->
    servesPages blockId (Some c) r' pages r'' ->
    servesPages blockId cursor r (response :: pages) r''.

(** The list calls that read those pages, one after the other. *)
Fixpoint listCallsFor (blockId : jsstring) (cursor : option jsstring)
         (pages : list ListResponse) : list Call :=
  match pages with
  | [] => []
  | response :: rest =>
      ListCall blockId cursor :: listCallsFor blockId (followingCursor response) rest
  end.

Definition idsOfPages (pages : list ListResponse) : list jsstring :=
  flat_map (fun response => childIdsOf (results response)) pages.

(** The id a delete call names. *)
Definition deletedIds (cs : list Call) : list jsstring :=
  flat_map (fun c => match c with DeleteCall b _ => [b] | _ => [] end) cs.

Definition deleteSucceeded (c : Call) : bool :=
  match c with DeleteCall _ (inl _) => true | _ => false end.

(** The message [deleteBlocksByIds] keeps for a delete that failed. *)
Definition deleteErrorsOf (cs : list Call) : list jsstring :=
  flat_map (fun c => match c with
                     | DeleteCall b (inr e) => [b ++ js ": " ++ errorToString e]
                     | _ => []
                     end) cs.

(** [deleteAllChildBlocks] of batchUtils.ts.  Its [console.warn] on a
    failed delete writes to the console, which is no part of the
    world kept here, and leaves the world as it is. *)
Definition consoleWarn (message : jsstring) : M unit := Notion.ret tt.

Fixpoint deleteChildrenLoop (childIds : list jsstring) (deletedCount : nat) : M nat :=
  match childIds with
  | [] => Notion.ret deletedCount
  | childId :: rest =>
      deletedCount <-
        tryCatch
          (_ <- blockDelete childId ;; Notion.ret (deletedCount + 1))
          (fun error =>
             _ <- consoleWarn (js "Failed to delete block " ++ childId ++ js ":") ;;
             Notion.ret deletedCount) ;;
      deleteChildrenLoop rest deletedCount
  end.

Definition deleteAllChildBlocks (fuel : nat) (blockId : jsstring) : M nat :=
  childIds <- fetchAllChildBlockIds fuel blockId ;;
  deleteChildrenLoop childIds 0.

End Paging.

(** A service with two pages of children, that fails to delete the
    child "b". *)
Definition pagedClient : Client :=
  {| Remote := unit;
     Response := unit;
     Error := jsstring;
     blocks_children_append := fun _ _ r => (inl tt, r);
     blocks_children_list := fun _ cursor _ r =>
       match cursor with
       | None => (inl (mkListResponse [mkChild (Some (js "a")); mkChild (Some (js "b"))]
                                     true (Some (js "p2"))), r)
       | Some _ => (inl (mkListResponse [mkChild (Some (js "c"))] false None), r)
       end;
     blocks_delete := fun block_id r =>
       if JS.eqb block_id (js "b") then (inr (js "locked"), r) else (inl tt, r);
     errorToString := fun e => e |}.

Definition pagedWorld : @World pagedClient := @mkWorld pagedClient [] tt [].

(** A service whose listing fails. *)
Definition unlistableClient : Client :=
  {| Remote := unit;
     Response := unit;
     Error := jsstring;
     blocks_children_append := fun _ _ r => (inl tt, r);
     blocks_children_list := fun _ _ _ r => (inr (js "unauthorized"), r);
     blocks_delete := fun _ r => (inl tt, r);
     errorToString := fun e => e |}.

(** Step 4 of [rewritePage]: the deletion of the ids captured. *)
Definition deleteCaptured `{Client} (existingBlockIds : list jsstring)
  : M (nat * list jsstring) :=
  if 0 <? length existingBlockIds
  then deleteBlocksByIds existingBlockIds
  else Notion.ret (0, []).

Definition unlistableWorld : @World unlistableClient := @mkWorld unlistableClient [] tt [].

(** ** appendBlockChildren.ts *)

Module AppendTool.

Record AppendBlockChildrenParams := mkAppendParams {
blockId : jsstring;
children : option (list NotionBlock);
markdown : option jsstring
}.

(** [CallToolResult] with its text items; [isError] is [None] when
  the field is not set. *)
Record ToolResponse := mkResponse {
content : list jsstring;
isError : option bool
}.

(** Whether an optional string is there and not empty. *)
Definition given (s : option jsstring) : bool :=
match s with Some s => truthy s | None => false end.

Definition provided {A} (a : option A) : bool :=
match a with Some _ => true | None => false end.

Section WithClient.
Context `{JsHost} `{Tokenizer} `{Client}.

(** [handleNotionError] of [utils/error.js] and
[JSON.stringify(response, null, 2)]. *)
Variable handleNotionError : Error -> ToolResponse.
Variable stringifyResponse : Response -> jsstring.

Definition bothGivenMessage : jsstring :=
js "Error: Cannot use both 'children' and 'markdown' parameters. Please use only one.".

Definition noneGivenMessage : jsstring :=
js "Error: Either 'children' or 'markdown' parameter is required.".

Definition fromMarkdownNote (fromMarkdown : bool) : jsstring :=
if fromMarkdown then js " (converted from Markdown)" else [].

Definition batchMessages (blockId : jsstring) (batchResult : BatchAppendResult)
       (fromMarkdown : bool) (conversionWarnings : list jsstring) : list jsstring :=
let messages :=
[ js "Successfully appended " ++ ofNat (totalBlocks batchResult)
     ++ js " block(s) to " ++ blockId ++ js " in "
     ++ ofNat (batchCount batchResult) ++ js " batch(es)"
     ++ fromMarkdownNote fromMarkdown ] in
let messages :=
if 0 <? length conversionWarnings
then messages ++ [js "Conversion warnings: " ++ join (js "; ") conversionWarnings]
else messages in
if negb (success batchResult) then
messages
  ++ [ js "Partial success: " ++ ofNat (successfulBatches batchResult) ++ js "/"
          ++ ofNat (batchCount batchResult) ++ js " batches succeeded";
       js "Errors: "
          ++ join (js "; ")
               (List.map (fun e => js "Batch " ++ ofNat (fst e) ++ js ": "
                                      ++ errorToString (snd e))
                         (errors batchResult)) ]
else messages.

Definition standardMessages (blockId : jsstring) (blocks : list NotionBlock)
       (fromMarkdown : bool) (conversionWarnings : list jsstring) : list jsstring :=
let messages :=
[ js "Successfully appended " ++ ofNat (length blocks)
     ++ js " block(s) to " ++ blockId ++ fromMarkdownNote fromMarkdown ] in
if 0 <? length conversionWarnings
then messages ++ [js "Conversion warnings: " ++ join (js "; ") conversionWarnings]
else messages.

Definition appendBlockChildren (fuel : nat) (params : AppendBlockChildrenParams)
: M ToolResponse :=
tryCatch
(if provided (children params) && given (markdown params) then
   Notion.ret (mkResponse [bothGivenMessage] (Some true))
 else if negb (provided (children params)) && negb (given (markdown params)) then
   Notion.ret (mkResponse [noneGivenMessage] (Some true))
 else
   '(blocks, fromMarkdown, conversionWarnings) <-
     (if given (markdown params) then
        blocks <- convert fuel (match markdown params with Some m => m | None => [] end) ;;
        conversionWarnings <- readWarnings ;;
        Notion.ret (blocks, true, conversionWarnings)
      else
        Notion.ret (match children params with Some c => c | None => [] end,
                    false, [])) ;;
   if NOTION_BLOCK_LIMIT <? length blocks then
     batchResult <- appendBlocksInBatches (blockId params) blocks ;;
     Notion.ret
       (mkResponse
          [join newline (batchMessages (blockId params) batchResult fromMarkdown
                                       conversionWarnings)]
          (Some (negb (success batchResult))))
   else
     response <- childrenAppend (blockId params) blocks ;;
     Notion.ret
       (mkResponse
          [ join newline (standardMessages (blockId params) blocks fromMarkdown
                                           conversionWarnings);
            js "Response: " ++ stringifyResponse response ]
          None))
(fun error => Notion.ret (handleNotionError error)).

End WithClient.

End AppendTool.

(** The blocks [appendBlockChildren] goes on with, and the warnings it
    reports: those of the conversion when Markdown is given, the
    children as they are otherwise. *)
Definition resolvesTo `{JsHost} `{Tokenizer} `{Client}
           (fuel : nat) (params : AppendTool.AppendBlockChildrenParams) (w : World)
           (blocks : list NotionBlock) (ws : Warnings) : Prop :=
  (AppendTool.children params = Some blocks
   /\ AppendTool.given (AppendTool.markdown params) = false
   /\ ws = conversionWarnings w)
  \/ (exists md,
         AppendTool.children params = None
         /\ AppendTool.markdown params = Some md
         /\ truthy md = true
         /\ markdownToBlocks fuel md (conversionWarnings w) = Some (blocks, ws)).

(** Exactly one of the two sources is given. *)
Definition oneSource (params : AppendTool.AppendBlockChildrenParams) : Prop :=
  xorb (AppendTool.provided (AppendTool.children params))
       (AppendTool.given (AppendTool.markdown params)) = true.

(** Fuel that covers the walk over the tokens of the Markdown, when
    Markdown is given. *)
Definition coversMarkdown `{Tokenizer} (fuel : nat)
           (params : AppendTool.AppendBlockChildrenParams) : Prop :=
  match AppendTool.markdown params with
  | Some md => 2 * tokenSizes (lex md) + 1 <= fuel
  | None => True
  end.

Definition plainError (e : jsstring) : AppendTool.ToolResponse :=
  AppendTool.mkResponse [e] (Some true).

(** ** retrieveBlockChildren.ts and searchPage.ts *)

Module ReadTools.

(** The number [parseInt] makes of the configured character limit. *)
Inductive ParsedInt :=
| NaN
| Int (value : Z)
| Infinite (negative : bool).

Record TitleText := mkTitleText { plain_text : option jsstring }.

(** A property value of a page as far as the title is read from it. *)
Record PageProperty := mkProperty {
propertyType : option jsstring;
title : option (list TitleText)
}.

Record SearchResult := mkSearchResult {
object : jsstring;
resultId : jsstring;
url : jsstring;
properties : option (list PageProperty)
}.

Record SearchResponse := mkSearchResponse {
searchResults : list SearchResult;
searchHasMore : bool;
searchNextCursor : option jsstring
}.

Record SearchResultWithMarkdown := mkWithMarkdown {
withId : jsstring;
withUrl : jsstring;
withTitle : option jsstring;
withMarkdown : jsstring;
withMarkdownTruncated : bool
}.

Record SearchSummary := mkSummary {
total : nat;
has_more : bool;
next_cursor : option jsstring;
results : list SearchResultWithMarkdown
}.

Record MarkdownResponseEnvelope := mkEnvelope {
block_id : jsstring;
blocks : list NotionBlock;
markdown : jsstring;
markdown_truncated : bool
}.

Record RetrieveBlockChildrenParams := mkRetrieveParams {
blockId : jsstring;
useMarkdownParam : option bool;
start_cursor : option jsstring;
page_size : option nat
}.

Record ToolResponse := mkResponse {
content : list jsstring;
isError : option bool
}.

(** What the read tools take from outside: the Markdown service, the
  search and the paged listing of the client, the configuration read
  from the environment, [JSON.stringify] on the values they print
  and the error handler. *)
Class Reader `{Client} := {
Sort : Type;
blockToMarkdown : jsstring -> Remote -> (jsstring + Error) * Remote;
pageToMarkdown : jsstring -> Remote -> (jsstring + Error) * Remote;
search : jsstring -> option Sort -> option jsstring -> nat -> Remote
         -> (SearchResponse + Error) * Remote;
listChildren : jsstring -> option jsstring -> option nat -> Remote
               -> (ListResponse + Error) * Remote;
getMarkdownDefaultForRead : bool;
getMarkdownMaxChars : ParsedInt;
stringifyEnvelope : MarkdownResponseEnvelope -> jsstring;
stringifySummary : SearchSummary -> jsstring;
stringifyChildren : list ChildBlock -> jsstring;
stringifySearchResponse : SearchResponse -> jsstring;
handleNotionError : Error -> ToolResponse
}.

(** [text.length > maxChars]; a comparison with [NaN] is false. *)
Definition longerThan (text : jsstring) (maxChars : ParsedInt) : bool :=
match maxChars with
| Int m => (m <? Z.of_nat (length text))%Z
| NaN => false
| Infinite negative => negative
end.

(** [text.slice(0, maxChars)]: a negative end counts from the end of
  the text, [NaN] counts as zero. *)
Definition sliceTo (text : jsstring) (maxChars : ParsedInt) : jsstring :=
match maxChars with
| Int m =>
    if (m <? 0)%Z
    then firstn (Z.to_nat (Z.max 0 (Z.of_nat (length text) + m))) text
    else firstn (Z.to_nat m) text
| NaN => []
| Infinite negative => if negative then [] else text
end.

Definition truncationMark : jsstring := [10%N; 10%N] ++ js "...(truncated)".

Definition conversionFailedMark : jsstring :=
js "[Error: Could not convert page to Markdown]".

Section WithReader.
Context `{Reader}.

Record SearchPagesParams := mkSearchParams {
query : option jsstring;
sort : option Sort;
searchMarkdownParam : option bool;
searchStartCursor : option jsstring;
searchPageSize : option nat
}.

(** A call of the Markdown service or of the search: it changes the
remote state; the log, which records the block calls the tools
make themselves, stays as it is. *)
Definition remoteCall {A} (op : Remote -> (A + Error) * Remote) : M A :=
fun w =>
let '(outcome, remote') := op (remote w) in
(settle outcome, mkWorld (conversionWarnings w) remote' (calls w)).

(** [notion.blocks.children.list] with the page size the caller gave,
if any. *)
Definition childrenListOf (block_id : jsstring) (start_cursor : option jsstring)
       (page_size : option nat) : M ListResponse :=
fun w =>
let '(outcome, remote') := listChildren block_id start_cursor page_size (remote w) in
(settle outcome,
 mkWorld (conversionWarnings w) remote'
         (calls w ++ [ListCall block_id start_cursor])).

Definition retrieveBlockChildren (params : RetrieveBlockChildrenParams)
: M ToolResponse :=
tryCatch
(let useMarkdown :=
   match useMarkdownParam params with
   | Some m => m
   | None => getMarkdownDefaultForRead
   end in
 if useMarkdown then
   md <- remoteCall (blockToMarkdown (blockId params)) ;;
   let maxChars := getMarkdownMaxChars in
   let '(markdown, truncated) :=
     if longerThan md maxChars
     then (sliceTo md maxChars ++ truncationMark, true)
     else (md, false) in
   let envelope := mkEnvelope (blockId params) [] markdown truncated in
   Notion.ret (mkResponse [stringifyEnvelope envelope] None)
 else
   response <- childrenListOf (blockId params) (start_cursor params)
                              (page_size params) ;;
   Notion.ret
     (mkResponse
        [ js "Successfully retrieved " ++ ofNat (length (Notion.results response))
             ++ js " children of block " ++ blockId params;
          js "Has more: "
             ++ (if Notion.has_more response then js "Yes" else js "No")
             ++ (match Notion.next_cursor response with
                 | Some c =>
                     if Notion.has_more response && truthy c
                     then js ", Next cursor: " ++ c else []
                 | None => []
                 end);
          stringifyChildren (Notion.results response) ]
        None))
(fun error => Notion.ret (handleNotionError error)).

(** The title of a page: the first property of type "title", and of
it the text of the first title item, when it is not empty. *)
Definition pageTitle (page : SearchResult) : option jsstring :=
match properties page with
| Some props =>
  match find (fun prop => match propertyType prop with
                          | Some t => JS.eqb t (js "title")
                          | None => false
                          end) props with
  | Some titleProp =>
      match title titleProp with
      | Some (first :: _) =>
          match plain_text first with
          | Some t => if truthy t then Some t else None
          | None => None
          end
      | _ => None
      end
  | None => None
  end
| None => None
end.

(** The [for] of [searchPages] over the results, in Markdown mode. *)
Fixpoint searchLoop (found : list SearchResult) (maxChars : ParsedInt)
     (results : list SearchResultWithMarkdown)
: M (list SearchResultWithMarkdown) :=
match found with
| [] => Notion.ret results
| result :: rest =>
  if negb (JS.eqb (object result) (js "page")) then
    searchLoop rest maxChars results
  else
    let page := result in
    let title := pageTitle page in
    results <-
      tryCatch
        (markdown <- remoteCall (pageToMarkdown (resultId page)) ;;
         let '(markdown, truncated) :=
           if longerThan markdown maxChars
           then (sliceTo markdown maxChars ++ truncationMark, true)
           else (markdown, false) in
         Notion.ret (results ++ [mkWithMarkdown (resultId page) (url page) title
                                                markdown truncated]))
        (fun _ =>
           Notion.ret (results ++ [mkWithMarkdown (resultId page) (url page) title
                                                  conversionFailedMark false])) ;;
    searchLoop rest maxChars results
end.

Definition searchPages (params : SearchPagesParams) : M ToolResponse :=
tryCatch
(response <- remoteCall
               (search (match query params with Some q => q | None => [] end)
                       (sort params)
                       (searchStartCursor params)
                       (match searchPageSize params with
                        | Some 0 | None => 10
                        | Some n => n
                        end)) ;;
 let useMarkdown :=
   match searchMarkdownParam params with
   | Some m => m
   | None => getMarkdownDefaultForRead
   end in
 if useMarkdown then
   let maxChars := getMarkdownMaxChars in
   results <- searchLoop (searchResults response) maxChars [] ;;
   Notion.ret
     (mkResponse
        [stringifySummary (mkSummary (length (searchResults response))
                                     (searchHasMore response)
                                     (searchNextCursor response) results)]
        None)
 else
   let resultsText := stringifySearchResponse response in
   Notion.ret
     (mkResponse
        [ js "Found " ++ ofNat (length (searchResults response)) ++ js " results. "
             ++ (if searchHasMore response then js "More results available." else [])
             ++ [10%N; 10%N] ++ resultsText ]
        None))
(fun error => Notion.ret (handleNotionError error)).

End WithReader.

End ReadTools.

(** ** Reading the read tools *)

(** Whether a read tool answers in Markdown: the parameter when it is
    given, the configured default otherwise. *)
Definition wantsMarkdown `{ReadTools.Reader} (requested : option bool) : bool :=
  match requested with
  | Some m => m
  | None => ReadTools.getMarkdownDefaultForRead
  end.

Definition isPage (result : ReadTools.SearchResult) : bool :=
  JS.eqb (ReadTools.object result) (js "page").

(** The entry of a page whose conversion failed, or of one that gave
    the Markdown [md], cut at the limit or whole. *)
Definition entryUnder (maxChars : ReadTools.ParsedInt)
           (entry : ReadTools.SearchResultWithMarkdown) : Prop :=
  (ReadTools.withMarkdown entry = ReadTools.conversionFailedMark
   /\ ReadTools.withMarkdownTruncated entry = false)
  \/ exists md,
      (ReadTools.longerThan md maxChars = true
       /\ ReadTools.withMarkdown entry
          = ReadTools.sliceTo md maxChars ++ ReadTools.truncationMark
       /\ ReadTools.withMarkdownTruncated entry = true)
      \/ (ReadTools.longerThan md maxChars = false
          /\ ReadTools.withMarkdown entry = md
          /\ ReadTools.withMarkdownTruncated entry = false).

(** What is handed out of the Markdown [md] under a limit: all of it,
    or its beginning followed by the truncation mark. *)
Definition cutAt (maxChars : ReadTools.ParsedInt) (md : jsstring) : jsstring :=
  if ReadTools.longerThan md maxChars
  then ReadTools.sliceTo md maxChars ++ ReadTools.truncationMark
  else md.

(** The entries of a sequence of pages: the pages are converted one
    after the other, each on the remote state the one before left; a
    page that converts gives an entry with its Markdown under the
    limit, flagged when it was cut, a page that does not gives an
    entry with the failure mark, unflagged. *)
Inductive answersPages `{ReadTools.Reader} (maxChars : ReadTools.ParsedInt)
  : list ReadTools.SearchResult -> Remote
    -> list ReadTools.SearchResultWithMarkdown -> Remote -> Prop :=
| answers_none (r : Remote) : answersPages maxChars [] r [] r
| answers_converted (page : ReadTools.SearchResult) (rest : list ReadTools.SearchResult)
                    (r r1 r' : Remote) (md : jsstring)
                    (entries : list ReadTools.SearchResultWithMarkdown) :
    ReadTools.pageToMarkdown (ReadTools.resultId page) r = (inl md, r1) ->
    answersPages maxChars rest r1 entries r' ->
    answersPages maxChars (page :: rest) r
      (ReadTools.mkWithMarkdown (ReadTools.resultId page) (ReadTools.url page)
                                (ReadTools.pageTitle page) (cutAt maxChars md)
                                (ReadTools.longerThan md maxChars)
       :: entries) r'
| answers_failed (page : ReadTools.SearchResult) (rest : list ReadTools.SearchResult)
                 (r r1 r' : Remote) (e : Error)
                 (entries : list ReadTools.SearchResultWithMarkdown) :
    ReadTools.pageToMarkdown (ReadTools.resultId page) r = (inr e, r1) ->
    answersPages maxChars rest r1 entries r' ->
    answersPages maxChars (page :: rest) r
      (ReadTools.mkWithMarkdown (ReadTools.resultId page) (ReadTools.url page)
                                (ReadTools.pageTitle page)
                                ReadTools.conversionFailedMark false
       :: entries) r'.

(** The query of [searchPages] as it goes to the service. *)
Definition searchOf `{ReadTools.Reader} (params : ReadTools.SearchPagesParams)
  : Remote -> (ReadTools.SearchResponse + Error) * Remote :=
  ReadTools.search
    (match ReadTools.query params with Some q => q | None => [] end)
    (ReadTools.sort params)
    (ReadTools.searchStartCursor params)
    (match ReadTools.searchPageSize params with
     | Some 0 | None => 10
     | Some n => n
     end).

(** A service with three search results, a page that converts, a
    database and a page that does not convert, and one block that
    converts; the limit is a parameter. *)
Definition threeResults : ReadTools.SearchResponse :=
  ReadTools.mkSearchResponse
    [ ReadTools.mkSearchResult (js "page") (js "p1") (js "https://notion.so/p1")
        (Some [ReadTools.mkProperty (Some (js "title"))
                 (Some [ReadTools.mkTitleText (Some (js "First"))])]);
      ReadTools.mkSearchResult (js "database") (js "d1") (js "https://notion.so/d1") None;
      ReadTools.mkSearchResult (js "page") (js "p2") (js "https://notion.so/p2") None ]
    false None.

Definition fixedReader (limit : ReadTools.ParsedInt)
  : @ReadTools.Reader Fixtures.acceptingClient :=
  {| ReadTools.Sort := unit;
     ReadTools.blockToMarkdown := fun id (r : @Remote Fixtures.acceptingClient) =>
       if JS.eqb id (js "b1") then (inl (js "0123456789"), r)
       else (@inr jsstring (@Error Fixtures.acceptingClient) (js "no such block"), r);
     ReadTools.pageToMarkdown := fun id (r : @Remote Fixtures.acceptingClient) =>
       if JS.eqb id (js "p1") then (inl (js "0123456789"), r)
       else (@inr jsstring (@Error Fixtures.acceptingClient) (js "conversion failed"), r);
     ReadTools.search := fun q _ _ _ (r : @Remote Fixtures.acceptingClient) =>
       if JS.eqb q (js "down") then (@inr ReadTools.SearchResponse (@Error Fixtures.acceptingClient) (js "search failed"), r)
       else (inl threeResults, r);
     ReadTools.listChildren := fun _ _ _ (r : @Remote Fixtures.acceptingClient) => (@inl ListResponse (@Error Fixtures.acceptingClient) Fixtures.twoOldChildren, r);
     ReadTools.getMarkdownDefaultForRead := false;
     ReadTools.getMarkdownMaxChars := limit;
     ReadTools.stringifyEnvelope := fun e => ReadTools.markdown e;
     ReadTools.stringifySummary := fun s =>
       concat (List.map ReadTools.withMarkdown (ReadTools.results s));
     ReadTools.stringifyChildren := fun _ => [];
     ReadTools.stringifySearchResponse := fun _ => [];
     ReadTools.handleNotionError := fun e : @Error Fixtures.acceptingClient => ReadTools.mkResponse [e : jsstring] (Some true) |}.

Definition readWorld : @World Fixtures.acceptingClient :=
  @mkWorld Fixtures.acceptingClient [] tt [].
(** ** Properties of the text normaliser *)

Section SplitText.

Lemma findSplitIndex_bounds remaining searchStart k splitIndex :
  0 < splitIndex ->
  0 < findSplitIndex remaining searchStart k splitIndex
  /\ findSplitIndex remaining searchStart k splitIndex <= Nat.max k splitIndex.
Proof.
  intros Hpos. induction k as [|i IH]; cbn [findSplitIndex].
  - lia.
  - destruct IH as [IHlo IHhi].
    destruct (searchStart <=? i); [|lia].
    destruct (isBreak (nth_error remaining i)); lia.
Qed.

Lemma splitLoop_spec maxLength :
  0 < maxLength ->
  forall fuel remaining chunks,
    length remaining < fuel ->
    exists tail,
      splitLoop fuel remaining maxLength chunks = Some (chunks ++ tail)
      /\ concat tail = remaining
      /\ Forall (fun c => length c <= maxLength) tail.
Proof.
  intros Hmax. induction fuel as [|fuel IH]; intros remaining chunks Hfuel.
  - lia.
  - cbn [splitLoop]. cbv zeta. destruct (0 <? length remaining) eqn:Hlen.
    + destruct (length remaining <=? maxLength) eqn:Hle.
      * exists [remaining]. repeat split.
        -- simpl. now rewrite app_nil_r.
        -- constructor; [now apply Nat.leb_le | constructor].
      * apply Nat.leb_gt in Hle.
        set (searchStart := Nat.max 0 (maxLength - 100)).
        set (splitIndex := findSplitIndex remaining searchStart maxLength maxLength).
        destruct (findSplitIndex_bounds remaining searchStart maxLength Hmax) as [Hlo Hhi].
        fold splitIndex in Hlo, Hhi.
        destruct (IH (substringFrom remaining splitIndex)
                     (chunks ++ [substring remaining 0 splitIndex])) as (tail & Heq & Hcat & Hall).
        { unfold substringFrom. rewrite length_skipn. lia. }
        exists (substring remaining 0 splitIndex :: tail). repeat split.
        -- rewrite Heq. now rewrite <- app_assoc.
        -- simpl. rewrite Hcat. unfold substring, substringFrom.
           rewrite Nat.sub_0_r. simpl. apply firstn_skipn.
        -- constructor; [|exact Hall].
           unfold substring. rewrite length_firstn. simpl. lia.
    + apply Nat.ltb_ge in Hlen.
      exists []. repeat split.
      * now rewrite app_nil_r.
      * destruct remaining; [reflexivity | simpl in Hlen; lia].
      * constructor.
Qed.

End SplitText.

(** C3.  For every string [t] and every positive [maxLength],
    [splitTextIntoChunks] returns chunks whose concatenation is [t],
    each of length at most [maxLength]; a text no longer than
    [maxLength] comes back as the single chunk [[t]]. *)
Theorem splitTextIntoChunks_partition (t : jsstring) (maxLength : nat) :
  0 < maxLength ->
  exists chunks,
    splitTextIntoChunks t (Some maxLength) = Some chunks
    /\ concat chunks = t
    /\ Forall (fun c => length c <= maxLength) chunks
    /\ (length t <= maxLength -> chunks = [t]).
Proof.
  intros Hmax. unfold splitTextIntoChunks.
  destruct (length t <=? maxLength) eqn:Hle.
  - exists [t]. apply Nat.leb_le in Hle. repeat split.
    + simpl. now rewrite app_nil_r.
    + constructor; [exact Hle | constructor].
  - apply Nat.leb_gt in Hle.
    destruct (@splitLoop_spec maxLength Hmax (S (length t)) t []) as (tail & Heq & Hcat & Hall).
    { lia. }
    exists tail. simpl in Heq. repeat split; try assumption. lia.
Qed.

Lemma splitTextIntoChunks_partition_witness :
  0 < 4 /\
  exists chunks,
    splitTextIntoChunks (js "one two three") (Some 4) = Some chunks
    /\ concat chunks = js "one two three"
    /\ Forall (fun c => length c <= 4) chunks
    /\ (length (js "one two three") <= 4 -> chunks = [js "one two three"]).
Proof.
  split; [lia | apply splitTextIntoChunks_partition; lia].
Defined.

(** With the default limit the chunking always returns, so the
    unreachable branch of [createPlainTextRichText] is never taken. *)
Lemma splitTextIntoChunks_default_total (t : jsstring) :
  exists chunks,
    splitTextIntoChunks t None = Some chunks /\ concat chunks = t.
Proof.
  unfold splitTextIntoChunks.
  destruct (length t <=? MAX_RICH_TEXT_LENGTH).
  - exists [t]. split; [reflexivity | apply app_nil_r].
  - destruct (@splitLoop_spec MAX_RICH_TEXT_LENGTH (Nat.lt_0_succ _) (S (length t)) t [])
      as (tail & Heq & Hcat & _); [lia|].
    exists tail. split; [exact Heq | exact Hcat].
Qed.

(** ** Properties of the block factory *)

Section CodeBlocks.
Context `{JsHost}.

Lemma orElse_nil (s : jsstring) : orElse s [] = s.
Proof. now destruct s. Qed.

Lemma createCodeBlock_unfold (code : jsstring) (language : option jsstring) :
  createCodeBlock code language =
  Code [mkRichText code None]
       match languageMapGet (normalizedTag language) with
       | Some v => v
       | None =>
           if truthy (normalizedTag language)
           then StringValue (normalizedTag language)
           else StringValue (js "plain text")
       end.
Proof.
  unfold createCodeBlock, normalizedTag.
  destruct language as [l|]; [rewrite orElse_nil|]; reflexivity.
Qed.

End CodeBlocks.

(** C8, as the code has it.  The content of a code block is the text
    given, untouched.  The language is read from the lower-cased tag:
    an alias of the table gives its target, an absent or empty tag
    gives "plain text", and any other tag that is not a member name of
    [Object.prototype] is kept as it is, lower-cased. *)
Theorem createCodeBlock_language `{JsHost} (code : jsstring) (language : option jsstring) :
  exists notionLanguage,
    createCodeBlock code language = Code [mkRichText code None] notionLanguage
    /\ (forall alias target,
           In (alias, target)
              [ (js "js", js "javascript"); (js "ts", js "typescript");
                (js "py", js "python"); (js "rb", js "ruby");
                (js "sh", js "shell"); (js "bash", js "shell");
                (js "zsh", js "shell"); (js "yml", js "yaml");
                (js "md", js "markdown") ] ->
           normalizedTag language = alias ->
           notionLanguage = StringValue target)
    /\ (normalizedTag language = [] -> notionLanguage = StringValue (js "plain text"))
    /\ (language = None -> notionLanguage = StringValue (js "plain text"))
    /\ (normalizedTag language <> [] ->
        ownProperty languageMap (normalizedTag language) = None ->
        ~ In (normalizedTag language) objectPrototypeKeys ->
        notionLanguage = StringValue (normalizedTag language)).
Proof.
  eexists. split; [apply createCodeBlock_unfold|].
  repeat split.
  - intros alias target Hin Htag. rewrite Htag.
    simpl in Hin.
    repeat (destruct Hin as [Hin|Hin];
            [injection Hin as <- <-; reflexivity|]).
    contradiction.
  - intros ->. reflexivity.
  - intros ->. reflexivity.
  - intros Hne Hown Hproto.
    unfold languageMapGet. rewrite Hown.
    destruct (existsb (JS.eqb (normalizedTag language)) objectPrototypeKeys) eqn:Hex.
    + exfalso. apply Hproto.
      apply existsb_exists in Hex. destruct Hex as (k & Hk & Heq).
      assert (Hkeq : forall a b, JS.eqb a b = true -> a = b).
      { induction a as [|x a IH]; destruct b as [|y b]; simpl; try discriminate; auto.
        intros Hb. apply andb_prop in Hb. destruct Hb as [Hx Hab].
        apply N.eqb_eq in Hx. f_equal; auto. }
      apply Hkeq in Heq. now subst k.
    + destruct (normalizedTag language); [contradiction | reflexivity].
Qed.

Lemma createCodeBlock_language_witness :
  createCodeBlock (H := Fixtures.plainHost) (js "let x = 1;") (Some (js "JS"))
  = Code [mkRichText (js "let x = 1;") None] (StringValue (js "javascript")).
Proof.
  destruct (createCodeBlock_language (H := Fixtures.plainHost)
              (js "let x = 1;") (Some (js "JS")))
    as (lang & Heq & Halias & _).
  rewrite Heq. f_equal.
  apply (Halias (js "js") (js "javascript")).
  - left. reflexivity.
  - reflexivity.
Defined.

(** C8 as stated fails: a tag outside the table is not turned into
    "plain text", it is passed on. *)
Lemma createCodeBlock_unrecognized_tag_kept :
  ownProperty languageMap (js "rust") = None
  /\ createCodeBlock (H := Fixtures.plainHost) (js "fn main() {}") (Some (js "rust"))
     = Code [mkRichText (js "fn main() {}") None] (StringValue (js "rust"))
  /\ StringValue (js "rust") <> StringValue (js "plain text").
Proof.
  repeat split; try reflexivity. discriminate.
Qed.

(** ** Properties of the token walker: paragraphs *)

Section Paragraphs.
Context `{JsHost}.

Lemma paragraphLoop_no_images (inline : list Token) :
  forallb (fun t => negb (JS.eqb (type t) (js "image"))) inline = true ->
  forall blocks textParts,
    paragraphLoop inline blocks textParts
    = (blocks, textParts ++ List.map inlineText inline).
Proof.
  induction inline as [|t rest IH]; intros Hno blocks textParts.
  - simpl. now rewrite app_nil_r.
  - cbn [forallb] in Hno. apply andb_prop in Hno. destruct Hno as [Ht Hrest].
    cbn [paragraphLoop].
    destruct (JS.eqb (type t) (js "image")); [discriminate|].
    rewrite (IH Hrest). cbn [List.map]. now rewrite <- app_assoc.
Qed.

End Paragraphs.

(** C7, as the code has it.  A paragraph token without image
    sub-tokens always yields exactly one paragraph block: from the
    trimmed text of its inline sub-tokens (or from its own text when it
    has none) when that text is not blank, and from the token's own
    text, possibly empty, when it is blank. *)
Theorem processParagraph_one_block `{JsHost} (token : Token) :
  noImages token = true ->
  exists text,
    processParagraph token = [createParagraphBlock text]
    /\ blockType (createParagraphBlock text) = js "paragraph"
    /\ text = (if truthy (trim (paragraphText token))
               then match tokens token with
                    | Some _ => trim (paragraphText token)
                    | None => MarkdownToBlocks.text token
                    end
               else orElse (MarkdownToBlocks.text token) []).
Proof.
  unfold noImages, processParagraph, paragraphText.
  destruct (tokens token) as [inline|]; intros Hno.
  - rewrite (paragraphLoop_no_images _ Hno). cbn [app].
    destruct (List.map inlineText inline) as [|p ps] eqn:Hparts.
    + cbn. eexists. repeat split.
    + cbn [length Nat.ltb Nat.leb].
      destruct (truthy (trim (join [] (p :: ps)))); cbn; eexists; repeat split.
  - destruct (truthy (trim (text token))); cbn; eexists; repeat split.
Qed.

Lemma processParagraph_one_block_witness :
  noImages (Fixtures.paragraphToken "Hello" (Some [Fixtures.token "text" "Hello"])) = true
  /\ processParagraph (H := Fixtures.plainHost)
       (Fixtures.paragraphToken "Hello" (Some [Fixtures.token "text" "Hello"]))
     = [Paragraph [mkRichText (js "Hello") None]].
Proof.
  split; [reflexivity|].
  destruct (processParagraph_one_block (H := Fixtures.plainHost)
              (Fixtures.paragraphToken "Hello" (Some [Fixtures.token "text" "Hello"]))
              eq_refl) as (text & Heq & _ & Htext).
  rewrite Heq, Htext. reflexivity.
Defined.

(** C7 as stated fails on a paragraph whose text is blank, here a
    single no-break space: one block comes out, not none. *)
Lemma processParagraph_blank_gives_one_block :
  noImages blankParagraph = true
  /\ trim (paragraphText blankParagraph) = []
  /\ processParagraph (H := Fixtures.plainHost) blankParagraph
     = [Paragraph [mkRichText [160%N] None]]
  /\ processParagraph (H := Fixtures.plainHost) blankParagraph <> [].
Proof.
  repeat split; try reflexivity. discriminate.
Qed.

(** ** Properties of the token walker: the warnings *)

(** C9 fails on blank input.  The call returns before the line that
    resets the warnings, so whatever an earlier call left is still
    there, and [getConversionWarnings] hands it out again. *)
Theorem markdownToBlocks_blank_keeps_stale_warnings
        `{JsHost} `{Tokenizer} (fuel : nat) (markdown : jsstring) (stale : Warnings) :
  trim markdown = [] ->
  exists blocks conversionWarnings,
    markdownToBlocks fuel markdown stale = Some (blocks, conversionWarnings)
    /\ blocks = []
    /\ getConversionWarnings conversionWarnings = stale.
Proof.
  intros Hblank. exists [], stale.
  split; [|split; reflexivity].
  unfold markdownToBlocks. rewrite Hblank.
  cbn [JS.eqb]. now rewrite orb_true_r.
Qed.

Lemma markdownToBlocks_blank_keeps_stale_warnings_witness :
  trim (js "   ") = []
  /\ markdownToBlocks (H := Fixtures.plainHost) (H0 := Fixtures.defLexer)
                      1 (js "   ") [js "Unknown token type: def"]
     = Some ([], [js "Unknown token type: def"]).
Proof.
  split; [reflexivity|].
  destruct (markdownToBlocks_blank_keeps_stale_warnings
              (H := Fixtures.plainHost) (H0 := Fixtures.defLexer)
              1 (js "   ") [js "Unknown token type: def"] eq_refl)
    as (blocks & ws & Hrun & Hblocks & Hws).
  rewrite Hrun, Hblocks. unfold getConversionWarnings in Hws. now rewrite Hws.
Defined.

(** On input that is not blank the earlier warnings play no part. *)
Lemma markdownToBlocks_not_blank_resets `{JsHost} `{Tokenizer}
      (fuel : nat) (markdown : jsstring) (stale : Warnings) :
  trim markdown <> [] ->
  markdownToBlocks fuel markdown stale = markdownToBlocks fuel markdown [].
Proof.
  intros Hnb. unfold markdownToBlocks.
  destruct markdown as [|c m]; [now destruct Hnb|].
  cbn [truthy negb orb].
  destruct (trim (c :: m)) as [|x t] eqn:Htrim; [now destruct Hnb|].
  reflexivity.
Qed.

(** Two calls in a row: the first meets a token it does not know and
    records a warning, the second is given blanks and leaves that
    warning in place. *)
Lemma stale_warning_after_blank_call :
  markdownToBlocks (H := Fixtures.plainHost) (H0 := Fixtures.defLexer)
                   1 (js "[a]: http://x") []
  = Some ([], [js "Unknown token type: def"])
  /\ markdownToBlocks (H := Fixtures.plainHost) (H0 := Fixtures.defLexer)
                      1 (js "   ") [js "Unknown token type: def"]
     = Some ([], [js "Unknown token type: def"]).
Proof. split; reflexivity. Qed.

(** ** Properties of the token walker: checklist items *)

(** C6, as the code has it.  A checklist item becomes a [to_do] block
    made from the text of the item, without a [children] field, and
    nothing else: no sibling blocks come with it and no warning is
    recorded, whatever sub-tokens the item has.  A nested list under a
    checklist item is not walked. *)
Theorem processListItem_task `{JsHost}
        (fuel : nat) (item : Token) (ordered : bool) (depth : nat) (ws : Warnings) :
  task item = true ->
  0 < fuel ->
  exists block,
    processListItem fuel item ordered depth ws = Some (block, [], ws)
    /\ block = ToDo (createPlainTextRichText (Some (text item))) (checkedOrFalse item)
    /\ blockType block = js "to_do"
    /\ childrenField block = None.
Proof.
  intros Htask Hfuel. destruct fuel as [|fuel']; [lia|].
  cbn [processListItem]. rewrite Htask. rewrite orElse_nil.
  eexists. repeat split.
Qed.

Lemma processListItem_task_witness :
  task nestedTaskItem = true /\ 0 < 1 /\
  processListItem (H := Fixtures.plainHost) 1 nestedTaskItem false 1 []
  = Some (ToDo [mkRichText (js "Task" ++ [10%N] ++ js "- Nested") None] false, [], []).
Proof.
  split; [reflexivity | split; [lia|]].
  destruct (processListItem_task (H := Fixtures.plainHost) (fuel := 1) nestedTaskItem
              false 1 [] eq_refl (Nat.lt_0_succ 0)) as (block & Heq & Hblock & _).
  rewrite Heq, Hblock. reflexivity.
Defined.

(** C6 as stated fails: the nested list of a checklist item yields no
    block of its own, where the same item without its checkbox yields
    one for every nested item. *)
Lemma nested_list_of_task_not_walked :
  snd (scanItemTokens (match tokens nestedTaskItem with Some t => t | None => [] end) [] None)
  = Some (Fixtures.listToken false
            [Fixtures.listItem "Nested" [Fixtures.token "text" "Nested"]])
  /\ processListItems (H := Fixtures.plainHost) 9 [nestedTaskItem] false 3 []
     = Some ([ToDo [mkRichText (js "Task" ++ [10%N] ++ js "- Nested") None] false], [])
  /\ processListItems (H := Fixtures.plainHost) 9 [nestedPlainItem] false 3 []
     = Some ([ BulletedListItem [mkRichText (js "Task") None] None;
               BulletedListItem [mkRichText (js "Nested") None] None ],
             [js "Nested list at depth 4 exceeds maximum depth of 3. Flattening to siblings."]).
Proof. repeat split. Qed.

(** ** Properties of the token walker: lists *)

Lemma tokenSize_unfold (t : Token) :
  tokenSize t
  = S (tokenSizes (items t)
       + match tokens t with Some l => tokenSizes l | None => 0 end).
Proof.
  assert (Hfix : forall l,
             (fix sizes (l : list Token) : nat :=
                match l with [] => 0 | x :: r => tokenSize x + sizes r end) l
             = tokenSizes l).
  { induction l as [|x r IH]; [reflexivity|].
    rewrite IH. reflexivity. }
  destruct t as [ty rw tx d lg hr tl od its tk ck toks].
  cbn [tokenSize items tokens]. rewrite Hfix.
  destruct toks as [l|]; [now rewrite Hfix | reflexivity].
Qed.

Lemma tokenSizes_In (t : Token) (l : list Token) :
  In t l -> tokenSize t <= tokenSizes l.
Proof.
  unfold tokenSizes, list_sum. induction l as [|x r IH]; intros Hin; [contradiction|].
  cbn [List.map fold_right]. destruct Hin as [->|Hin]; [lia|].
  specialize (IH Hin). lia.
Qed.

Lemma scanItemTokens_nested_In (toks : list Token) :
  forall textContent acc nestedList,
    snd (scanItemTokens toks textContent acc) = Some nestedList ->
    acc = Some nestedList \/ In nestedList toks.
Proof.
  induction toks as [|t rest IH]; intros textContent acc nestedList Hscan.
  - left. exact Hscan.
  - cbn [scanItemTokens] in Hscan.
    destruct (JS.eqb (type t) (js "list")).
    + apply IH in Hscan. destruct Hscan as [Hacc|Hin].
      * injection Hacc as ->. right. now left.
      * right. now right.
    + destruct (JS.eqb (type t) (js "text") || JS.eqb (type t) (js "paragraph"));
        apply IH in Hscan; destruct Hscan as [Hacc|Hin]; auto; right; now right.
Qed.


Section ListLoops.
Context `{JsHost}.

Variable step : Token -> Warnings -> option (NotionBlock * list NotionBlock * Warnings).

Lemma push_flattened (blocks flattenedItems : list NotionBlock) :
  (if 0 <? length flattenedItems then blocks ++ flattenedItems else blocks)
  = blocks ++ flattenedItems.
Proof.
  destruct flattenedItems; cbn; [now rewrite app_nil_r | reflexivity].
Qed.

Lemma listItemsLoop_acc (items : list Token) :
  forall blocks ws,
    listItemsLoop step items blocks ws
    = match listItemsLoop step items [] ws with
      | Some (bs, ws') => Some (blocks ++ bs, ws')
      | None => None
      end.
Proof.
  induction items as [|item rest IH]; intros blocks ws.
  - cbn. now rewrite app_nil_r.
  - cbn [listItemsLoop].
    destruct (step item ws) as [[[b fl] ws']|]; [|reflexivity].
    rewrite !push_flattened.
    rewrite (IH ((blocks ++ [b]) ++ fl)), (IH (([] ++ [b]) ++ fl)).
    destruct (listItemsLoop step rest [] ws') as [[bs ws'']|]; [|reflexivity].
    cbn [app]. now rewrite <- !app_assoc.
Qed.

Lemma listItemsLoop_cons (item : Token) (rest : list Token) (ws : Warnings) :
  listItemsLoop step (item :: rest) [] ws
  = match step item ws with
    | Some (b, fl, ws') =>
        match listItemsLoop step rest [] ws' with
        | Some (bs, ws'') => Some (b :: fl ++ bs, ws'')
        | None => None
        end
    | None => None
    end.
Proof.
  cbn [listItemsLoop].
  destruct (step item ws) as [[[b fl] ws']|]; [|reflexivity].
  rewrite push_flattened, listItemsLoop_acc. reflexivity.
Qed.


Lemma listItemsLoop_total (items : list Token) :
  (forall item, In item items -> forall ws, exists r, step item ws = Some r) ->
  forall ws, exists r, listItemsLoop step items [] ws = Some r.
Proof.
  induction items as [|item rest IH]; intros Hstep ws.
  - eexists. reflexivity.
  - rewrite listItemsLoop_cons.
    destruct (Hstep item (or_introl eq_refl) ws) as ([[b fl] ws'] & ->).
    destruct (IH (fun it Hin => Hstep it (or_intror Hin)) ws') as ([bs ws''] & ->).
    eexists. reflexivity.
Qed.



End ListLoops.

Section ListWalk.
Context `{JsHost}.

Lemma processListItems_step (fuel : nat) (items : list Token) (ordered : bool)
      (depth : nat) (ws : Warnings) :
  processListItems (S fuel) items ordered depth ws
  = listItemsLoop (fun item => processListItem fuel item ordered depth) items [] ws.
Proof. reflexivity. Qed.

(** The size of a nested list bounds the fuel its items need. *)
Lemma nested_list_fuel (item nestedList : Token) (toks : list Token) (fuel : nat) :
  tokens item = Some toks ->
  In nestedList toks ->
  2 * tokenSize item <= S fuel ->
  2 * tokenSizes (items nestedList) + 1 <= fuel.
Proof.
  intros Htoks Hin Hfuel.
  pose proof (tokenSizes_In _ _ Hin) as Hle.
  rewrite (tokenSize_unfold item), Htoks in Hfuel.
  rewrite (tokenSize_unfold nestedList) in Hle. lia.
Qed.

(** With fuel in proportion to the size of the tokens the walk over
    a list always comes back. *)
Lemma list_walk_total (fuel : nat) :
  (forall items ordered depth ws,
      2 * tokenSizes items + 1 <= fuel ->
      exists r, processListItems fuel items ordered depth ws = Some r)
  /\ (forall item ordered depth ws,
         2 * tokenSize item <= fuel ->
         exists r, processListItem fuel item ordered depth ws = Some r).
Proof.
  induction fuel as [|fuel [IHitems IHitem]].
  - split.
    + intros; lia.
    + intros item ? ? ? Hfuel. rewrite tokenSize_unfold in Hfuel. lia.
  - split.
    + intros items ordered depth ws Hfuel. rewrite processListItems_step.
      apply listItemsLoop_total. intros item Hin ws0.
      apply IHitem. pose proof (tokenSizes_In _ _ Hin). lia.
    + intros item ordered depth ws Hfuel. cbn [processListItem].
      destruct (task item); [eexists; reflexivity|].
      destruct (tokens item) as [toks|] eqn:Htoks; [|eexists; reflexivity].
      destruct (scanItemTokens toks [] None) as [textContent [nestedList|]] eqn:Hscan;
        [|eexists; reflexivity].
      assert (Hin : In nestedList toks).
      { destruct (scanItemTokens_nested_In toks [] None (nestedList := nestedList))
          as [Hacc|Hin]; [now rewrite Hscan | discriminate | exact Hin]. }
      pose proof (@nested_list_fuel item nestedList toks fuel Htoks Hin Hfuel) as Hnested.
      destruct (depth <? MAX_NESTING_DEPTH).
      * destruct (IHitems (items nestedList) (MarkdownToBlocks.ordered nestedList)
                          (depth + 1) ws Hnested) as ([children ws'] & ->).
        eexists; reflexivity.
      * destruct (IHitems (items nestedList) (MarkdownToBlocks.ordered nestedList)
                          depth (ws ++ [nestingWarning depth]) Hnested)
          as ([flattened ws'] & ->).
        eexists; reflexivity.
Qed.


End ListWalk.

Lemma JS_eqb_eq (a b : jsstring) : JS.eqb a b = true <-> a = b.
Proof.
  split.
  - revert b. induction a as [|x a IH]; destruct b as [|y b]; cbn; try discriminate; auto.
    intros Hb. apply andb_prop in Hb. destruct Hb as [Hx Hab].
    apply N.eqb_eq in Hx. f_equal; auto.
  - intros <-. induction a as [|x a IH]; cbn; [reflexivity|]. now rewrite N.eqb_refl.
Qed.

Lemma JS_eqb_neq (a b : jsstring) : a <> b -> JS.eqb a b = false.
Proof.
  intros Hne. destruct (JS.eqb a b) eqn:Heq; [|reflexivity].
  apply JS_eqb_eq in Heq. now destruct Hne.
Qed.

Lemma scanItemTokens_reads (toks : list Token) :
  forall (textContent : jsstring) (nestedList : option Token),
    scanItemTokens toks textContent nestedList
    = (textContent ++ textsOf toks,
       match lastList toks with Some l => Some l | None => nestedList end).
Proof.
  unfold textsOf.
  induction toks as [|t rest IH]; intros textContent nestedList.
  - cbn. now rewrite app_nil_r.
  - cbn [scanItemTokens lastList filter]. unfold isListToken, isTextToken.
    destruct (JS.eqb (type t) (js "list")) eqn:Hlist.
    + assert (Htext : JS.eqb (type t) (js "text") || JS.eqb (type t) (js "paragraph")
                      = false).
      { apply JS_eqb_eq in Hlist. rewrite Hlist. reflexivity. }
      rewrite Htext, IH. now destruct (lastList rest).
    + destruct (JS.eqb (type t) (js "text") || JS.eqb (type t) (js "paragraph")).
      * rewrite IH. cbn [List.map concat]. rewrite app_assoc.
        now destruct (lastList rest).
      * rewrite IH. now destruct (lastList rest).
Qed.





(** ** Properties of the batch engine *)

Section Chunking.
Variable T : Type.

Lemma chunkLoop_spec (blocks : list T) (chunkSize : nat) :
  0 < chunkSize ->
  forall fuel i chunks,
    length blocks - i < fuel ->
    exists tail,
      chunkLoop fuel blocks chunkSize i chunks = Some (chunks ++ tail)
      /\ concat tail = skipn i blocks
      /\ Forall (fun chunk => length chunk <= chunkSize) tail
      /\ length blocks - i <= chunkSize * length tail
      /\ chunkSize * length tail < length blocks - i + chunkSize.
Proof.
  intros Hsize. induction fuel as [|fuel IH]; intros i chunks Hfuel; [lia|].
  cbn [chunkLoop]. destruct (i <? length blocks) eqn:Hi.
  - apply Nat.ltb_lt in Hi.
    destruct (IH (i + chunkSize) (chunks ++ [slice blocks i (i + chunkSize)]))
      as (tail & Heq & Hcat & Hall & Hlo & Hhi); [lia|].
    assert (Hslice : slice blocks i (i + chunkSize) = firstn chunkSize (skipn i blocks)).
    { unfold slice. f_equal. lia. }
    exists (slice blocks i (i + chunkSize) :: tail). repeat split.
    + rewrite Heq. now rewrite <- app_assoc.
    + cbn [concat]. rewrite Hcat, Hslice.
      replace (i + chunkSize) with (chunkSize + i) by lia.
      rewrite <- skipn_skipn. apply firstn_skipn.
    + constructor; [|exact Hall].
      rewrite Hslice, length_firstn. lia.
    + cbn [length]. nia.
    + cbn [length].
      assert (Hk : length tail = 0 \/ chunkSize <= chunkSize * length tail)
        by (destruct (length tail); [left; reflexivity | right; nia]).
      destruct Hk as [Hk|Hk]; [rewrite Hk in *|]; nia.
  - apply Nat.ltb_ge in Hi. exists []. repeat split.
    + now rewrite app_nil_r.
    + cbn. symmetry. now apply skipn_all2.
    + constructor.
    + cbn. lia.
    + cbn. lia.
Qed.

Lemma chunkBlocks_spec (blocks : list T) (chunkSize : nat) :
  0 < chunkSize ->
  exists chunks,
    chunkBlocks blocks (Some chunkSize) = Some chunks
    /\ concat chunks = blocks
    /\ Forall (fun chunk => length chunk <= chunkSize) chunks
    /\ length blocks <= chunkSize * length chunks
    /\ (0 < length blocks -> chunkSize * length chunks < length blocks + chunkSize).
Proof.
  intros Hsize. unfold chunkBlocks.
  destruct (length blocks =? 0) eqn:Hlen.
  - apply Nat.eqb_eq in Hlen. exists []. repeat split.
    + cbn. symmetry. now apply length_zero_iff_nil.
    + constructor.
    + cbn. lia.
    + lia.
  - destruct (@chunkLoop_spec blocks chunkSize Hsize (S (length blocks)) 0 [])
      as (tail & Heq & Hcat & Hall & Hlo & Hhi); [lia|].
    exists tail. cbn [app] in Heq. rewrite Nat.sub_0_r in *.
    repeat split; try assumption. intros _. exact Hhi.
Qed.

End Chunking.

Section BatchAppend.
Context `{Client}.

Lemma eqb_refl (s : jsstring) : JS.eqb s s = true.
Proof. induction s as [|c s IH]; cbn; [reflexivity|]. now rewrite N.eqb_refl. Qed.

(** What one run of the loop of [appendBlocksInBatches] does: it
    issues one append per chunk, in order, whatever the earlier ones
    answered, and sorts the outcomes into results and errors. *)
Lemma appendLoop_spec (blockId : jsstring) (chunks : list (list NotionBlock)) :
  forall i results errors successfulBatches w,
  exists new w',
    appendLoop blockId chunks i results errors successfulBatches w
    = (Returned (results ++ responsesOf new,
                 errors ++ failuresFrom i new,
                 successfulBatches + length (responsesOf new)), w')
    /\ calls w' = calls w ++ new
    /\ conversionWarnings w' = conversionWarnings w
    /\ flat_map appendedChildren new = chunks
    /\ forallb (appendsTo blockId) new = true
    /\ length new = length chunks.
Proof.
  induction chunks as [|chunk rest IH]; intros i results errors successfulBatches w.
  - exists [], w. cbn. rewrite !app_nil_r, Nat.add_0_r. repeat split.
  - cbn [appendLoop]. unfold Notion.bind at 1. unfold tryCatch, Notion.bind at 1.
    unfold childrenAppend.
    destruct (blocks_children_append blockId chunk (remote w)) as [[response|error] remote'];
      cbn [settle Notion.ret].
    + match goal with
      | |- context [appendLoop blockId rest ?j ?rs ?es ?n ?w1] =>
          destruct (IH j rs es n w1) as (new & w' & Hrun & Hcalls & Hws & Hflat & Hall & Hlen)
      end.
      exists (AppendCall blockId chunk (inl response) :: new), w'.
      cbn [responsesOf failuresFrom flat_map appendedChildren app forallb appendsTo length].
      rewrite Hrun, Hcalls, Hws, Hflat, Hall, Hlen, eqb_refl. cbn [calls conversionWarnings].
      rewrite <- !app_assoc. cbn [app].
      replace (i + 1) with (S i) by lia.
      replace (successfulBatches + 1 + length (responsesOf new))
        with (successfulBatches + S (length (responsesOf new))) by lia.
      repeat split.
    + match goal with
      | |- context [appendLoop blockId rest ?j ?rs ?es ?n ?w1] =>
          destruct (IH j rs es n w1) as (new & w' & Hrun & Hcalls & Hws & Hflat & Hall & Hlen)
      end.
      exists (AppendCall blockId chunk (inr error) :: new), w'.
      cbn [responsesOf failuresFrom flat_map appendedChildren app forallb appendsTo length].
      rewrite Hrun, Hcalls, Hws, Hflat, Hall, Hlen, eqb_refl. cbn [calls conversionWarnings].
      rewrite <- !app_assoc. cbn [app].
      replace (i + 1) with (S i) by lia.
      repeat split.
Qed.

Lemma failuresFrom_none (cs : list Call) :
  forall i, length (failuresFrom i cs) = 0 <-> existsb appendFailed cs = false.
Proof.
  induction cs as [|c rest IH]; intros i; [cbn; tauto|].
  destruct c as [b ch [r|e]|b cur|b o]; cbn [failuresFrom existsb appendFailed orb];
    try apply IH.
  cbn. split; [lia | discriminate].
Qed.

Lemma failuresFrom_length (cs : list Call) :
  forall i, length (failuresFrom i cs) + length (responsesOf cs)
            = length (filter isAppend cs).
Proof.
  induction cs as [|c rest IH]; intros i; [reflexivity|].
  destruct c as [b ch [r|e]|b cur|b o];
    cbn [failuresFrom responsesOf filter isAppend length];
    specialize (IH (S i)); lia.
Qed.

(** The whole of [appendBlocksInBatches]: it always returns, and its
    result is read off the appends it issued. *)
Lemma appendBlocksInBatches_spec (blockId : jsstring) (blocks : list NotionBlock)
      (w : World) :
  exists result w' new chunks,
    appendBlocksInBatches blockId blocks w = (Returned result, w')
    /\ chunkBlocks blocks None = Some chunks
    /\ calls w' = calls w ++ new
    /\ conversionWarnings w' = conversionWarnings w
    /\ flat_map appendedChildren new = chunks
    /\ forallb (appendsTo blockId) new = true
    /\ result = mkBatchResult (length (failuresFrom 0 new) =? 0)
                              (length blocks) (length chunks)
                              (length (responsesOf new))
                              (responsesOf new) (failuresFrom 0 new)
    /\ length new = length chunks.
Proof.
  unfold appendBlocksInBatches.
  destruct (length blocks =? 0) eqn:Hlen.
  - apply Nat.eqb_eq in Hlen. apply length_zero_iff_nil in Hlen. subst blocks.
    exists (mkBatchResult true 0 0 0 [] []), w, [], [].
    cbn. rewrite app_nil_r. repeat split.
  - destruct (@chunkBlocks_spec NotionBlock blocks NOTION_BLOCK_LIMIT)
      as (chunks & Hchunks & _); [unfold NOTION_BLOCK_LIMIT; lia|].
    change (chunkBlocks blocks (Some NOTION_BLOCK_LIMIT))
      with (chunkBlocks blocks None) in Hchunks.
    rewrite Hchunks. unfold Notion.bind.
    destruct (appendLoop_spec blockId chunks 0 [] [] 0 w)
      as (new & w' & Hrun & Hcalls & Hws & Hflat & Hall & Hnew).
    rewrite Hrun. cbn [app Nat.add Notion.ret].
    eexists _, w', new, chunks. repeat split; assumption.
Qed.

End BatchAppend.

(** C2.  [appendBlocksInBatches] always returns a result.  It issues
    one append for every chunk of the list, in order, also after a
    failed one; every failed append is in [errors] with the index of
    its chunk and nothing else is; [success] holds exactly when no
    append failed; and on an empty list it answers at once, with all
    counters zero and without a call. *)
Theorem appendBlocksInBatches_reports_every_chunk `{Client}
        (blockId : jsstring) (blocks : list NotionBlock) (w : World) :
  exists result w' new chunks,
    appendBlocksInBatches blockId blocks w = (Returned result, w')
    /\ calls w' = calls w ++ new
    /\ chunkBlocks blocks None = Some chunks
    /\ flat_map appendedChildren new = chunks
    /\ length new = length chunks
    /\ forallb (appendsTo blockId) new = true
    /\ errors result = failuresFrom 0 new
    /\ (success result = true <-> existsb appendFailed new = false)
    /\ successfulBatches result + length (errors result) = length chunks
    /\ (blocks = [] ->
        result = mkBatchResult true 0 0 0 [] [] /\ w' = w).
Proof.
  destruct (appendBlocksInBatches_spec blockId blocks w)
    as (result & w' & new & chunks & Hrun & Hchunks & Hcalls & Hws & Hflat & Hall & Hres & Hlen).
  exists result, w', new, chunks.
  repeat match goal with |- _ /\ _ => split end; try assumption.
  - now subst result.
  - subst result. cbn [success]. rewrite Nat.eqb_eq. apply failuresFrom_none.
  - subst result. cbn [successfulBatches errors].
    pose proof (failuresFrom_length new 0) as Hcount.
    assert (Hfilter : filter isAppend new = new).
    { clear - Hall. induction new as [|c rest IH]; [reflexivity|].
      cbn [forallb] in Hall. apply andb_prop in Hall. destruct Hall as [Hc Hrest].
      destruct c; try discriminate. cbn. now rewrite IH. }
    rewrite Hfilter in Hcount. lia.
  - intros ->. cbn in Hrun. injection Hrun as <- <-. split; reflexivity.
Qed.

(** C4.  A list of [N > 0] blocks is cut, with chunk size 100, into
    [ceil(N/100)] chunks of at most 100 blocks each, whose sizes add up
    to [N] and whose concatenation is the list itself; and
    [appendBlocksInBatches] reports that number of chunks as
    [batchCount]. *)
Theorem chunkBlocks_partition `{Client} (blocks : list NotionBlock) :
  0 < length blocks ->
  exists chunks,
    chunkBlocks blocks None = Some chunks
    /\ chunkBlocks blocks (Some 100) = Some chunks
    /\ length chunks = (length blocks + 99) / 100
    /\ list_sum (List.map (@length NotionBlock) chunks) = length blocks
    /\ Forall (fun chunk => length chunk <= 100) chunks
    /\ concat chunks = blocks
    /\ forall blockId w,
        exists result w',
          appendBlocksInBatches blockId blocks w = (Returned result, w')
          /\ batchCount result = length chunks.
Proof.
  intros Hpos.
  destruct (@chunkBlocks_spec NotionBlock blocks 100) as (chunks & Heq & Hcat & Hall & Hlo & Hhi);
    [lia|].
  specialize (Hhi Hpos).
  exists chunks. repeat match goal with |- _ /\ _ => split end; try assumption.
  - apply Nat.div_unique with (r := length blocks + 99 - 100 * length chunks); lia.
  - rewrite <- Hcat. clear. induction chunks as [|c rest IH]; [reflexivity|].
    cbn [List.map list_sum fold_right concat]. rewrite length_app.
    unfold list_sum in IH. now rewrite IH.
  - intros blockId w.
    destruct (appendBlocksInBatches_spec blockId blocks w)
      as (result & w' & new & chunks' & Hrun & Hchunks & _ & _ & _ & _ & Hres & _).
    change (chunkBlocks blocks None) with (chunkBlocks blocks (Some 100)) in Hchunks.
    rewrite Heq in Hchunks. injection Hchunks as <-.
    exists result, w'. split; [exact Hrun | now subst result].
Qed.

Lemma chunkBlocks_partition_witness :
  0 < length (repeat Divider 250)
  /\ exists chunks,
      chunkBlocks (repeat Divider 250) None = Some chunks
      /\ length chunks = 3
      /\ concat chunks = repeat Divider 250.
Proof.
  split; [cbn; lia|].
  destruct (chunkBlocks_partition (H := Fixtures.acceptingClient) (repeat Divider 250))
    as (chunks & Heq & _ & Hlen & _ & _ & Hcat & _).
  { cbn. lia. }
  exists chunks. repeat split; [exact Heq | | exact Hcat].
  rewrite Hlen. reflexivity.
Defined.

(** ** Properties of the page rewrite *)

Section RewriteSteps.
Context `{JsHost} `{Tokenizer} `{Client}.

(** Fetching the child ids only ever lists. *)
Lemma fetchLoop_calls (fuel : nat) (blockId : jsstring) :
  forall cursor childIds w,
  exists new,
    calls (snd (fetchLoop fuel blockId cursor childIds w)) = calls w ++ new
    /\ forallb isList new = true
    /\ conversionWarnings (snd (fetchLoop fuel blockId cursor childIds w))
       = conversionWarnings w.
Proof.
  induction fuel as [|fuel IH]; intros cursor childIds w.
  - exists []. cbn. rewrite app_nil_r. repeat split.
  - cbn [fetchLoop]. unfold Notion.bind, childrenList.
    destruct (blocks_children_list blockId cursor 100 (remote w))
      as [[response|error] remote']; cbn [settle].
    + set (w1 := mkWorld _ _ _).
      assert (Hstop : exists new,
                 calls w1 = calls w ++ new /\ forallb isList new = true
                 /\ conversionWarnings w1 = conversionWarnings w).
      { exists [ListCall blockId cursor]. repeat split. }
      destruct (if has_more response then next_cursor response else None) as [c|];
        [|exact Hstop].
      destruct (truthy c); [|exact Hstop].
      match goal with
      | |- context [fetchLoop fuel blockId ?cur ?ids w1] =>
          destruct (IH cur ids w1) as (new & Hcalls & Hall & Hws)
      end.
      exists (ListCall blockId cursor :: new). rewrite Hcalls, Hws.
      subst w1. cbn [calls conversionWarnings forallb isList andb].
      rewrite <- app_assoc. repeat split. exact Hall.
    + exists [ListCall blockId cursor]. repeat split.
Qed.

(** Deleting by ids always returns and only ever deletes. *)
Lemma deleteLoop_spec (blockIds : list jsstring) :
  forall deletedCount errors w,
  exists r w' new,
    deleteLoop blockIds deletedCount errors w = (Returned r, w')
    /\ calls w' = calls w ++ new
    /\ forallb isDelete new = true
    /\ List.map (fun c => match c with DeleteCall b _ => b | _ => [] end) new = blockIds.
Proof.
  induction blockIds as [|blockId rest IH]; intros deletedCount errors w.
  - exists (deletedCount, errors), w, []. cbn. rewrite app_nil_r. repeat split.
  - cbn [deleteLoop]. unfold Notion.bind at 1. unfold tryCatch, Notion.bind at 1.
    unfold blockDelete.
    destruct (blocks_delete blockId (remote w)) as [[[]|error] remote'];
      cbn [settle Notion.ret];
      match goal with
      | |- context [deleteLoop rest ?n ?es ?w1] =>
          destruct (IH n es w1) as (r & w' & new & Hrun & Hcalls & Hall & Hids)
      end;
      exists r, w';
      [ exists (DeleteCall blockId (inl tt) :: new)
      | exists (DeleteCall blockId (inr error) :: new) ];
      rewrite Hrun, Hcalls; cbn [calls forallb isDelete andb List.map];
      rewrite <- app_assoc, Hids; repeat split; exact Hall.
Qed.

Lemma forallb_isAppend (blockId : jsstring) (new : list Call) :
  forallb (appendsTo blockId) new = true -> forallb isAppend new = true.
Proof.
  induction new as [|c rest IH]; [reflexivity|].
  cbn [forallb]. intros Hall. apply andb_prop in Hall. destruct Hall as [Hc Hrest].
  rewrite (IH Hrest). now destruct c.
Qed.

Lemma no_delete_among_lists (new : list Call) :
  forallb isList new = true -> filter isDelete new = [].
Proof.
  induction new as [|c rest IH]; [reflexivity|].
  cbn [forallb]. intros Hall. apply andb_prop in Hall. destruct Hall as [Hc Hrest].
  destruct c; try discriminate. cbn. now apply IH.
Qed.

Lemma no_delete_among_appends (new : list Call) :
  forallb isAppend new = true -> filter isDelete new = [] /\ filter isList new = [].
Proof.
  induction new as [|c rest IH]; [split; reflexivity|].
  cbn [forallb]. intros Hall. apply andb_prop in Hall. destruct Hall as [Hc Hrest].
  destruct c; try discriminate. cbn. now apply IH.
Qed.

End RewriteSteps.

(** C1.  Every run of [rewritePage] issues its calls in the order
    lists, appends, deletes, and issues a delete only when no append
    failed.  In particular, when [appendBlocksInBatches] comes back with
    [success = false], [rewritePage] returns the error result of the
    append failure and no delete call has been issued. *)
Theorem rewritePage_append_first `{JsHost} `{Tokenizer} `{Client}
        (handleNotionError : Error -> CallToolResult)
        (fuel : nat) (params : RewritePageParams) (w : World) :
  (exists completion w' lists appends deletes,
      rewritePage handleNotionError fuel params w = (completion, w')
      /\ calls w' = calls w ++ lists ++ appends ++ deletes
      /\ forallb isList lists = true
      /\ forallb (appendsTo (pageId params)) appends = true
      /\ forallb isDelete deletes = true
      /\ (deletes <> [] -> existsb appendFailed appends = false))
  /\ (forall blocks ws existingBlockIds w1 batchResult w2,
         markdownToBlocks fuel (markdown params) (conversionWarnings w) = Some (blocks, ws) ->
         blocks <> [] ->
         captureExistingBlockIds fuel params (mkWorld ws (remote w) (calls w))
         = (Returned existingBlockIds, w1) ->
         appendBlocksInBatches (pageId params) blocks w1 = (Returned batchResult, w2) ->
         success batchResult = false ->
         rewritePage handleNotionError fuel params w
         = (Returned (mkResult (appendFailureMessage (pageId params) batchResult) true), w2)
         /\ exists new, calls w2 = calls w ++ new /\ filter isDelete new = []).
Proof.
  split.
  - unfold rewritePage, tryCatch. unfold Notion.bind at 1. unfold convert.
    destruct (markdownToBlocks fuel (markdown params) (conversionWarnings w))
      as [[blocks ws]|].
    2:{ exists Diverged, w, [], [], []. cbn. rewrite app_nil_r.
        repeat split; congruence. }
    unfold Notion.bind at 1. unfold readWarnings.
    set (w0 := mkWorld ws (remote w) (calls w)).
    destruct (length blocks =? 0).
    { eexists _, w0, [], [], []. cbn. rewrite app_nil_r.
      repeat split; congruence. }
    unfold Notion.bind at 1.
    assert (Hcapture : exists cF w1 lists,
               (if match validateBeforeDelete params with Some v => v | None => true end
                then fetchAllChildBlockIds fuel (pageId params) else Notion.ret []) w0
               = (cF, w1)
               /\ calls w1 = calls w ++ lists /\ forallb isList lists = true).
    { destruct (match validateBeforeDelete params with Some v => v | None => true end).
      - destruct (fetchLoop_calls fuel (pageId params) None [] w0) as (lists & Hc & Hl & _).
        unfold fetchAllChildBlockIds.
        destruct (fetchLoop fuel (pageId params) None [] w0) as [cF w1].
        exists cF, w1, lists. repeat split; assumption.
      - exists (Returned []), w0, []. cbn. rewrite app_nil_r. repeat split. }
    destruct Hcapture as (cF & w1 & lists & -> & Hlists & Hall).
    destruct cF as [existingBlockIds|e|].
    2:{ eexists _, w1, lists, [], []. cbn. rewrite !app_nil_r.
        repeat split; try assumption; congruence. }
    2:{ eexists _, w1, lists, [], []. cbn. rewrite !app_nil_r.
        repeat split; try assumption; congruence. }
    unfold Notion.bind at 1.
    destruct (appendBlocksInBatches_spec (pageId params) blocks w1)
      as (batchResult & w2 & appends & chunks & -> & _ & Happends & _ & _ & Hto & Hres & _).
    destruct (success batchResult) eqn:Hsuccess; cbn [negb].
    2:{ eexists _, w2, lists, appends, []. cbn [Notion.ret].
        rewrite Happends, Hlists, app_nil_r, <- app_assoc.
        repeat split; try assumption; congruence. }
    assert (Hok : existsb appendFailed appends = false).
    { subst batchResult. cbn [success] in Hsuccess.
      apply Nat.eqb_eq in Hsuccess. now apply failuresFrom_none in Hsuccess. }
    unfold Notion.bind at 1.
    destruct (0 <? length existingBlockIds).
    + unfold deleteBlocksByIds.
      destruct (deleteLoop_spec existingBlockIds 0 [] w2)
        as ([deletedCount deleteErrors] & w3 & deletes & -> & Hdeletes & Hdel & _).
      eexists _, w3, lists, appends, deletes. cbn [Notion.ret].
      rewrite Hdeletes, Happends, Hlists, <- !app_assoc.
      repeat split; try assumption. intros _. exact Hok.
    + eexists _, w2, lists, appends, []. cbn [Notion.ret].
      rewrite Happends, Hlists, app_nil_r, <- app_assoc.
      repeat split; try assumption. intros _. exact Hok.
  - intros blocks ws existingBlockIds w1 batchResult w2 Hconvert Hblocks Hcapture
           Happend Hsuccess.
    split.
    + unfold rewritePage, tryCatch. unfold Notion.bind at 1. unfold convert.
      rewrite Hconvert. unfold Notion.bind at 1. unfold readWarnings.
      destruct blocks as [|b blocks']; [now destruct Hblocks|].
      cbn [length Nat.eqb]. unfold Notion.bind at 1.
      unfold captureExistingBlockIds, validateBeforeDeleteOrDefault in Hcapture.
      rewrite Hcapture. unfold Notion.bind at 1. rewrite Happend, Hsuccess.
      reflexivity.
    + unfold captureExistingBlockIds in Hcapture.
      assert (Hlists : exists lists,
                 calls w1 = calls w ++ lists /\ forallb isList lists = true).
      { destruct (validateBeforeDeleteOrDefault params).
        - destruct (fetchLoop_calls fuel (pageId params) None []
                                    (mkWorld ws (remote w) (calls w)))
            as (lists & Hc & Hl & _).
          unfold fetchAllChildBlockIds in Hcapture. rewrite Hcapture in Hc.
          exists lists. split; assumption.
        - injection Hcapture as _ <-. exists []. cbn. now rewrite app_nil_r. }
      destruct Hlists as (lists & Hlists & Hall).
      destruct (appendBlocksInBatches_spec (pageId params) blocks w1)
        as (r & w2' & appends & chunks & Hrun & _ & Happends & _ & _ & Hto & _).
      rewrite Happend in Hrun. injection Hrun as _ <-.
      exists (lists ++ appends). split.
      * rewrite Happends, Hlists. now rewrite app_assoc.
      * rewrite filter_app, (no_delete_among_lists _ Hall).
        now rewrite (proj1 (no_delete_among_appends _ (forallb_isAppend _ _ Hto))).
Qed.

Lemma rewritePage_append_first_witness :
  exists result w',
    rewritePage (H := Fixtures.plainHost) (H0 := Fixtures.paragraphLexer)
                (H1 := Fixtures.refusingClient) reportError 2 helloParams freshWorld
    = (Returned result, w')
    /\ isError result = true
    /\ calls w' = [ @ListCall Fixtures.refusingClient (js "page-1") None;
                    @AppendCall Fixtures.refusingClient (js "page-1")
                                [Paragraph [mkRichText (js "Hello") None]]
                                (inr (js "validation_error")) ].
Proof.
  pose proof (proj2 (rewritePage_append_first
                       (H := Fixtures.plainHost) (H0 := Fixtures.paragraphLexer)
                       (H1 := Fixtures.refusingClient) reportError 2 helloParams freshWorld))
    as Hthm.
  edestruct Hthm as [Hrun _].
  - reflexivity.
  - discriminate.
  - reflexivity.
  - reflexivity.
  - reflexivity.
  - eexists _, _. split; [exact Hrun|]. split; reflexivity.
Defined.

(** C10.  With [validateBeforeDelete] set to [false] a run of
    [rewritePage] issues appends to the page and nothing else: it lists
    no children, so it captures no ids, and it deletes nothing.  When
    the append succeeds in full the result reports
    "Deleted: 0 existing block(s)". *)
Theorem rewritePage_without_validation_only_appends `{JsHost} `{Tokenizer} `{Client}
        (handleNotionError : Error -> CallToolResult)
        (fuel : nat) (pageId markdown : jsstring) (w : World) :
  exists completion w' appends,
    rewritePage handleNotionError fuel (mkParams pageId markdown (Some false)) w
    = (completion, w')
    /\ calls w' = calls w ++ appends
    /\ forallb (appendsTo pageId) appends = true
    /\ filter isList appends = []
    /\ filter isDelete appends = []
    /\ (completion = Diverged
        \/ completion = Returned (mkResult emptyConversionMessage true)
        \/ (exists batchResult,
               success batchResult = false
               /\ completion
                  = Returned (mkResult (appendFailureMessage pageId batchResult) true))
        \/ (exists batchResult warnings,
               success batchResult = true
               /\ existsb appendFailed appends = false
               /\ completion
                  = Returned (mkResult (successMessage pageId batchResult 0 warnings [])
                                       false)
               /\ nth_error (successLines pageId batchResult 0 warnings []) 2
                  = Some (js "Deleted: 0 existing block(s)"))).
Proof.
  unfold rewritePage, tryCatch. unfold Notion.bind at 1. unfold convert.
  cbn [RewritePage.pageId RewritePage.markdown validateBeforeDelete].
  destruct (markdownToBlocks fuel markdown (conversionWarnings w)) as [[blocks ws]|].
  2:{ exists Diverged, w, []. cbn. rewrite app_nil_r. repeat split. now left. }
  unfold Notion.bind at 1. unfold readWarnings.
  set (w0 := mkWorld ws (remote w) (calls w)).
  destruct (length blocks =? 0).
  { eexists _, w0, []. cbn. rewrite app_nil_r. repeat split. right. now left. }
  unfold Notion.bind at 1. unfold Notion.ret at 1.
  unfold Notion.bind at 1.
  destruct (appendBlocksInBatches_spec pageId blocks w0)
    as (batchResult & w2 & appends & chunks & -> & _ & Happends & _ & _ & Hto & Hres & _).
  destruct (no_delete_among_appends _ (forallb_isAppend _ _ Hto)) as [Hnodelete Hnolist].
  destruct (success batchResult) eqn:Hsuccess; cbn [negb].
  - unfold Notion.bind at 1. cbn [length Nat.ltb Nat.leb Notion.ret].
    eexists _, w2, appends. rewrite Happends.
    repeat match goal with |- _ /\ _ => split end; try assumption; try reflexivity.
    right. right. right.
    exists batchResult, (getConversionWarnings ws).
    repeat match goal with |- _ /\ _ => split end; try assumption; try reflexivity.
    + subst batchResult. cbn [success] in Hsuccess.
      apply Nat.eqb_eq in Hsuccess. now apply failuresFrom_none in Hsuccess.
    + unfold successLines.
      destruct (0 <? length (getConversionWarnings ws)); reflexivity.
  - eexists _, w2, appends. rewrite Happends. cbn [Notion.ret].
    repeat match goal with |- _ /\ _ => split end; try assumption; try reflexivity.
    right. right. left. exists batchResult. split; [exact Hsuccess | reflexivity].
Qed.

(** ** The walker as a whole returns *)

Section TokenWalk.
Context `{JsHost}.

Lemma blockquoteLoop_total
      (step : Token -> Warnings -> option (list NotionBlock * Warnings))
      (inner : list Token) :
  (forall t, In t inner -> forall ws, exists r, step t ws = Some r) ->
  forall blocks ws, exists r, blockquoteLoop step inner blocks ws = Some r.
Proof.
  induction inner as [|t rest IH]; intros Hstep blocks ws.
  - eexists. reflexivity.
  - cbn [blockquoteLoop].
    destruct (JS.eqb (type t) (js "paragraph")).
    + apply IH. intros t' Hin. apply Hstep. now right.
    + destruct (Hstep t (or_introl eq_refl) ws) as ([processed ws'] & ->).
      apply IH. intros t' Hin. apply Hstep. now right.
Qed.

(** With fuel in proportion to the size of the token, the walk over
    it comes back. *)
Lemma token_walk_total (fuel : nat) :
  (forall token ws,
      2 * tokenSize token + 1 <= fuel ->
      exists r, processToken fuel token ws = Some r)
  /\ (forall token ws,
         2 * tokenSize token <= fuel ->
         exists r, processBlockquote fuel token ws = Some r).
Proof.
  induction fuel as [|fuel [IHtoken IHquote]].
  - split; intros token ws Hfuel; [lia|].
    rewrite tokenSize_unfold in Hfuel. lia.
  - split; intros token ws Hfuel.
    + cbn [processToken].
      repeat match goal with
             | |- exists r, (if ?b then _ else _) = Some r =>
                 destruct b eqn:?; try (eexists; reflexivity)
             end.
      * apply IHquote. lia.
      * unfold processList.
        apply (proj1 (list_walk_total fuel)).
        rewrite tokenSize_unfold in Hfuel. lia.
    + cbn [processBlockquote].
      destruct (tokens token) as [inner|] eqn:Hinner; [|eexists; reflexivity].
      apply blockquoteLoop_total. intros t Hin ws0. apply IHtoken.
      pose proof (tokenSizes_In _ _ Hin) as Hle.
      rewrite tokenSize_unfold, Hinner in Hfuel. lia.
Qed.

Context `{Tokenizer}.

Lemma topLevelLoop_total (fuel : nat) (toks : list Token) :
  2 * tokenSizes toks + 1 <= fuel ->
  forall blocks ws, exists r, topLevelLoop fuel toks blocks ws = Some r.
Proof.
  induction toks as [|t rest IH]; intros Hfuel blocks ws.
  - eexists. reflexivity.
  - cbn [topLevelLoop].
    unfold tokenSizes in *. cbn [List.map list_sum fold_right] in Hfuel.
    fold (list_sum (List.map tokenSize rest)) in Hfuel.
    destruct (proj1 (token_walk_total fuel) t ws) as ([processed ws'] & ->); [lia|].
    apply IH. lia.
Qed.

(** [markdownToBlocks] returns on every document once the fuel covers
    the tokens of the document. *)
Lemma markdownToBlocks_total (fuel : nat) (markdown : jsstring) (ws : Warnings) :
  2 * tokenSizes (lex markdown) + 1 <= fuel ->
  exists r, markdownToBlocks fuel markdown ws = Some r.
Proof.
  intros Hfuel. unfold markdownToBlocks.
  destruct (negb (truthy markdown) || JS.eqb (trim markdown) []);
    [eexists; reflexivity|].
  now apply topLevelLoop_total.
Qed.

(** The text of a block is the normalised text, whatever its
    length: the chunks of [createPlainTextRichText] lose nothing. *)
Lemma createPlainTextRichText_content (text : jsstring) :
  concat (List.map content (createPlainTextRichText (Some text)))
  = stripInlineMarkdown text.
Proof.
  unfold createPlainTextRichText.
  destruct (length (stripInlineMarkdown text) =? 0) eqn:Hlen.
  - apply Nat.eqb_eq in Hlen. apply length_zero_iff_nil in Hlen.
    now rewrite Hlen.
  - destruct (splitTextIntoChunks_default_total (stripInlineMarkdown text))
      as (chunks & -> & Hcat).
    rewrite List.map_map. cbn [content]. now rewrite List.map_id.
Qed.

End TokenWalk.

Lemma appendBlocksInBatches_reports_every_chunk_witness :
  exists result w',
    appendBlocksInBatches (H := Fixtures.refusingClient) (js "page-1")
                          (repeat Divider 150) freshWorld
    = (Returned result, w')
    /\ success result = false
    /\ List.map fst (errors result) = [0; 1]
    /\ length (calls w') = 2.
Proof.
  destruct (appendBlocksInBatches_reports_every_chunk (H := Fixtures.refusingClient)
              (js "page-1") (repeat Divider 150) freshWorld)
    as (result & w' & new & chunks & Hrun & Hcalls & Hchunks & Hflat & Hlen & Hto
        & Herrors & Hsuccess & Hcount & Hempty).
  exists result, w'. split; [exact Hrun|].
  vm_compute in Hrun. injection Hrun as <- <-.
  repeat split.
Defined.

Lemma rewritePage_without_validation_only_appends_witness :
  exists result w',
    rewritePage (H := Fixtures.plainHost) (H0 := Fixtures.paragraphLexer)
                (H1 := Fixtures.acceptingClient) reportError 2
                (mkParams (js "page-1") (js "Hello") (Some false))
                (@mkWorld Fixtures.acceptingClient [] tt [])
    = (Returned result, w')
    /\ isError result = false
    /\ calls w' = [ @AppendCall Fixtures.acceptingClient (js "page-1")
                                [Paragraph [mkRichText (js "Hello") None]] (inl tt) ].
Proof.
  destruct (rewritePage_without_validation_only_appends
              (H := Fixtures.plainHost) (H0 := Fixtures.paragraphLexer)
              (H1 := Fixtures.acceptingClient) reportError 2
              (js "page-1") (js "Hello") (@mkWorld Fixtures.acceptingClient [] tt []))
    as (completion & w' & appends & Hrun & _).
  vm_compute in Hrun. injection Hrun as <- <-.
  eexists _, _. split; [reflexivity|]. split; reflexivity.
Defined.

(** ** Further properties of the text normaliser *)

Lemma findSplitIndex_cut (remaining : jsstring) (searchStart maxLength : nat) :
  forall k,
    k <= maxLength ->
    (forall i, k <= i -> i < maxLength -> isBreak (nth_error remaining i) = false) ->
    let s := findSplitIndex remaining searchStart k maxLength in
    (searchStart < s /\ s <= maxLength
     /\ isBreak (nth_error remaining (s - 1)) = true)
    \/ (s = maxLength
        /\ forall i, searchStart <= i -> i < maxLength ->
                     isBreak (nth_error remaining i) = false).
Proof.
  induction k as [|i IH]; intros Hk Hnone; cbn [findSplitIndex].
  - right. split; [reflexivity|]. intros i Hlo Hhi. apply Hnone; lia.
  - destruct (searchStart <=? i) eqn:Hstart.
    + apply Nat.leb_le in Hstart.
      destruct (isBreak (nth_error remaining i)) eqn:Hbreak.
      * left. replace (i + 1 - 1) with i by lia. repeat split; try lia. exact Hbreak.
      * apply IH; [lia|]. intros j Hlo Hhi.
        destruct (Nat.eq_dec j i) as [->|Hne]; [exact Hbreak | apply Hnone; lia].
    + apply Nat.leb_gt in Hstart.
      right. split; [reflexivity|]. intros j Hlo Hhi. apply Hnone; lia.
Qed.

Lemma splitLoop_cuts (maxLength : nat) :
  0 < maxLength ->
  forall fuel remaining chunks,
    length remaining < fuel ->
    exists tail,
      splitLoop fuel remaining maxLength chunks = Some (chunks ++ tail)
      /\ (remaining <> [] -> tail <> [])
      /\ Forall (fun c => c <> []) tail
      /\ Forall (wellPlacedCut maxLength) (removelast tail).
Proof.
  intros Hmax. induction fuel as [|fuel IH]; intros remaining chunks Hfuel; [lia|].
  cbn [splitLoop]. cbv zeta. destruct (0 <? length remaining) eqn:Hlen.
  - apply Nat.ltb_lt in Hlen.
    destruct (length remaining <=? maxLength) eqn:Hle.
    + exists [remaining]. repeat split; try discriminate.
      * constructor; [|constructor]. intros ->. cbn in Hlen. lia.
      * constructor.
    + apply Nat.leb_gt in Hle.
      set (searchStart := Nat.max 0 (maxLength - 100)).
      pose proof (@findSplitIndex_cut remaining searchStart maxLength maxLength
                    (le_n _) (fun i Hlo Hhi => ltac:(lia))) as Hcut.
      cbv zeta in Hcut.
      set (splitIndex := findSplitIndex remaining searchStart maxLength maxLength) in *.
      assert (Hbounds : searchStart < splitIndex /\ splitIndex <= maxLength).
      { destruct Hcut as [(Hlo & Hhi & _)|(Heq & _)]; [lia|]. subst searchStart. lia. }
      destruct (IH (substringFrom remaining splitIndex)
                   (chunks ++ [substring remaining 0 splitIndex]))
        as (tail & Heq & Hne & Hall & Hcuts).
      { unfold substringFrom. rewrite length_skipn. lia. }
      assert (Htail : tail <> []).
      { apply Hne. unfold substringFrom. intros Hnil.
        apply (f_equal (@length codeunit)) in Hnil.
        rewrite length_skipn in Hnil. cbn in Hnil. lia. }
      assert (Hchunk : length (substring remaining 0 splitIndex) = splitIndex).
      { unfold substring. rewrite Nat.sub_0_r. cbn [skipn].
        rewrite length_firstn. lia. }
      assert (Hnth : forall i, i < splitIndex ->
                 nth_error (substring remaining 0 splitIndex) i = nth_error remaining i).
      { intros i Hi. unfold substring. rewrite Nat.sub_0_r. cbn [skipn].
        rewrite nth_error_firstn.
        destruct (Nat.ltb_spec i splitIndex); [reflexivity | lia]. }
      exists (substring remaining 0 splitIndex :: tail). repeat split.
      * rewrite Heq. now rewrite <- app_assoc.
      * discriminate.
      * constructor; [|exact Hall]. intros Hnil.
        rewrite Hnil in Hchunk. cbn in Hchunk. lia.
      * destruct tail as [|c tail']; [now destruct Htail|].
        change (removelast (substring remaining 0 splitIndex :: c :: tail'))
          with (substring remaining 0 splitIndex :: removelast (c :: tail')).
        constructor; [|exact Hcuts].
        unfold wellPlacedCut. rewrite Hchunk.
        subst searchStart. rewrite Nat.max_0_l in *.
        split; [lia|]. split; [lia|].
        destruct Hcut as [(Hlo & Hhi & Hbreak)|(Hfull & Hnone)].
        -- left. rewrite Hnth by lia. exact Hbreak.
        -- right. split; [exact Hfull|]. intros i Hlo Hhi.
           rewrite Hnth by lia. now apply Hnone.
  - apply Nat.ltb_ge in Hlen. exists []. repeat split.
    + now rewrite app_nil_r.
    + intros Hne. destruct remaining; [now destruct Hne | cbn in Hlen; lia].
    + constructor.
    + constructor.
Qed.

(** X1.  Where [splitTextIntoChunks] cuts a text that is longer than
    the limit, it cuts well: no chunk is empty, and every chunk but
    the last is longer than [maxLength - 100], not longer than
    [maxLength], and ends in a break character unless the last hundred
    code units before the limit hold none, in which case it is exactly
    [maxLength] long. *)
Theorem splitTextIntoChunks_cuts_at_breaks (t : jsstring) (maxLength : nat) :
  0 < maxLength ->
  maxLength < length t ->
  exists chunks,
    splitTextIntoChunks t (Some maxLength) = Some chunks
    /\ 2 <= length chunks
    /\ Forall (fun c => c <> []) chunks
    /\ Forall (wellPlacedCut maxLength) (removelast chunks).
Proof.
  intros Hmax Hlong. unfold splitTextIntoChunks.
  replace (length t <=? maxLength) with false by (symmetry; apply Nat.leb_gt; lia).
  destruct (@splitLoop_cuts maxLength Hmax (S (length t)) t [])
    as (tail & Heq & _ & Hall & Hcuts); [lia|].
  destruct (@splitLoop_spec maxLength Hmax (S (length t)) t [])
    as (tail' & Heq' & Hcat & Hlens); [lia|].
  rewrite Heq in Heq'. injection Heq' as <-.
  exists tail. cbn [app] in Heq. repeat split; try assumption.
  destruct tail as [|c1 [|c2 rest]]; cbn [length]; try lia.
  - cbn in Hcat. subst t. cbn in Hlong. lia.
  - cbn in Hcat. rewrite app_nil_r in Hcat. subst c1.
    inversion Hlens; subst. lia.
Qed.

Lemma splitTextIntoChunks_cuts_at_breaks_witness :
  0 < 8 /\ 8 < length (js "alpha beta gamma")
  /\ splitTextIntoChunks (js "alpha beta gamma") (Some 8)
     = Some [js "alpha "; js "beta "; js "gamma"].
Proof.
  split; [lia|]. split; [cbn; lia|].
  destruct (@splitTextIntoChunks_cuts_at_breaks (js "alpha beta gamma") 8)
    as (chunks & Heq & _); [lia | cbn; lia |].
  rewrite Heq. vm_compute in Heq. injection Heq as <-. reflexivity.
Defined.

Lemma splitLoop_zero_limit (fuel : nat) :
  forall remaining chunks,
    remaining <> [] -> splitLoop fuel remaining 0 chunks = None.
Proof.
  induction fuel as [|fuel IH]; intros remaining chunks Hne; [reflexivity|].
  cbn [splitLoop]. cbv zeta.
  destruct remaining as [|c rest]; [now destruct Hne|].
  cbn [length Nat.ltb Nat.leb findSplitIndex substringFrom skipn].
  apply IH. discriminate.
Qed.

(** X2.  With a limit of zero the loop of [splitTextIntoChunks] cuts
    off nothing at every turn: on a text that is not empty it never
    comes to an end, whatever the number of turns allowed; only the
    empty text is returned, as its own single chunk. *)
Theorem splitTextIntoChunks_zero_limit (t : jsstring) :
  (t <> [] ->
   splitTextIntoChunks t (Some 0) = None
   /\ forall fuel chunks, splitLoop fuel t 0 chunks = None)
  /\ splitTextIntoChunks [] (Some 0) = Some [[]].
Proof.
  split; [|reflexivity].
  intros Hne. split.
  - unfold splitTextIntoChunks. destruct t as [|c rest]; [now destruct Hne|].
    cbn [length Nat.leb]. now apply splitLoop_zero_limit.
  - intros fuel chunks. now apply splitLoop_zero_limit.
Qed.

Lemma splitTextIntoChunks_zero_limit_witness :
  js "a" <> [] /\ splitTextIntoChunks (js "a") (Some 0) = None.
Proof.
  split; [discriminate|].
  apply (proj1 (proj1 (splitTextIntoChunks_zero_limit (js "a"))
                      ltac:(discriminate))).
Defined.

(** X3.  The text runs that [createPlainTextRichText] makes of a string
    are never none: there is at least one run, every run holds at most
    2000 code units and no link, and the runs put together are the
    text after [stripInlineMarkdown], nothing lost and nothing added.
    Of [null] or [undefined] it makes no run at all. *)
Theorem createPlainTextRichText_runs `{JsHost} (text : jsstring) :
  createPlainTextRichText (Some text) <> []
  /\ Forall (fun run => length (content run) <= 2000 /\ link run = None)
            (createPlainTextRichText (Some text))
  /\ concat (List.map content (createPlainTextRichText (Some text)))
     = stripInlineMarkdown text
  /\ (stripInlineMarkdown text = [] ->
      createPlainTextRichText (Some text) = [mkRichText [] None])
  /\ createPlainTextRichText None = [].
Proof.
  unfold createPlainTextRichText.
  destruct (length (stripInlineMarkdown text) =? 0) eqn:Hlen.
  - apply Nat.eqb_eq in Hlen. apply length_zero_iff_nil in Hlen.
    repeat split; try discriminate.
    + constructor; [|constructor]. cbn. split; [lia | reflexivity].
    + now rewrite Hlen.
  - apply Nat.eqb_neq in Hlen.
    assert (Hsplit : exists chunks,
               splitTextIntoChunks (stripInlineMarkdown text) None = Some chunks
               /\ concat chunks = stripInlineMarkdown text
               /\ Forall (fun c => length c <= 2000) chunks).
    { unfold splitTextIntoChunks.
      destruct (length (stripInlineMarkdown text) <=? MAX_RICH_TEXT_LENGTH) eqn:Hle.
      - apply Nat.leb_le in Hle. eexists. split; [reflexivity|].
        split; [apply app_nil_r|]. constructor; [exact Hle | constructor].
      - destruct (@splitLoop_spec MAX_RICH_TEXT_LENGTH (Nat.lt_0_succ _)
                    (S (length (stripInlineMarkdown text))) (stripInlineMarkdown text) [])
          as (tail & Heq & Hcat & Hall); [lia|].
        exists tail. repeat split; assumption. }
    destruct Hsplit as (chunks & -> & Hcat & Hall).
    repeat split.
    + destruct chunks; [|discriminate]. cbn in Hcat.
      rewrite <- Hcat in Hlen. now destruct Hlen.
    + apply Forall_map. eapply Forall_impl; [|exact Hall].
      intros c Hc. cbn. split; [exact Hc | reflexivity].
    + rewrite List.map_map. cbn [content]. now rewrite List.map_id.
    + intros Hnil. rewrite Hnil in Hlen. now destruct Hlen.
Qed.

Lemma createPlainTextRichText_runs_witness :
  @stripInlineMarkdown Fixtures.plainHost [] = []
  /\ @createPlainTextRichText Fixtures.plainHost (Some []) = [mkRichText [] None].
Proof.
  split; [reflexivity|].
  destruct (@createPlainTextRichText_runs Fixtures.plainHost [])
    as (_ & _ & _ & Hempty & _).
  apply Hempty. reflexivity.
Defined.

(** ** Further properties of the token walker: nesting *)

Lemma blockHeight_children (rich_text : list NotionRichTextItem) (cs : list NotionBlock) :
  blockHeight (BulletedListItem rich_text (Some cs)) = S (maxHeight cs)
  /\ blockHeight (NumberedListItem rich_text (Some cs)) = S (maxHeight cs).
Proof.
  assert (Hfix : forall l,
             (fix heights (l : list NotionBlock) : nat :=
                match l with [] => 0 | c :: r => Nat.max (blockHeight c) (heights r) end) l
             = maxHeight l).
  { induction l as [|c r IH]; [reflexivity|]. cbn [maxHeight fold_right].
    rewrite IH. reflexivity. }
  split; cbn [blockHeight]; now rewrite Hfix.
Qed.

Lemma childrenNeverEmpty_children (rich_text : list NotionRichTextItem)
      (cs : list NotionBlock) :
  childrenNeverEmpty (BulletedListItem rich_text (Some cs))
  = (0 <? length cs) && forallb childrenNeverEmpty cs
  /\ childrenNeverEmpty (NumberedListItem rich_text (Some cs))
     = (0 <? length cs) && forallb childrenNeverEmpty cs.
Proof.
  assert (Hfix : forall l,
             (fix all (l : list NotionBlock) : bool :=
                match l with [] => true | c :: r => childrenNeverEmpty c && all r end) l
             = forallb childrenNeverEmpty l).
  { induction l as [|c r IH]; [reflexivity|]. cbn [forallb]. now rewrite IH. }
  split; cbn [childrenNeverEmpty]; now rewrite Hfix.
Qed.

Lemma maxHeight_bound (n : nat) (l : list NotionBlock) :
  Forall (fun b => blockHeight b <= n) l -> maxHeight l <= n.
Proof.
  induction 1 as [|b l Hb _ IH]; cbn [maxHeight fold_right]; [lia|].
  fold (maxHeight l). lia.
Qed.

Section Nesting.
Context `{JsHost}.

Lemma leaf_nestedWithin (depth : nat) (b : NotionBlock) :
  childrenField b = None -> nestedWithin depth b.
Proof.
  intros Hleaf. unfold nestedWithin.
  destruct b; cbn [childrenField] in Hleaf; try rewrite Hleaf;
    cbn [blockHeight childrenNeverEmpty]; split; try reflexivity; lia.
Qed.

Lemma listItem_nestedWithin (ordered : bool) (textContent : jsstring)
      (children : option (list NotionBlock)) (depth : nat) :
  depth < MAX_NESTING_DEPTH ->
  (forall cs, children = Some cs -> Forall (nestedWithin (depth + 1)) cs) ->
  nestedWithin depth
    (if ordered then createNumberedListItemBlock textContent children
     else createBulletedListItemBlock textContent children).
Proof.
  unfold MAX_NESTING_DEPTH. intros Hdepth Hcs.
  assert (Hgoal : forall rich_text,
             nestedWithin depth (BulletedListItem rich_text (attachChildren children))
             /\ nestedWithin depth (NumberedListItem rich_text (attachChildren children))).
  { intros rich_text. unfold attachChildren.
    destruct children as [cs|]; [|split; now apply leaf_nestedWithin].
    destruct (0 <? length cs) eqn:Hlen; [|split; now apply leaf_nestedWithin].
    specialize (Hcs cs eq_refl).
    destruct (blockHeight_children rich_text cs) as [Hb Hn].
    destruct (childrenNeverEmpty_children rich_text cs) as [Hcb Hcn].
    assert (Hmax : maxHeight cs <= Nat.max 1 (4 - (depth + 1))).
    { apply maxHeight_bound. eapply Forall_impl; [|exact Hcs].
      intros b Hbn. apply Hbn. }
    assert (Hall : forallb childrenNeverEmpty cs = true).
    { apply forallb_forall. intros b Hin.
      rewrite Forall_forall in Hcs. apply (Hcs b Hin). }
    unfold nestedWithin. rewrite Hb, Hn, Hcb, Hcn, Hlen, Hall.
    split; split; try reflexivity; lia. }
  destruct ordered; unfold createNumberedListItemBlock, createBulletedListItemBlock;
    apply Hgoal.
Qed.

Lemma listItemsLoop_Forall
      (step : Token -> Warnings -> option (NotionBlock * list NotionBlock * Warnings))
      (P : NotionBlock -> Prop) (items : list Token) :
  (forall item ws b fl ws', step item ws = Some (b, fl, ws') -> P b /\ Forall P fl) ->
  forall ws out ws',
    listItemsLoop step items [] ws = Some (out, ws') -> Forall P out.
Proof.
  intros Hstep. induction items as [|x rest IH]; intros ws out ws' Hloop.
  - cbn in Hloop. injection Hloop as <- _. constructor.
  - rewrite listItemsLoop_cons in Hloop.
    destruct (step x ws) as [[[b fl] w1]|] eqn:Hx; [|discriminate].
    destruct (listItemsLoop step rest [] w1) as [[bs w2]|] eqn:Hrest; [|discriminate].
    injection Hloop as <- _.
    destruct (Hstep _ _ _ _ _ Hx) as [Hb Hfl].
    constructor; [exact Hb|]. apply Forall_app. split; [exact Hfl|].
    eapply IH. exact Hrest.
Qed.

Lemma list_walk_nested (fuel : nat) :
  (forall items ordered depth ws out ws',
      processListItems fuel items ordered depth ws = Some (out, ws') ->
      Forall (nestedWithin depth) out)
  /\ (forall item ordered depth ws b fl ws',
         processListItem fuel item ordered depth ws = Some (b, fl, ws') ->
         nestedWithin depth b /\ Forall (nestedWithin depth) fl).
Proof.
  induction fuel as [|fuel [IHitems IHitem]].
  - split; intros; discriminate.
  - split.
    + intros items ordered depth ws out ws' Hrun.
      rewrite processListItems_step in Hrun.
      eapply listItemsLoop_Forall; [|exact Hrun].
      intros item w b fl w'. apply IHitem.
    + intros item ordered depth ws b fl ws' Hrun. cbn [processListItem] in Hrun.
      destruct (task item).
      { injection Hrun as <- <- _. split; [|constructor].
        now apply leaf_nestedWithin. }
      destruct (match tokens item with
                | Some toks => scanItemTokens toks [] None
                | None => (orElse (text item) [], None)
                end) as [textContent [nestedList|]].
      2:{ injection Hrun as <- <- _. split; [|constructor].
          apply leaf_nestedWithin. now destruct ordered. }
      destruct (depth <? MAX_NESTING_DEPTH) eqn:Hdepth.
      * apply Nat.ltb_lt in Hdepth.
        destruct (processListItems fuel (items nestedList) _ (depth + 1) ws)
          as [[children w1]|] eqn:Hnested; [|discriminate].
        injection Hrun as <- <- _. split; [|constructor].
        apply listItem_nestedWithin; [exact Hdepth|].
        intros cs Hcs. injection Hcs as <-. eapply IHitems. exact Hnested.
      * destruct (processListItems fuel (items nestedList) _ depth _)
          as [[flattened w1]|] eqn:Hnested; [|discriminate].
        injection Hrun as <- <- _. split.
        -- apply leaf_nestedWithin. now destruct ordered.
        -- eapply IHitems. exact Hnested.
Qed.

Lemma nestedWithin_wellNested (b : NotionBlock) :
  nestedWithin 1 b -> wellNested b.
Proof. intros [Hh Hc]. split; [cbn in Hh; unfold MAX_NESTING_DEPTH; lia | exact Hc]. Qed.

Lemma leaf_wellNested (b : NotionBlock) : childrenField b = None -> wellNested b.
Proof. intros Hleaf. apply nestedWithin_wellNested. now apply leaf_nestedWithin. Qed.

Lemma requote_wellNested (b : NotionBlock) : wellNested b -> wellNested (requote b).
Proof. intros Hb. destruct b; first [exact Hb | now apply leaf_wellNested]. Qed.

Lemma blockquoteLoop_wellNested
      (step : Token -> Warnings -> option (list NotionBlock * Warnings))
      (inner : list Token) :
  (forall t ws bs ws', step t ws = Some (bs, ws') -> Forall wellNested bs) ->
  forall blocks ws out ws',
    Forall wellNested blocks ->
    blockquoteLoop step inner blocks ws = Some (out, ws') ->
    Forall wellNested out.
Proof.
  intros Hstep. induction inner as [|t rest IH]; intros blocks ws out ws' Hblocks Hloop.
  - cbn in Hloop. injection Hloop as <- _. exact Hblocks.
  - cbn [blockquoteLoop] in Hloop.
    destruct (JS.eqb (type t) (js "paragraph")).
    + eapply IH; [|exact Hloop]. apply Forall_app. split; [exact Hblocks|].
      constructor; [|constructor]. now apply leaf_wellNested.
    + destruct (step t ws) as [[processed w1]|] eqn:Ht; [|discriminate].
      eapply IH; [|exact Hloop]. apply Forall_app. split; [exact Hblocks|].
      apply Forall_map. eapply Forall_impl; [|exact (Hstep _ _ _ _ Ht)].
      apply requote_wellNested.
Qed.

Lemma processParagraph_wellNested (token : Token) :
  Forall wellNested (processParagraph token).
Proof.
  assert (Himage : forall url caption, wellNested (createImageBlock url caption)).
  { intros url caption. apply leaf_wellNested. unfold createImageBlock.
    now destruct (negb (isValidURL url)). }
  assert (Hloop : forall inline blocks textParts,
             Forall wellNested blocks ->
             Forall wellNested (fst (paragraphLoop inline blocks textParts))).
  { induction inline as [|t rest IH]; intros blocks textParts Hblocks; [exact Hblocks|].
    cbn [paragraphLoop]. destruct (JS.eqb (type t) (js "image")).
    - apply IH. apply Forall_app. split; [|constructor; [apply Himage | constructor]].
      destruct (0 <? length textParts); [|exact Hblocks].
      apply Forall_app. split; [exact Hblocks|].
      constructor; [now apply leaf_wellNested | constructor].
    - now apply IH. }
  unfold processParagraph.
  match goal with
  | |- Forall _ (if 0 <? length ?bs then _ else _) =>
      assert (Hbs : Forall wellNested bs); [|destruct (0 <? length bs); [exact Hbs|]]
  end.
  - destruct (tokens token) as [inline|].
    + specialize (Hloop inline [] [] (Forall_nil _)).
      destruct (paragraphLoop inline [] []) as [blocks textParts]. cbn [fst] in Hloop.
      destruct (0 <? length textParts); [|exact Hloop].
      destruct (truthy (trim (join [] textParts))); [|exact Hloop].
      apply Forall_app. split; [exact Hloop|].
      constructor; [now apply leaf_wellNested | constructor].
    + destruct (truthy (trim (text token))); constructor;
        [now apply leaf_wellNested | constructor].
  - constructor; [now apply leaf_wellNested | constructor].
Qed.

Lemma token_walk_wellNested (fuel : nat) :
  (forall token ws bs ws',
      processToken fuel token ws = Some (bs, ws') -> Forall wellNested bs)
  /\ (forall token ws bs ws',
         processBlockquote fuel token ws = Some (bs, ws') -> Forall wellNested bs).
Proof.
  induction fuel as [|fuel [IHtoken IHquote]].
  - split; intros; discriminate.
  - split; intros token ws bs ws' Hrun.
    + cbn [processToken] in Hrun.
      repeat match type of Hrun with
             | (if ?b then _ else _) = Some _ => destruct b
             end;
        try (injection Hrun as <- _);
        try (constructor; [apply leaf_wellNested; try reflexivity | constructor]);
        try constructor.
      * unfold processHeading.
        destruct (depth token) as [|[|[|d]]]; reflexivity.
      * apply processParagraph_wellNested.
      * eapply IHquote. exact Hrun.
      * unfold processList in Hrun.
        apply (proj1 (list_walk_nested fuel)) in Hrun.
        eapply Forall_impl; [|exact Hrun]. apply nestedWithin_wellNested.
    + cbn [processBlockquote] in Hrun.
      destruct (tokens token) as [inner|].
      * eapply blockquoteLoop_wellNested; [exact IHtoken | constructor | exact Hrun].
      * injection Hrun as <- _.
        constructor; [now apply leaf_wellNested | constructor].
Qed.

Context `{Tokenizer}.

Lemma topLevelLoop_wellNested (fuel : nat) (toks : list Token) :
  forall blocks ws out ws',
    Forall wellNested blocks ->
    topLevelLoop fuel toks blocks ws = Some (out, ws') ->
    Forall wellNested out.
Proof.
  induction toks as [|t rest IH]; intros blocks ws out ws' Hblocks Hloop.
  - cbn in Hloop. injection Hloop as <- _. exact Hblocks.
  - cbn [topLevelLoop] in Hloop.
    destruct (processToken fuel t ws) as [[processed w1]|] eqn:Ht; [|discriminate].
    eapply IH; [|exact Hloop]. apply Forall_app. split; [exact Hblocks|].
    eapply (proj1 (token_walk_wellNested fuel)). exact Ht.
Qed.

End Nesting.

(** X4.  Whatever the document, the blocks [markdownToBlocks] returns
    respect the nesting the service allows: no block has more than
    three levels, and no block at any level carries an empty
    [children] array.  Lists nested deeper in the document and nested
    lists without items do not change that. *)
Theorem markdownToBlocks_well_nested `{JsHost} `{Tokenizer}
        (fuel : nat) (markdown : jsstring) (stale : Warnings) :
  2 * tokenSizes (lex markdown) + 1 <= fuel ->
  exists blocks ws,
    markdownToBlocks fuel markdown stale = Some (blocks, ws)
    /\ Forall (fun b => blockHeight b <= 3 /\ childrenNeverEmpty b = true) blocks.
Proof.
  intros Hfuel.
  destruct (markdownToBlocks_total markdown stale Hfuel) as ([blocks ws] & Hrun).
  exists blocks, ws. split; [exact Hrun|].
  unfold markdownToBlocks in Hrun.
  destruct (negb (truthy markdown) || JS.eqb (trim markdown) []).
  - injection Hrun as <- _. constructor.
  - assert (Hall : Forall wellNested blocks).
    { eapply topLevelLoop_wellNested; [|exact Hrun]. constructor. }
    eapply Forall_impl; [|exact Hall]. intros b Hb. exact Hb.
Qed.

Lemma markdownToBlocks_well_nested_witness :
  2 * tokenSizes (lex (Tokenizer := fourLevelLexer) (js "- L1")) + 1 <= 40
  /\ exists blocks ws,
      markdownToBlocks (H := Fixtures.plainHost) (H0 := fourLevelLexer) 40 (js "- L1") []
      = Some (blocks, ws)
      /\ List.map blockHeight blocks = [3].
Proof.
  split; [vm_compute; lia|].
  destruct (markdownToBlocks_well_nested (H := Fixtures.plainHost) (H0 := fourLevelLexer)
              (fuel := 40) (js "- L1") [])
    as (blocks & ws & Hrun & _); [vm_compute; lia|].
  exists blocks, ws. split; [exact Hrun|].
  vm_compute in Hrun. injection Hrun as <- _. reflexivity.
Defined.

(** ** Further properties of the token walker: warnings and order *)

Section WarningLog.
Context `{JsHost}.

Lemma appendsWarnings_pure {A} (a : A) :
  appendsWarnings (fun ws => Some (a, ws)).
Proof.
  intros ws a' ws' Hrun. injection Hrun as <- <-.
  exists []. split; [now rewrite app_nil_r|]. intros ws2. now rewrite app_nil_r.
Qed.

Lemma listItemsLoop_appendsWarnings
      (step : Token -> Warnings -> option (NotionBlock * list NotionBlock * Warnings))
      (items : list Token) :
  (forall item, appendsWarnings (step item)) ->
  forall blocks, appendsWarnings (listItemsLoop step items blocks).
Proof.
  intros Hstep. induction items as [|x rest IH]; intros blocks.
  - apply appendsWarnings_pure.
  - intros ws out ws' Hrun. cbn [listItemsLoop] in Hrun.
    destruct (step x ws) as [[[b fl] w1]|] eqn:Hx; [|discriminate].
    destruct (Hstep x _ _ _ Hx) as (e1 & -> & Hx2).
    destruct (IH _ _ _ _ Hrun) as (e2 & -> & Hrest2).
    exists (e1 ++ e2). split; [now rewrite app_assoc|].
    intros ws2. cbn [listItemsLoop]. rewrite Hx2, Hrest2. now rewrite app_assoc.
Qed.

Lemma blockquoteLoop_appendsWarnings
      (step : Token -> Warnings -> option (list NotionBlock * Warnings))
      (inner : list Token) :
  (forall t, appendsWarnings (step t)) ->
  forall blocks, appendsWarnings (blockquoteLoop step inner blocks).
Proof.
  intros Hstep. induction inner as [|t rest IH]; intros blocks.
  - apply appendsWarnings_pure.
  - intros ws out ws' Hrun. cbn [blockquoteLoop] in Hrun.
    destruct (JS.eqb (type t) (js "paragraph")) eqn:Hp.
    + destruct (IH _ _ _ _ Hrun) as (e & -> & Hrest2).
      exists e. split; [reflexivity|].
      intros ws2. cbn [blockquoteLoop]. rewrite Hp. apply Hrest2.
    + destruct (step t ws) as [[processed w1]|] eqn:Ht; [|discriminate].
      destruct (Hstep t _ _ _ Ht) as (e1 & -> & Ht2).
      destruct (IH _ _ _ _ Hrun) as (e2 & -> & Hrest2).
      exists (e1 ++ e2). split; [now rewrite app_assoc|].
      intros ws2. cbn [blockquoteLoop]. rewrite Hp, Ht2, Hrest2. now rewrite app_assoc.
Qed.

Lemma list_walk_appendsWarnings (fuel : nat) :
  (forall items ordered depth, appendsWarnings (processListItems fuel items ordered depth))
  /\ (forall item ordered depth, appendsWarnings (processListItem fuel item ordered depth)).
Proof.
  induction fuel as [|fuel [IHitems IHitem]].
  - split; intros; intros ws a ws' Hrun; discriminate.
  - split.
    + intros items ordered depth ws out ws' Hrun.
      rewrite processListItems_step in Hrun.
      destruct (@listItemsLoop_appendsWarnings
                  (fun item => processListItem fuel item ordered depth) items
                  (fun item => IHitem item ordered depth) [] ws out ws' Hrun)
        as (e & -> & Hany).
      exists e. split; [reflexivity|].
      intros ws2. rewrite processListItems_step. apply Hany.
    + intros item ordered depth ws a ws' Hrun.
      cbn [processListItem] in *.
      destruct (task item).
      { injection Hrun as <- <-. exists [].
        split; [now rewrite app_nil_r | intros ws2; now rewrite app_nil_r]. }
      destruct (match tokens item with
                | Some toks => scanItemTokens toks [] None
                | None => (orElse (text item) [], None)
                end) as [textContent [nestedList|]].
      2:{ injection Hrun as <- <-. exists [].
          split; [now rewrite app_nil_r | intros ws2; now rewrite app_nil_r]. }
      destruct (depth <? MAX_NESTING_DEPTH).
      * destruct (processListItems fuel (items nestedList) _ (depth + 1) ws)
          as [[children w1]|] eqn:Hnested; [|discriminate].
        injection Hrun as <- <-.
        destruct (IHitems _ _ _ _ _ _ Hnested) as (e & -> & Hnested2).
        exists e. split; [reflexivity|].
        intros ws2. now rewrite Hnested2.
      * destruct (processListItems fuel (items nestedList) _ depth _)
          as [[flattened w1]|] eqn:Hnested; [|discriminate].
        injection Hrun as <- <-.
        destruct (IHitems _ _ _ _ _ _ Hnested) as (e & -> & Hnested2).
        exists ([nestingWarning depth] ++ e). split; [now rewrite app_assoc|].
        intros ws2. rewrite Hnested2. now rewrite app_assoc.
Qed.

Lemma token_walk_appendsWarnings (fuel : nat) :
  (forall token, appendsWarnings (processToken fuel token))
  /\ (forall token, appendsWarnings (processBlockquote fuel token)).
Proof.
  induction fuel as [|fuel [IHtoken IHquote]].
  - split; intros; intros ws a ws' Hrun; discriminate.
  - split; intros token.
    + cbn [processToken].
      repeat match goal with
             | |- appendsWarnings (fun ws => if ?b then _ else _) => destruct b
             | |- appendsWarnings (fun ws => Some (_, ws)) => apply appendsWarnings_pure
             end.
      * apply IHquote.
      * apply (proj1 (list_walk_appendsWarnings fuel)).
      * intros ws a ws' Hrun. injection Hrun as <- <-.
        exists [unknownTokenWarning token]. split; reflexivity.
    + cbn [processBlockquote].
      destruct (tokens token) as [inner|].
      * now apply blockquoteLoop_appendsWarnings.
      * apply appendsWarnings_pure.
Qed.

Lemma topLevelLoop_acc (fuel : nat) (toks : list Token) :
  forall blocks ws,
    topLevelLoop fuel toks blocks ws
    = match topLevelLoop fuel toks [] ws with
      | Some (bs, ws') => Some (blocks ++ bs, ws')
      | None => None
      end.
Proof.
  induction toks as [|t rest IH]; intros blocks ws.
  - cbn. now rewrite app_nil_r.
  - cbn [topLevelLoop].
    destruct (processToken fuel t ws) as [[processed w1]|]; [|reflexivity].
    rewrite (IH (blocks ++ processed)), (IH ([] ++ processed)).
    destruct (topLevelLoop fuel rest [] w1) as [[bs w2]|]; [|reflexivity].
    cbn [app]. now rewrite app_assoc.
Qed.

Lemma topLevelLoop_appendsWarnings (fuel : nat) (toks : list Token) :
  forall blocks, appendsWarnings (topLevelLoop fuel toks blocks).
Proof.
  induction toks as [|t rest IH]; intros blocks.
  - apply appendsWarnings_pure.
  - intros ws out ws' Hrun. cbn [topLevelLoop] in Hrun.
    destruct (processToken fuel t ws) as [[processed w1]|] eqn:Ht; [|discriminate].
    destruct (proj1 (token_walk_appendsWarnings fuel) t _ _ _ Ht) as (e1 & -> & Ht2).
    destruct (IH _ _ _ _ Hrun) as (e2 & -> & Hrest2).
    exists (e1 ++ e2). split; [now rewrite app_assoc|].
    intros ws2. cbn [topLevelLoop]. rewrite Ht2, Hrest2. now rewrite app_assoc.
Qed.

Lemma convertTokens_app (fuel : nat) (toks1 toks2 : list Token) :
  convertTokens fuel (toks1 ++ toks2)
  = match convertTokens fuel toks1, convertTokens fuel toks2 with
    | Some (b1, w1), Some (b2, w2) => Some (b1 ++ b2, w1 ++ w2)
    | _, _ => None
    end.
Proof.
  unfold convertTokens.
  assert (Hgen : forall toks1 blocks ws,
             topLevelLoop fuel (toks1 ++ toks2) blocks ws
             = match topLevelLoop fuel toks1 blocks ws with
               | Some (b1, w1) => topLevelLoop fuel toks2 b1 w1
               | None => None
               end).
  { clear toks1. induction toks1 as [|t rest IH]; intros blocks ws; [reflexivity|].
    cbn [app topLevelLoop].
    destruct (processToken fuel t ws) as [[processed w1]|]; [|reflexivity].
    apply IH. }
  rewrite Hgen.
  destruct (topLevelLoop fuel toks1 [] []) as [[b1 w1]|]; [|reflexivity].
  rewrite topLevelLoop_acc.
  destruct (topLevelLoop fuel toks2 [] []) as [[b2 w2]|] eqn:H2.
  - destruct (topLevelLoop_appendsWarnings fuel toks2 [] _ H2) as (e & He & Hany).
    cbn [app] in He. subst e. now rewrite Hany.
  - destruct (topLevelLoop fuel toks2 [] w1) as [[b2 w2]|] eqn:H2'; [|reflexivity].
    destruct (topLevelLoop_appendsWarnings fuel toks2 [] _ H2') as (e & _ & Hany).
    rewrite Hany in H2. discriminate.
Qed.

End WarningLog.

Lemma markdownToBlocks_convertTokens `{JsHost} `{Tokenizer}
      (fuel : nat) (markdown : jsstring) (stale : Warnings) :
  trim markdown <> [] ->
  markdownToBlocks fuel markdown stale = convertTokens fuel (lex markdown).
Proof.
  intros Hnb. unfold markdownToBlocks, convertTokens.
  destruct markdown as [|c m]; [now destruct Hnb|].
  cbn [truthy negb orb]. now rewrite (JS_eqb_neq Hnb).
Qed.


(** X6.  A token of a kind the walker does not know stops nothing: it
    gives no block and the one warning "Unknown token type: <kind>",
    and the tokens before and after it are converted as if it were not
    there. *)
Theorem markdownToBlocks_skips_unknown_token `{JsHost} `{Tokenizer}
        (fuel : nat) (markdown : jsstring) (stale : Warnings)
        (before after : list Token) (unknown : Token) :
  trim markdown <> [] ->
  lex markdown = before ++ unknown :: after ->
  ~ In (type unknown) knownTokenTypes ->
  0 < fuel ->
  markdownToBlocks fuel markdown stale
  = match convertTokens fuel before, convertTokens fuel after with
    | Some (b1, w1), Some (b2, w2) =>
        Some (b1 ++ b2, w1 ++ [js "Unknown token type: " ++ type unknown] ++ w2)
    | _, _ => None
    end.
Proof.
  intros Hnb Hlex Hunknown Hfuel.
  rewrite (@markdownToBlocks_convertTokens _ _ fuel markdown stale Hnb), Hlex.
  change (before ++ unknown :: after) with (before ++ [unknown] ++ after).
  rewrite !convertTokens_app.
  assert (Hone : convertTokens fuel [unknown] = Some ([], [unknownTokenWarning unknown])).
  { destruct fuel as [|fuel']; [lia|].
    unfold convertTokens. cbn [topLevelLoop processToken].
    assert (Hno : forall k, In k knownTokenTypes -> JS.eqb (type unknown) k = false).
    { intros k Hk. apply JS_eqb_neq. intros Heq. apply Hunknown. now rewrite Heq. }
    rewrite !Hno by (cbn; tauto). reflexivity. }
  rewrite Hone.
  destruct (convertTokens fuel before) as [[b1 w1]|]; [|reflexivity].
  destruct (convertTokens fuel after) as [[b2 w2]|]; reflexivity.
Qed.


Lemma markdownToBlocks_skips_unknown_token_witness :
  markdownToBlocks (H := Fixtures.plainHost) (H0 := tableLexer) 3 (js "# Title") []
  = Some ([ Heading1 [mkRichText (js "Title") None];
            Paragraph [mkRichText (js "after") None] ],
          [js "Unknown token type: table"]).
Proof.
  rewrite (@markdownToBlocks_skips_unknown_token
             Fixtures.plainHost tableLexer 3 (js "# Title") []
             (firstn 1 (lex (Tokenizer := tableLexer) (js "# Title")))
             (skipn 2 (lex (Tokenizer := tableLexer) (js "# Title")))
             (Fixtures.token "table" ""));
    [reflexivity | discriminate | reflexivity | | lia].
  cbn. intros Hin.
  repeat (destruct Hin as [Hin|Hin]; [discriminate|]). exact Hin.
Defined.

(** ** Further properties of the token walker: blockquotes, lists, images *)

Section QuotesListsImages.
Context `{JsHost}.

Lemma blockquoteLoop_no_paragraph
      (step : Token -> Warnings -> option (list NotionBlock * Warnings))
      (inner : list Token) :
  forall blocks ws out ws',
    Forall (fun b => blockType b <> js "paragraph") blocks ->
    blockquoteLoop step inner blocks ws = Some (out, ws') ->
    Forall (fun b => blockType b <> js "paragraph") out.
Proof.
  induction inner as [|t rest IH]; intros blocks ws out ws' Hblocks Hloop.
  - cbn in Hloop. injection Hloop as <- _. exact Hblocks.
  - cbn [blockquoteLoop] in Hloop.
    destruct (JS.eqb (type t) (js "paragraph")).
    + eapply IH; [|exact Hloop]. apply Forall_app. split; [exact Hblocks|].
      constructor; [discriminate | constructor].
    + destruct (step t ws) as [[processed w1]|]; [|discriminate].
      eapply IH; [|exact Hloop]. apply Forall_app. split; [exact Hblocks|].
      apply Forall_map. apply Forall_forall. intros b _.
      destruct b; discriminate.
Qed.

Lemma blockquoteLoop_paragraphs
      (step : Token -> Warnings -> option (list NotionBlock * Warnings))
      (inner : list Token) :
  forallb isParagraphToken inner = true ->
  forall blocks ws,
    blockquoteLoop step inner blocks ws
    = Some (blocks ++ List.map (fun p => createQuoteBlock (text p)) inner, ws).
Proof.
  induction inner as [|t rest IH]; intros Hall blocks ws.
  - cbn. now rewrite app_nil_r.
  - cbn [forallb] in Hall. apply andb_prop in Hall. destruct Hall as [Ht Hrest].
    cbn [blockquoteLoop]. unfold isParagraphToken in Ht. rewrite Ht.
    rewrite (IH Hrest), orElse_nil. cbn [List.map]. now rewrite <- app_assoc.
Qed.

Lemma processListItem_below_cap (fuel : nat) (item : Token) (ordered : bool)
      (depth : nat) (ws : Warnings) (b : NotionBlock) (fl : list NotionBlock)
      (ws' : Warnings) :
  depth < MAX_NESTING_DEPTH ->
  processListItem fuel item ordered depth ws = Some (b, fl, ws') ->
  fl = []
  /\ blockType b = (if task item then js "to_do" else listItemType ordered).
Proof.
  intros Hdepth Hrun. destruct fuel as [|fuel]; [discriminate|].
  cbn [processListItem] in Hrun.
  destruct (task item); [injection Hrun as <- <- _; split; reflexivity|].
  destruct (match tokens item with
            | Some toks => scanItemTokens toks [] None
            | None => (orElse (text item) [], None)
            end) as [textContent [nestedList|]].
  2:{ injection Hrun as <- <- _. split; [reflexivity | now destruct ordered]. }
  replace (depth <? MAX_NESTING_DEPTH) with true in Hrun
    by (symmetry; now apply Nat.ltb_lt).
  destruct (processListItems fuel (items nestedList) _ (depth + 1) ws)
    as [[children w1]|]; [|discriminate].
  injection Hrun as <- <- _. split; [reflexivity | now destruct ordered].
Qed.

Lemma processListItem_below_cap_block (fuel : nat) (item : Token) (ordered : bool)
      (depth : nat) (ws : Warnings) (b : NotionBlock) (fl : list NotionBlock)
      (ws' : Warnings) :
  depth < MAX_NESTING_DEPTH ->
  processListItem fuel item ordered depth ws = Some (b, fl, ws') ->
  itemBlock (fuel - 1) ordered depth item b.
Proof.
  intros Hdepth Hrun. destruct fuel as [|fuel]; [discriminate|].
  cbn [Nat.sub]. rewrite Nat.sub_0_r.
  cbn [processListItem] in Hrun. unfold itemBlock, itemText, lastNestedList.
  destruct (task item); [injection Hrun as <- _ _; reflexivity|].
  destruct (tokens item) as [toks|].
  - rewrite scanItemTokens_reads in Hrun. cbn [app] in Hrun.
    destruct (lastList toks) as [nestedList|].
    + replace (depth <? MAX_NESTING_DEPTH) with true in Hrun
        by (symmetry; now apply Nat.ltb_lt).
      destruct (processListItems fuel (items nestedList) _ (depth + 1) ws)
        as [[children w1]|] eqn:Hkids; [|discriminate].
      injection Hrun as <- _ _.
      exists (match children with [] => None | _ :: _ => Some children end).
      split.
      * unfold createNumberedListItemBlock, createBulletedListItemBlock, attachChildren.
        now destruct ordered, children.
      * exists children. split; [|reflexivity].
        destruct (proj1 (list_walk_appendsWarnings fuel) _ _ _ _ _ _ Hkids)
          as (emitted & _ & Hany).
        intros ws2. eexists. apply Hany.
    + injection Hrun as <- _ _. exists None. split; [|reflexivity]. now destruct ordered.
  - injection Hrun as <- _ _. exists None. split; [|reflexivity]. now destruct ordered.
Qed.

Lemma paragraphLoop_text_then (pre rest : list Token) :
  forallb (fun t => negb (isImageToken t)) pre = true ->
  forall blocks textParts,
    paragraphLoop (pre ++ rest) blocks textParts
    = paragraphLoop rest blocks (textParts ++ List.map inlineText pre).
Proof.
  induction pre as [|t pre IH]; intros Hno blocks textParts.
  - cbn. now rewrite app_nil_r.
  - cbn [forallb] in Hno. apply andb_prop in Hno. destruct Hno as [Ht Hpre].
    cbn [app paragraphLoop]. unfold isImageToken in Ht.
    destruct (JS.eqb (type t) (js "image")); [discriminate|].
    rewrite (IH Hpre). cbn [List.map]. now rewrite <- app_assoc.
Qed.

End QuotesListsImages.

(** X7.  A blockquote never yields a paragraph block, and when all it
    holds is paragraphs it yields one quote block for each of them, in
    order, made from the text of that paragraph, and no warning. *)
Theorem processToken_blockquote `{JsHost}
        (fuel : nat) (token : Token) (ws : Warnings) :
  type token = js "blockquote" ->
  2 * tokenSize token + 1 <= fuel ->
  exists out ws',
    processToken fuel token ws = Some (out, ws')
    /\ Forall (fun b => blockType b <> js "paragraph") out
    /\ (forall inner,
           tokens token = Some inner ->
           forallb isParagraphToken inner = true ->
           out = List.map (fun p => createQuoteBlock (text p)) inner /\ ws' = ws).
Proof.
  intros Htype Hfuel.
  destruct (proj1 (token_walk_total fuel) token ws Hfuel) as ([out ws'] & Hrun).
  exists out, ws'. split; [exact Hrun|].
  destruct fuel as [|[|fuel]]; try (rewrite tokenSize_unfold in Hfuel; lia).
  cbn [processToken] in Hrun. rewrite Htype in Hrun.
  change (JS.eqb (js "blockquote") (js "heading")) with false in Hrun.
  change (JS.eqb (js "blockquote") (js "paragraph")) with false in Hrun.
  change (JS.eqb (js "blockquote") (js "code")) with false in Hrun.
  change (JS.eqb (js "blockquote") (js "blockquote")) with true in Hrun.
  cbn [processBlockquote] in Hrun.
  destruct (tokens token) as [inner|] eqn:Hinner.
  - split.
    + eapply blockquoteLoop_no_paragraph; [|exact Hrun]. constructor.
    + intros inner' Heq Hall. injection Heq as <-.
      rewrite (blockquoteLoop_paragraphs _ _ Hall) in Hrun.
      injection Hrun as <- <-. split; reflexivity.
  - injection Hrun as <- <-. split.
    + constructor; [discriminate | constructor].
    + intros inner Heq. discriminate.
Qed.

Lemma processToken_blockquote_witness :
  type twoLineQuote = js "blockquote"
  /\ 2 * tokenSize twoLineQuote + 1 <= 7
  /\ processToken (H := Fixtures.plainHost) 7 twoLineQuote []
     = Some ([ Quote [mkRichText (js "Line 1") None];
               Quote [mkRichText (js "Line 2") None] ], []).
Proof.
  split; [reflexivity|]. split; [vm_compute; lia|].
  destruct (processToken_blockquote (H := Fixtures.plainHost) (fuel := 7) twoLineQuote []
              eq_refl (proj1 (Nat.leb_le (2 * tokenSize twoLineQuote + 1) 7) eq_refl))
    as (out & ws' & Hrun & _ & Hparagraphs).
  destruct (Hparagraphs _ eq_refl eq_refl) as [-> ->]. exact Hrun.
Defined.

(** X8.  Below the depth limit a list yields exactly one block for
    each of its items, in order.  A checklist item gives the [to_do]
    block of its text, which carries no children: a list nested under
    it is not walked.  Any other item gives a numbered or bulleted
    list item, as the list is ordered or not, labelled with the texts
    of its text and paragraph sub-tokens; its children are the blocks
    of its last nested list, built one level further down, and the
    field is left out when there is no nested list or it gives no
    block.  Nested lists add no block at this level. *)
Theorem processListItems_one_block_per_item `{JsHost}
        (fuel : nat) (items : list Token) (ordered : bool) (depth : nat) (ws : Warnings) :
  depth < MAX_NESTING_DEPTH ->
  2 * tokenSizes items + 1 <= fuel ->
  exists out ws',
    processListItems fuel items ordered depth ws = Some (out, ws')
    /\ Forall2 (fun item b =>
                  blockType b = (if task item then js "to_do" else listItemType ordered)
                  /\ itemBlock (fuel - 2) ordered depth item b)
               items out.
Proof.
  intros Hdepth Hfuel.
  destruct (proj1 (list_walk_total fuel) items ordered depth ws Hfuel) as ([out ws'] & Hrun).
  exists out, ws'. split; [exact Hrun|].
  destruct fuel as [|fuel]; [lia|].
  rewrite processListItems_step in Hrun. clear Hfuel.
  replace (S fuel - 2) with (fuel - 1) by lia.
  revert ws out ws' Hrun. induction items as [|item rest IH]; intros ws out ws' Hrun.
  - cbn in Hrun. injection Hrun as <- _. constructor.
  - rewrite listItemsLoop_cons in Hrun.
    destruct (processListItem fuel item ordered depth ws) as [[[b fl] w1]|] eqn:Hitem;
      [|discriminate].
    destruct (listItemsLoop _ rest [] w1) as [[bs w2]|] eqn:Hrest; [|discriminate].
    injection Hrun as <- _.
    destruct (processListItem_below_cap _ _ _ _ Hdepth Hitem) as [-> Htype].
    pose proof (processListItem_below_cap_block _ _ _ _ Hdepth Hitem) as Hblock.
    cbn [app]. constructor; [split; [exact Htype | exact Hblock]|].
    eapply IH. exact Hrest.
Qed.

Lemma processListItems_one_block_per_item_witness :
  1 < MAX_NESTING_DEPTH
  /\ 2 * tokenSizes [nestedTaskItem; nestedPlainItem] + 1 <= 30
  /\ exists ws',
      processListItems (H := Fixtures.plainHost) 30 [nestedTaskItem; nestedPlainItem]
                       true 1 []
      = Some ([ ToDo [mkRichText (js "Task" ++ [10%N] ++ js "- Nested") None] false;
                NumberedListItem [mkRichText (js "Task") None]
                  (Some [BulletedListItem [mkRichText (js "Nested") None] None]) ],
              ws').
Proof.
  split; [unfold MAX_NESTING_DEPTH; lia|]. split; [vm_compute; lia|].
  destruct (processListItems_one_block_per_item (H := Fixtures.plainHost) (fuel := 30)
              [nestedTaskItem; nestedPlainItem] true (depth := 1) [])
    as (out & ws' & Hrun & _); [unfold MAX_NESTING_DEPTH; lia | vm_compute; lia |].
  exists ws'. rewrite Hrun.
  vm_compute in Hrun. injection Hrun as <- _. reflexivity.
Defined.

(** X9.  A paragraph with one image in it is split around the image:
    the text before it, if there is any sub-token before it, becomes a
    paragraph block as it stands, blanks included; the image becomes
    the block [createImageBlock] makes of it; and the text after it
    becomes a paragraph block, trimmed, unless it is blank. *)
Theorem processParagraph_splits_around_image `{JsHost}
        (token image : Token) (pre post : list Token) :
  tokens token = Some (pre ++ image :: post) ->
  isImageToken image = true ->
  forallb (fun t => negb (isImageToken t)) pre = true ->
  forallb (fun t => negb (isImageToken t)) post = true ->
  processParagraph token
  = (if 0 <? length pre
     then [createParagraphBlock (join [] (List.map inlineText pre))]
     else [])
    ++ [createImageBlock (href image) (imageCaption image)]
    ++ (if (0 <? length post) && truthy (trim (join [] (List.map inlineText post)))
        then [createParagraphBlock (trim (join [] (List.map inlineText post)))]
        else []).
Proof.
  intros Htokens Himage Hpre Hpost.
  set (before := if 0 <? length pre
                 then [createParagraphBlock (join [] (List.map inlineText pre))]
                 else []).
  set (picture := createImageBlock (href image) (imageCaption image)).
  assert (Hloop : paragraphLoop (pre ++ image :: post) [] []
                  = (before ++ [picture], List.map inlineText post)).
  { rewrite (paragraphLoop_text_then pre (image :: post) Hpre).
    cbn [paragraphLoop app]. unfold isImageToken in Himage. rewrite Himage.
    rewrite length_map, (paragraphLoop_no_images post Hpost). cbn [app].
    subst before. now destruct (0 <? length pre). }
  assert (Hkeep : forall (l : list NotionBlock) x fallback,
             (if 0 <? length (l ++ [x]) then l ++ [x] else fallback) = l ++ [x]).
  { intros l x fallback.
    replace (0 <? length (l ++ [x])) with true; [reflexivity|].
    symmetry. apply Nat.ltb_lt. rewrite length_app. cbn. lia. }
  unfold processParagraph. rewrite Htokens, Hloop, length_map.
  destruct (0 <? length post); cbn [andb].
  - destruct (truthy (trim (join [] (List.map inlineText post)))).
    + rewrite Hkeep, <- app_assoc. reflexivity.
    + rewrite Hkeep. reflexivity.
  - rewrite Hkeep. reflexivity.
Qed.

Lemma processParagraph_splits_around_image_witness :
  processParagraph (H := Fixtures.plainHost) paragraphWithImage
  = [ Paragraph [mkRichText (js "see ") None];
      Image (js "https://x.io/l.png") (Some [mkRichText (js "logo") None]);
      Paragraph [mkRichText (js "above") None] ].
Proof.
  rewrite (@processParagraph_splits_around_image Fixtures.plainHost
             paragraphWithImage
             (mkToken (js "image") [] (js "logo") 0 None (js "https://x.io/l.png")
                      None false [] false None None)
             [Fixtures.token "text" "see "] [Fixtures.token "text" " above "]
             eq_refl eq_refl eq_refl eq_refl).
  reflexivity.
Defined.

(** ** Further properties of the batch engine *)

Section ChunkSizes.
Variable T : Type.

Lemma chunkLoop_sizes (blocks : list T) (chunkSize : nat) :
  0 < chunkSize ->
  forall fuel i chunks,
    length blocks - i < fuel ->
    exists tail,
      chunkLoop fuel blocks chunkSize i chunks = Some (chunks ++ tail)
      /\ (i < length blocks -> tail <> [])
      /\ Forall (fun chunk => 0 < length chunk) tail
      /\ Forall (fun chunk => length chunk = chunkSize) (removelast tail).
Proof.
  intros Hsize. induction fuel as [|fuel IH]; intros i chunks Hfuel; [lia|].
  cbn [chunkLoop]. destruct (i <? length blocks) eqn:Hi.
  - apply Nat.ltb_lt in Hi.
    destruct (IH (i + chunkSize) (chunks ++ [slice blocks i (i + chunkSize)]))
      as (tail & Heq & Hne & Hpos & Hfull); [lia|].
    assert (Hlen : length (slice blocks i (i + chunkSize))
                   = Nat.min chunkSize (length blocks - i)).
    { unfold slice. rewrite length_firstn, length_skipn. f_equal. lia. }
    exists (slice blocks i (i + chunkSize) :: tail). repeat split.
    + rewrite Heq. now rewrite <- app_assoc.
    + discriminate.
    + constructor; [lia | exact Hpos].
    + destruct tail as [|c tail'] eqn:Htail; [constructor|].
      change (removelast (slice blocks i (i + chunkSize) :: c :: tail'))
        with (slice blocks i (i + chunkSize) :: removelast (c :: tail')).
      constructor; [|exact Hfull].
      destruct (Nat.lt_ge_cases (i + chunkSize) (length blocks)) as [Hmore|Hlast]; [lia|].
      exfalso. revert Heq.
      destruct fuel as [|fuel']; [lia|]. cbn [chunkLoop].
      replace (i + chunkSize <? length blocks) with false
        by (symmetry; apply Nat.ltb_ge; lia).
      intros Heq. injection Heq as Heq.
      apply (f_equal (@length (list T))) in Heq.
      rewrite !length_app in Heq. cbn in Heq. lia.
  - apply Nat.ltb_ge in Hi. exists []. repeat split.
    + now rewrite app_nil_r.
    + lia.
    + constructor.
    + constructor.
Qed.

Lemma chunkLoop_zero_size (blocks : list T) (fuel : nat) :
  forall i chunks, i < length blocks -> chunkLoop fuel blocks 0 i chunks = None.
Proof.
  induction fuel as [|fuel IH]; intros i chunks Hi; [reflexivity|].
  cbn [chunkLoop]. replace (i <? length blocks) with true
    by (symmetry; now apply Nat.ltb_lt).
  rewrite Nat.add_0_r. now apply IH.
Qed.

End ChunkSizes.

(** X10.  With any positive chunk size [chunkBlocks] cuts a list into
    chunks that are never empty and that all hold exactly [chunkSize]
    elements, but for the last, which holds what is left; put together
    they are the list.  Of the empty list it makes no chunk. *)
Theorem chunkBlocks_full_chunks (T : Type) (blocks : list T) (chunkSize : nat) :
  0 < chunkSize ->
  exists chunks,
    chunkBlocks blocks (Some chunkSize) = Some chunks
    /\ concat chunks = blocks
    /\ Forall (fun chunk => 0 < length chunk /\ length chunk <= chunkSize) chunks
    /\ Forall (fun chunk => length chunk = chunkSize) (removelast chunks)
    /\ (blocks = [] -> chunks = []).
Proof.
  intros Hsize.
  destruct (@chunkBlocks_spec T blocks chunkSize Hsize) as (chunks & Heq & Hcat & Hle & _).
  exists chunks. split; [exact Heq|]. split; [exact Hcat|].
  unfold chunkBlocks in Heq.
  destruct (length blocks =? 0) eqn:Hlen.
  - injection Heq as <-. repeat split; constructor.
  - apply Nat.eqb_neq in Hlen.
    destruct (@chunkLoop_sizes T blocks chunkSize Hsize (S (length blocks)) 0 [])
      as (tail & Heq' & _ & Hpos & Hfull); [lia|].
    rewrite Heq in Heq'. injection Heq' as ->. cbn [app] in *.
    repeat split.
    + rewrite Forall_forall in *. intros c Hc. split; [now apply Hpos | now apply Hle].
    + exact Hfull.
    + intros ->. now destruct Hlen.
Qed.

Lemma chunkBlocks_full_chunks_witness :
  0 < 2
  /\ chunkBlocks [1; 2; 3; 4; 5] (Some 2) = Some [[1; 2]; [3; 4]; [5]].
Proof.
  split; [lia|].
  destruct (@chunkBlocks_full_chunks nat [1; 2; 3; 4; 5] 2) as (chunks & Heq & _); [lia|].
  rewrite Heq. vm_compute in Heq. injection Heq as <-. reflexivity.
Defined.

(** X11.  With a chunk size of zero the loop of [chunkBlocks] never
    moves on: on a list that is not empty it does not come to an end,
    whatever the number of turns allowed. *)
Theorem chunkBlocks_zero_size (T : Type) (blocks : list T) :
  blocks <> [] ->
  chunkBlocks blocks (Some 0) = None
  /\ forall fuel chunks, chunkLoop fuel blocks 0 0 chunks = None.
Proof.
  intros Hne.
  assert (Hpos : 0 < length blocks).
  { destruct blocks; [now destruct Hne | cbn; lia]. }
  split.
  - unfold chunkBlocks.
    replace (length blocks =? 0) with false by (symmetry; apply Nat.eqb_neq; lia).
    now apply chunkLoop_zero_size.
  - intros fuel chunks. now apply chunkLoop_zero_size.
Qed.

Lemma chunkBlocks_zero_size_witness :
  [Divider] <> [] /\ chunkBlocks [Divider] (Some 0) = None.
Proof.
  split; [discriminate|].
  apply (proj1 (@chunkBlocks_zero_size NotionBlock [Divider] ltac:(discriminate))).
Defined.

(** X12.  [appendBlocksInBatches] sends every block once and in order:
    the children of its append requests, put together, are the blocks
    it was given; every request goes to the container, with at least
    one and at most 100 children; the result counts the blocks given,
    and its successes are the answers received.  It lists nothing,
    deletes nothing and leaves the conversion warnings alone. *)
Theorem appendBlocksInBatches_sends_all_in_order `{Client}
        (blockId : jsstring) (blocks : list NotionBlock) (w : World) :
  exists result w' new,
    appendBlocksInBatches blockId blocks w = (Returned result, w')
    /\ calls w' = calls w ++ new
    /\ conversionWarnings w' = conversionWarnings w
    /\ concat (flat_map appendedChildren new) = blocks
    /\ Forall (fun c => exists children outcome,
                   c = AppendCall blockId children outcome
                   /\ 0 < length children /\ length children <= 100) new
    /\ totalBlocks result = length blocks
    /\ batchResults result = responsesOf new
    /\ successfulBatches result = length (responsesOf new).
Proof.
  destruct (appendBlocksInBatches_spec blockId blocks w)
    as (result & w' & new & chunks & Hrun & Hchunks & Hcalls & Hws & Hflat & Hto & Hres & _).
  change (chunkBlocks blocks None) with (chunkBlocks blocks (Some 100)) in Hchunks.
  destruct (@chunkBlocks_spec NotionBlock blocks 100) as (chunks' & Heq & Hcat & Hle & _);
    [lia|].
  rewrite Hchunks in Heq. injection Heq as <-.
  assert (Hpos : Forall (fun chunk : list NotionBlock => 0 < length chunk) chunks).
  { unfold chunkBlocks in Hchunks. destruct (length blocks =? 0).
    - injection Hchunks as <-. constructor.
    - destruct (@chunkLoop_sizes NotionBlock blocks 100 (Nat.lt_0_succ _)
                  (S (length blocks)) 0 []) as (tail & Heq & _ & Hp & _); [lia|].
      rewrite Hchunks in Heq. injection Heq as ->. exact Hp. }
  exists result, w', new.
  repeat match goal with |- _ /\ _ => split end; try assumption;
    try (subst result; reflexivity).
  - now rewrite Hflat.
  - subst chunks. clear - Hto Hle Hpos.
    induction new as [|c rest IH]; [constructor|].
    cbn [forallb] in Hto. apply andb_prop in Hto. destruct Hto as [Hc Hrest].
    destruct c as [b children outcome|b cur|b o]; try discriminate.
    cbn [flat_map appendedChildren app] in Hle, Hpos.
    inversion Hle; subst. inversion Hpos; subst.
    cbn [appendsTo] in Hc. apply JS_eqb_eq in Hc. subst b.
    constructor; [|now apply IH].
    exists children, outcome. repeat split; assumption.
Qed.

Lemma appendBlocksInBatches_sends_all_in_order_witness :
  exists result w',
    appendBlocksInBatches (H := Fixtures.acceptingClient) (js "page-1")
                          (repeat Divider 250) (@mkWorld Fixtures.acceptingClient [] tt [])
    = (Returned result, w')
    /\ List.map (fun c => length (concat (appendedChildren c))) (calls w') = [100; 100; 50]
    /\ batchCount result = 3 /\ successfulBatches result = 3.
Proof.
  destruct (appendBlocksInBatches_sends_all_in_order (H := Fixtures.acceptingClient)
              (js "page-1") (repeat Divider 250)
              (@mkWorld Fixtures.acceptingClient [] tt []))
    as (result & w' & new & Hrun & _).
  exists result, w'. split; [exact Hrun|].
  vm_compute in Hrun. injection Hrun as <- <-. repeat split.
Defined.

(** ** Further properties of fetching and deleting children *)

Section FetchAndDelete.
Context `{Client}.

Lemma fetchLoop_pages (blockId : jsstring) (pages : list ListResponse) :
  forall cursor r r',
    servesPages blockId cursor r pages r' ->
    forall fuel childIds ws log,
      length pages <= fuel ->
      fetchLoop fuel blockId cursor childIds (mkWorld ws r log)
      = (Returned (childIds ++ idsOfPages pages),
         mkWorld ws r' (log ++ listCallsFor blockId cursor pages)).
Proof.
  intros cursor r r' Hpages.
  induction Hpages as [cursor r response r' Hcall Hstop
                      |cursor r response r' c pages r'' Hcall Hnext Hrest IH];
    intros fuel childIds ws log Hfuel.
  - destruct fuel as [|fuel]; [cbn in Hfuel; lia|].
    cbn [fetchLoop]. unfold Notion.bind, childrenList. cbn [remote conversionWarnings calls].
    rewrite Hcall. cbn [settle]. unfold followingCursor in Hstop.
    unfold idsOfPages. cbn [flat_map listCallsFor]. rewrite app_nil_r.
    destruct (has_more response); [|reflexivity].
    destruct (next_cursor response) as [c|]; [|reflexivity].
    destruct (truthy c); [discriminate | reflexivity].
  - destruct fuel as [|fuel]; [cbn in Hfuel; lia|].
    cbn [fetchLoop]. unfold Notion.bind, childrenList. cbn [remote conversionWarnings calls].
    rewrite Hcall. cbn [settle].
    assert (Hcursor : (if has_more response then next_cursor response else None) = Some c
                      /\ truthy c = true).
    { unfold followingCursor in Hnext.
      destruct (has_more response); [|discriminate].
      destruct (next_cursor response) as [c'|]; [|discriminate].
      destruct (truthy c') eqn:Htruthy; [|discriminate].
      injection Hnext as <-. split; [reflexivity | exact Htruthy]. }
    destruct Hcursor as [-> ->].
    rewrite IH by (cbn in Hfuel; lia).
    unfold idsOfPages. cbn [flat_map listCallsFor].
    rewrite Hnext, <- !app_assoc. reflexivity.
Qed.

Lemma deleteLoop_counts (blockIds : list jsstring) :
  forall deletedCount errors w,
  exists w' new,
    deleteLoop blockIds deletedCount errors w
    = (Returned (deletedCount + length (filter deleteSucceeded new),
                 errors ++ deleteErrorsOf new), w')
    /\ calls w' = calls w ++ new
    /\ conversionWarnings w' = conversionWarnings w
    /\ forallb isDelete new = true
    /\ deletedIds new = blockIds.
Proof.
  induction blockIds as [|blockId rest IH]; intros deletedCount errors w.
  - exists w, []. cbn. rewrite !app_nil_r, Nat.add_0_r. repeat split.
  - cbn [deleteLoop]. unfold Notion.bind at 1. unfold tryCatch, Notion.bind at 1.
    unfold blockDelete.
    destruct (blocks_delete blockId (remote w)) as [[[]|error] remote'];
      cbn [settle Notion.ret].
    + match goal with
      | |- context [deleteLoop rest ?n ?es ?w1] =>
          destruct (IH n es w1) as (w' & new & Hrun & Hcalls & Hws & Hall & Hids)
      end.
      exists w', (DeleteCall blockId (inl tt) :: new).
      rewrite Hrun, Hcalls, Hws. unfold deletedIds, deleteErrorsOf in *.
      cbn [calls conversionWarnings forallb isDelete andb flat_map filter
           deleteSucceeded length app].
      rewrite <- app_assoc, Hids.
      replace (deletedCount + 1 + length (filter deleteSucceeded new))
        with (deletedCount + S (length (filter deleteSucceeded new))) by lia.
      repeat split. exact Hall.
    + match goal with
      | |- context [deleteLoop rest ?n ?es ?w1] =>
          destruct (IH n es w1) as (w' & new & Hrun & Hcalls & Hws & Hall & Hids)
      end.
      exists w', (DeleteCall blockId (inr error) :: new).
      rewrite Hrun, Hcalls, Hws. unfold deletedIds, deleteErrorsOf in *.
      cbn [calls conversionWarnings forallb isDelete andb flat_map filter
           deleteSucceeded length app].
      rewrite <- !app_assoc, Hids. cbn [app].
      repeat split. exact Hall.
Qed.

Lemma deleteChildrenLoop_counts (childIds : list jsstring) :
  forall deletedCount w,
  exists w' new,
    deleteChildrenLoop childIds deletedCount w
    = (Returned (deletedCount + length (filter deleteSucceeded new)), w')
    /\ calls w' = calls w ++ new
    /\ forallb isDelete new = true
    /\ deletedIds new = childIds.
Proof.
  induction childIds as [|childId rest IH]; intros deletedCount w.
  - exists w, []. cbn. rewrite !app_nil_r, Nat.add_0_r. repeat split.
  - cbn [deleteChildrenLoop]. unfold Notion.bind at 1. unfold tryCatch, Notion.bind at 1.
    unfold blockDelete.
    destruct (blocks_delete childId (remote w)) as [[[]|error] remote'];
      cbn [settle]; unfold consoleWarn; unfold Notion.bind at 1; unfold Notion.ret at 1.
    + match goal with
      | |- context [deleteChildrenLoop rest ?n ?w1] =>
          destruct (IH n w1) as (w' & new & Hrun & Hcalls & Hall & Hids)
      end.
      exists w', (DeleteCall childId (inl tt) :: new).
      rewrite Hrun, Hcalls. unfold deletedIds in *.
      cbn [calls forallb isDelete andb flat_map filter deleteSucceeded length app].
      rewrite <- app_assoc, Hids.
      replace (deletedCount + 1 + length (filter deleteSucceeded new))
        with (deletedCount + S (length (filter deleteSucceeded new))) by lia.
      repeat split. exact Hall.
    + unfold Notion.ret at 1.
      match goal with
      | |- context [deleteChildrenLoop rest ?n ?w1] =>
          destruct (IH n w1) as (w' & new & Hrun & Hcalls & Hall & Hids)
      end.
      exists w', (DeleteCall childId (inr error) :: new).
      rewrite Hrun, Hcalls. unfold deletedIds in *.
      cbn [calls forallb isDelete andb flat_map filter deleteSucceeded length app].
      rewrite <- app_assoc, Hids.
      repeat split. exact Hall.
Qed.

Lemma deleteBlocksByIds_counts (blockIds : list jsstring) (w : World) :
  exists w' new,
    deleteBlocksByIds blockIds w
    = (Returned (length (filter deleteSucceeded new), deleteErrorsOf new), w')
    /\ calls w' = calls w ++ new
    /\ forallb isDelete new = true
    /\ deletedIds new = blockIds
    /\ length (filter deleteSucceeded new) + length (deleteErrorsOf new)
       = length blockIds.
Proof.
  unfold deleteBlocksByIds.
  destruct (deleteLoop_counts blockIds 0 [] w) as (w' & new & Hrun & Hcalls & _ & Hall & Hids).
  exists w', new. split; [exact Hrun|].
  repeat match goal with |- _ /\ _ => split end; try assumption.
  rewrite <- Hids. clear - Hall.
  induction new as [|c rest IH]; [reflexivity|].
  cbn [forallb] in Hall. apply andb_prop in Hall. destruct Hall as [Hc Hrest].
  specialize (IH Hrest). unfold deleteErrorsOf, deletedIds in *.
  destruct c as [b ch o|b cur|b [[]|e]]; try discriminate;
    cbn [filter deleteSucceeded flat_map app length] in *;
    rewrite ?length_app in *; cbn [length] in *; lia.
Qed.

Lemma deleteBlocksByIds_spec_total (blockIds : list jsstring) (w : World) :
  exists r w', deleteBlocksByIds blockIds w = (Returned r, w').
Proof.
  unfold deleteBlocksByIds.
  destruct (deleteLoop_counts blockIds 0 [] w) as (w' & new & Hrun & _).
  eexists _, w'. exact Hrun.
Qed.

End FetchAndDelete.

(** X13.  When the service serves the children of a container in
    pages, [fetchAllChildBlockIds] reads every page, each with the
    cursor the page before named, the first without one, and returns
    the ids of all the pages in page order; it needs as many turns as
    there are pages and touches nothing but the listing. *)
Theorem fetchAllChildBlockIds_reads_every_page `{Client}
        (fuel : nat) (blockId : jsstring) (w : World)
        (pages : list ListResponse) (r' : Remote) :
  servesPages blockId None (remote w) pages r' ->
  length pages <= fuel ->
  fetchAllChildBlockIds fuel blockId w
  = (Returned (idsOfPages pages),
     mkWorld (conversionWarnings w) r' (calls w ++ listCallsFor blockId None pages)).
Proof.
  intros Hpages Hfuel. unfold fetchAllChildBlockIds.
  destruct w as [ws r log]. cbn [remote conversionWarnings calls] in *.
  now rewrite (@fetchLoop_pages _ blockId pages None r r' Hpages fuel [] ws log Hfuel).
Qed.

Lemma fetchAllChildBlockIds_reads_every_page_witness :
  fetchAllChildBlockIds (H := pagedClient) 2 (js "page-1") pagedWorld
  = (Returned [js "a"; js "b"; js "c"],
     @mkWorld pagedClient [] tt
              [ @ListCall pagedClient (js "page-1") None;
                @ListCall pagedClient (js "page-1") (Some (js "p2")) ]).
Proof.
  rewrite (@fetchAllChildBlockIds_reads_every_page pagedClient 2
             (js "page-1") pagedWorld
             [ mkListResponse [mkChild (Some (js "a")); mkChild (Some (js "b"))]
                              true (Some (js "p2"));
               mkListResponse [mkChild (Some (js "c"))] false None ]
             tt).
  - reflexivity.
  - eapply servesNextPage; [reflexivity | reflexivity |].
    apply servesLastPage; reflexivity.
  - cbn. lia.
Defined.

(** X14.  [deleteBlocksByIds] never gives up: it always returns, after
    one delete call for every id it was given, in the order given,
    whether earlier deletes failed or not.  Its count is the number of
    deletes that went through, its errors are "<id>: <error>" for those
    that did not, in order, and the two add up to the number of ids. *)
Theorem deleteBlocksByIds_best_effort `{Client} (blockIds : list jsstring) (w : World) :
  exists deletedCount errors w' new,
    deleteBlocksByIds blockIds w = (Returned (deletedCount, errors), w')
    /\ calls w' = calls w ++ new
    /\ forallb isDelete new = true
    /\ deletedIds new = blockIds
    /\ deletedCount = length (filter deleteSucceeded new)
    /\ errors = deleteErrorsOf new
    /\ deletedCount + length errors = length blockIds.
Proof.
  destruct (deleteBlocksByIds_counts blockIds w)
    as (w' & new & Hrun & Hcalls & Hall & Hids & Hsum).
  eexists _, _, w', new. split; [exact Hrun|].
  repeat match goal with |- _ /\ _ => split end; try assumption; reflexivity.
Qed.

Lemma deleteBlocksByIds_best_effort_witness :
  deleteBlocksByIds (H1 := pagedClient) [js "a"; js "b"; js "c"] pagedWorld
  = (Returned (2, [js "b: locked"]),
     @mkWorld pagedClient [] tt
              [ @DeleteCall pagedClient (js "a") (inl tt);
                @DeleteCall pagedClient (js "b") (inr (js "locked"));
                @DeleteCall pagedClient (js "c") (inl tt) ]).
Proof.
  destruct (@deleteBlocksByIds_best_effort pagedClient
              [js "a"; js "b"; js "c"] pagedWorld)
    as (n & errs & w' & new & Hrun & _).
  rewrite Hrun. vm_compute in Hrun. injection Hrun as <- <- <-. reflexivity.
Defined.

(** X15.  When the service serves the children of a container in
    pages, [deleteAllChildBlocks] first reads all the pages and then
    issues one delete call for every child id, in page order, going on
    after a delete that fails; it returns the number of deletes that
    went through. *)
Theorem deleteAllChildBlocks_deletes_every_child `{Client}
        (fuel : nat) (blockId : jsstring) (w : World)
        (pages : list ListResponse) (r' : Remote) :
  servesPages blockId None (remote w) pages r' ->
  length pages <= fuel ->
  exists deletedCount w' deletes,
    deleteAllChildBlocks fuel blockId w = (Returned deletedCount, w')
    /\ calls w' = calls w ++ listCallsFor blockId None pages ++ deletes
    /\ forallb isDelete deletes = true
    /\ deletedIds deletes = idsOfPages pages
    /\ deletedCount = length (filter deleteSucceeded deletes)
    /\ deletedCount <= length (idsOfPages pages).
Proof.
  intros Hpages Hfuel. unfold deleteAllChildBlocks, Notion.bind.
  destruct w as [ws r log]. cbn [remote conversionWarnings calls] in *.
  unfold fetchAllChildBlockIds.
  rewrite (@fetchLoop_pages _ blockId pages None r r' Hpages fuel [] ws log Hfuel). cbn [app].
  destruct (deleteChildrenLoop_counts (idsOfPages pages) 0
              (mkWorld ws r' (log ++ listCallsFor blockId None pages)))
    as (w' & deletes & Hrun & Hcalls & Hall & Hids).
  eexists _, w', deletes. split; [exact Hrun|].
  cbn [calls] in Hcalls. rewrite Hcalls, <- app_assoc.
  repeat match goal with |- _ /\ _ => split end; try assumption; try reflexivity.
  cbn [Nat.add]. rewrite <- Hids. clear.
  induction deletes as [|c rest IH]; [cbn; lia|].
  unfold deletedIds in *.
  destruct c as [b ch o|b cur|b [[]|e]];
    cbn [filter deleteSucceeded flat_map app length] in *; lia.
Qed.

Lemma deleteAllChildBlocks_deletes_every_child_witness :
  deleteAllChildBlocks (H := pagedClient) 2 (js "page-1") pagedWorld
  = (Returned 2,
     @mkWorld pagedClient [] tt
              [ @ListCall pagedClient (js "page-1") None;
                @ListCall pagedClient (js "page-1") (Some (js "p2"));
                @DeleteCall pagedClient (js "a") (inl tt);
                @DeleteCall pagedClient (js "b") (inr (js "locked"));
                @DeleteCall pagedClient (js "c") (inl tt) ]).
Proof.
  destruct (@deleteAllChildBlocks_deletes_every_child pagedClient 2
              (js "page-1") pagedWorld
              [ mkListResponse [mkChild (Some (js "a")); mkChild (Some (js "b"))]
                               true (Some (js "p2"));
                mkListResponse [mkChild (Some (js "c"))] false None ]
              tt)
    as (n & w' & deletes & Hrun & _).
  - eapply servesNextPage; [reflexivity | reflexivity |].
    apply servesLastPage; reflexivity.
  - cbn. lia.
  - rewrite Hrun. vm_compute in Hrun. injection Hrun as <- <-. reflexivity.
Defined.

(** ** Further properties of the page rewrite *)

Section RewriteOutcomes.
Context `{JsHost} `{Tokenizer} `{Client}.
Variable handleNotionError : Error -> CallToolResult.

(** The run of [rewritePage] once the conversion has given blocks. *)
Lemma rewritePage_converted (fuel : nat) (params : RewritePageParams) (w : World)
      (blocks : list NotionBlock) (ws : Warnings) :
  markdownToBlocks fuel (markdown params) (conversionWarnings w) = Some (blocks, ws) ->
  blocks <> [] ->
  rewritePage handleNotionError fuel params w
  = match captureExistingBlockIds fuel params (mkWorld ws (remote w) (calls w)) with
    | (Returned existingBlockIds, w1) =>
        match appendBlocksInBatches (pageId params) blocks w1 with
        | (Returned batchResult, w2) =>
            if negb (success batchResult) then
              (Returned (mkResult (appendFailureMessage (pageId params) batchResult) true),
               w2)
            else
              match deleteCaptured existingBlockIds w2 with
              | (Returned (deletedCount, deleteErrors), w3) =>
                  (Returned (mkResult (successMessage (pageId params) batchResult
                                         deletedCount (getConversionWarnings ws)
                                         deleteErrors) false), w3)
              | (Threw e, w3) => (Returned (handleNotionError e), w3)
              | (Diverged, w3) => (Diverged, w3)
              end
        | (Threw e, w2) => (Returned (handleNotionError e), w2)
        | (Diverged, w2) => (Diverged, w2)
        end
    | (Threw e, w1) => (Returned (handleNotionError e), w1)
    | (Diverged, w1) => (Diverged, w1)
    end.
Proof.
  intros Hconvert Hblocks.
  unfold rewritePage, tryCatch. unfold Notion.bind at 1. unfold convert.
  rewrite Hconvert. unfold Notion.bind at 1. unfold readWarnings.
  destruct blocks as [|b blocks']; [now destruct Hblocks|].
  cbn [length Nat.eqb conversionWarnings]. unfold Notion.bind at 1.
  unfold captureExistingBlockIds, validateBeforeDeleteOrDefault.
  destruct ((if match validateBeforeDelete params with Some v => v | None => true end
             then fetchAllChildBlockIds fuel (pageId params) else Notion.ret [])
              (mkWorld ws (remote w) (calls w))) as [[existingBlockIds|e|] w1];
    try reflexivity.
  unfold Notion.bind at 1.
  destruct (appendBlocksInBatches (pageId params) (b :: blocks') w1)
    as [[batchResult|e|] w2]; try reflexivity.
  destruct (negb (success batchResult)); [reflexivity|].
  unfold Notion.bind at 1. unfold deleteCaptured.
  destruct ((if 0 <? length existingBlockIds
             then deleteBlocksByIds existingBlockIds else Notion.ret (0, [])) w2)
    as [[[deletedCount deleteErrors]|e|] w3]; reflexivity.
Qed.

Lemma captureExistingBlockIds_calls (fuel : nat) (params : RewritePageParams) (w : World) :
  exists lists,
    calls (snd (captureExistingBlockIds fuel params w)) = calls w ++ lists
    /\ forallb isList lists = true.
Proof.
  unfold captureExistingBlockIds.
  destruct (validateBeforeDeleteOrDefault params).
  - destruct (fetchLoop_calls fuel (pageId params) None [] w) as (lists & Hc & Hl & _).
    exists lists. split; assumption.
  - exists []. cbn. now rewrite app_nil_r.
Qed.

End RewriteOutcomes.

(** X16.  [rewritePage] never lets an error out: whatever the service
    does, the run ends in a result, or does not end because the
    conversion or the listing of the children does not. *)
Theorem rewritePage_never_throws `{JsHost} `{Tokenizer} `{Client}
        (handleNotionError : Error -> CallToolResult)
        (fuel : nat) (params : RewritePageParams) (w : World) :
  exists completion w',
    rewritePage handleNotionError fuel params w = (completion, w')
    /\ (forall e, completion <> Threw e)
    /\ (completion = Diverged ->
        markdownToBlocks fuel (markdown params) (conversionWarnings w) = None
        \/ exists blocks ws w1,
            markdownToBlocks fuel (markdown params) (conversionWarnings w)
            = Some (blocks, ws)
            /\ fetchAllChildBlockIds fuel (pageId params) (mkWorld ws (remote w) (calls w))
               = (Diverged, w1)).
Proof.
  destruct (markdownToBlocks fuel (markdown params) (conversionWarnings w))
    as [[blocks ws]|] eqn:Hconvert.
  2:{ exists Diverged, w. unfold rewritePage, tryCatch. unfold Notion.bind at 1.
      unfold convert. rewrite Hconvert. repeat split; [discriminate | now left]. }
  destruct blocks as [|b blocks'].
  { eexists _, _. unfold rewritePage, tryCatch. unfold Notion.bind at 1.
    unfold convert. rewrite Hconvert. cbn. repeat split; discriminate. }
  rewrite (rewritePage_converted handleNotionError fuel params w Hconvert)
    by discriminate.
  unfold captureExistingBlockIds.
  destruct (validateBeforeDeleteOrDefault params) eqn:Hvalidate.
  - destruct (fetchAllChildBlockIds fuel (pageId params) (mkWorld ws (remote w) (calls w)))
      as [[existingBlockIds|e|] w1] eqn:Hfetch.
    + destruct (appendBlocksInBatches_spec (pageId params) (b :: blocks') w1)
        as (batchResult & w2 & new & chunks & -> & _).
      destruct (negb (success batchResult)).
      * eexists _, _. repeat split; discriminate.
      * unfold deleteCaptured.
        destruct (0 <? length existingBlockIds).
        -- destruct (deleteBlocksByIds_spec_total existingBlockIds w2) as (r & w3 & ->).
           destruct r as [deletedCount deleteErrors].
           eexists _, _. repeat split; discriminate.
        -- cbn. eexists _, _. repeat split; discriminate.
    + eexists _, _. repeat split; discriminate.
    + exists Diverged, w1. repeat split; [discriminate|].
      intros _. right. exists (b :: blocks'), ws, w1. split; [reflexivity | exact Hfetch].
  - cbn [Notion.ret].
    destruct (appendBlocksInBatches_spec (pageId params) (b :: blocks')
                (mkWorld ws (remote w) (calls w)))
      as (batchResult & w2 & new & chunks & -> & _).
    destruct (negb (success batchResult)).
    + eexists _, _. repeat split; discriminate.
    + cbn. eexists _, _. repeat split; discriminate.
Qed.

Lemma rewritePage_never_throws_witness :
  blocks_children_list (Client := unlistableClient) (js "page-1") None 100 tt
  = (inr (js "unauthorized"), tt)
  /\ exists result w',
      rewritePage (H := Fixtures.plainHost) (H0 := Fixtures.paragraphLexer)
                  (H1 := unlistableClient) reportError 2 helloParams unlistableWorld
      = (Returned result, w')
      /\ result = reportError (js "unauthorized").
Proof.
  split; [reflexivity|].
  destruct (@rewritePage_never_throws Fixtures.plainHost Fixtures.paragraphLexer
              unlistableClient reportError 2 helloParams unlistableWorld)
    as (completion & w' & Hrun & Hcaught & _).
  destruct completion as [result|e|].
  - exists result, w'. split; [exact Hrun|].
    vm_compute in Hrun. injection Hrun as <- _. reflexivity.
  - destruct (Hcaught e eq_refl).
  - vm_compute in Hrun. discriminate.
Defined.

(** X17.  A rewrite whose Markdown gives no block changes nothing: the
    run returns the error "Markdown conversion resulted in 0 blocks"
    without a single call to the service.  Blank Markdown is such a
    case, whatever the fuel. *)
Theorem rewritePage_empty_conversion `{JsHost} `{Tokenizer} `{Client}
        (handleNotionError : Error -> CallToolResult)
        (fuel : nat) (params : RewritePageParams) (w : World) :
  (forall ws,
      markdownToBlocks fuel (markdown params) (conversionWarnings w) = Some ([], ws) ->
      rewritePage handleNotionError fuel params w
      = (Returned (mkResult emptyConversionMessage true),
         mkWorld ws (remote w) (calls w)))
  /\ (trim (markdown params) = [] ->
      rewritePage handleNotionError fuel params w
      = (Returned (mkResult emptyConversionMessage true), w)).
Proof.
  assert (Hempty : forall ws,
             markdownToBlocks fuel (markdown params) (conversionWarnings w) = Some ([], ws) ->
             rewritePage handleNotionError fuel params w
             = (Returned (mkResult emptyConversionMessage true),
                mkWorld ws (remote w) (calls w))).
  { intros ws Hconvert. unfold rewritePage, tryCatch. unfold Notion.bind at 1.
    unfold convert. rewrite Hconvert. reflexivity. }
  split; [exact Hempty|].
  intros Hblank. rewrite (Hempty (conversionWarnings w)); [now destruct w|].
  unfold markdownToBlocks. rewrite Hblank. cbn [JS.eqb]. now rewrite orb_true_r.
Qed.

Lemma rewritePage_empty_conversion_witness :
  trim (js "  ") = []
  /\ rewritePage (H := Fixtures.plainHost) (H0 := Fixtures.paragraphLexer)
                 (H1 := Fixtures.acceptingClient) reportError 0
                 (mkParams (js "page-1") (js "  ") None)
                 (@mkWorld Fixtures.acceptingClient [] tt [])
     = (Returned (mkResult emptyConversionMessage true),
        @mkWorld Fixtures.acceptingClient [] tt []).
Proof.
  split; [reflexivity|].
  apply (proj2 (@rewritePage_empty_conversion Fixtures.plainHost Fixtures.paragraphLexer
                  Fixtures.acceptingClient reportError 0
                  (mkParams (js "page-1") (js "  ") None)
                  (@mkWorld Fixtures.acceptingClient [] tt []))).
  reflexivity.
Defined.

(** X18.  When the listing of the existing children fails, the rewrite
    stops there: the run returns what [handleNotionError] makes of the
    error, and the only calls issued are list calls; nothing has been
    appended and nothing deleted. *)
Theorem rewritePage_listing_failure `{JsHost} `{Tokenizer} `{Client}
        (handleNotionError : Error -> CallToolResult)
        (fuel : nat) (params : RewritePageParams) (w : World)
        (blocks : list NotionBlock) (ws : Warnings) (e : Error) (w1 : World) :
  markdownToBlocks fuel (markdown params) (conversionWarnings w) = Some (blocks, ws) ->
  blocks <> [] ->
  captureExistingBlockIds fuel params (mkWorld ws (remote w) (calls w)) = (Threw e, w1) ->
  rewritePage handleNotionError fuel params w = (Returned (handleNotionError e), w1)
  /\ exists lists,
      calls w1 = calls w ++ lists
      /\ forallb isList lists = true
      /\ filter isAppend lists = []
      /\ filter isDelete lists = [].
Proof.
  intros Hconvert Hblocks Hcapture. split.
  - rewrite (rewritePage_converted handleNotionError fuel params w Hconvert Hblocks).
    now rewrite Hcapture.
  - destruct (captureExistingBlockIds_calls fuel params (mkWorld ws (remote w) (calls w)))
      as (lists & Hcalls & Hall).
    rewrite Hcapture in Hcalls. cbn [snd calls] in Hcalls.
    exists lists. repeat split; try assumption.
    + clear - Hall. induction lists as [|c rest IH]; [reflexivity|].
      cbn [forallb] in Hall. apply andb_prop in Hall. destruct Hall as [Hc Hrest].
      destruct c; try discriminate. cbn. now apply IH.
    + now apply no_delete_among_lists.
Qed.

Lemma rewritePage_listing_failure_witness :
  rewritePage (H := Fixtures.plainHost) (H0 := Fixtures.paragraphLexer)
              (H1 := unlistableClient) reportError 2 helloParams unlistableWorld
  = (Returned (mkResult (js "unauthorized") true),
     @mkWorld unlistableClient [] tt [@ListCall unlistableClient (js "page-1") None]).
Proof.
  apply (@rewritePage_listing_failure Fixtures.plainHost Fixtures.paragraphLexer
           unlistableClient reportError 2 helloParams unlistableWorld
           [Paragraph [mkRichText (js "Hello") None]] [] (js "unauthorized")
           (@mkWorld unlistableClient [] tt [@ListCall unlistableClient (js "page-1") None])).
  - reflexivity.
  - discriminate.
  - reflexivity.
Defined.

(** X19.  When the append has succeeded in full, the rewrite deletes
    what it had captured and nothing else: one delete call for every
    captured id, in order, after all the appends.  The run returns a
    result that is no error even when deletes fail; the result reports
    the number of deletes that went through, and that number and the
    number of delete errors add up to the number of captured ids. *)
Theorem rewritePage_deletes_captured_ids `{JsHost} `{Tokenizer} `{Client}
        (handleNotionError : Error -> CallToolResult)
        (fuel : nat) (params : RewritePageParams) (w : World)
        (blocks : list NotionBlock) (ws : Warnings)
        (existingBlockIds : list jsstring) (w1 : World)
        (batchResult : BatchAppendResult) (w2 : World) :
  markdownToBlocks fuel (markdown params) (conversionWarnings w) = Some (blocks, ws) ->
  blocks <> [] ->
  captureExistingBlockIds fuel params (mkWorld ws (remote w) (calls w))
  = (Returned existingBlockIds, w1) ->
  appendBlocksInBatches (pageId params) blocks w1 = (Returned batchResult, w2) ->
  success batchResult = true ->
  exists deletedCount deleteErrors w3 deletes,
    rewritePage handleNotionError fuel params w
    = (Returned (mkResult (successMessage (pageId params) batchResult deletedCount
                                          (getConversionWarnings ws) deleteErrors)
                          false), w3)
    /\ calls w3 = calls w2 ++ deletes
    /\ forallb isDelete deletes = true
    /\ deletedIds deletes = existingBlockIds
    /\ deletedCount = length (filter deleteSucceeded deletes)
    /\ deleteErrors = deleteErrorsOf deletes
    /\ deletedCount + length deleteErrors = length existingBlockIds.
Proof.
  intros Hconvert Hblocks Hcapture Happend Hsuccess.
  rewrite (rewritePage_converted handleNotionError fuel params w Hconvert Hblocks).
  rewrite Hcapture, Happend, Hsuccess. cbn [negb]. unfold deleteCaptured.
  destruct existingBlockIds as [|i ids].
  - cbn [length Nat.ltb Nat.leb Notion.ret].
    exists 0, [], w2, []. rewrite app_nil_r. repeat split.
  - cbn [length Nat.ltb Nat.leb].
    destruct (deleteBlocksByIds_counts (i :: ids) w2)
      as (w3 & deletes & Hrun & Hcalls & Hall & Hids & Hsum).
    rewrite Hrun. eexists _, _, w3, deletes. split; [reflexivity|].
    repeat match goal with |- _ /\ _ => split end; try assumption; reflexivity.
Qed.

Lemma rewritePage_deletes_captured_ids_witness :
  exists text w3,
    rewritePage (H := Fixtures.plainHost) (H0 := Fixtures.paragraphLexer)
                (H1 := pagedClient) reportError 2 helloParams pagedWorld
    = (Returned (mkResult text false), w3)
    /\ skipn 3 (calls w3)
       = [ @DeleteCall pagedClient (js "a") (inl tt);
           @DeleteCall pagedClient (js "b") (inr (js "locked"));
           @DeleteCall pagedClient (js "c") (inl tt) ].
Proof.
  edestruct (@rewritePage_deletes_captured_ids Fixtures.plainHost Fixtures.paragraphLexer
               pagedClient reportError 2 helloParams pagedWorld)
    as (n & errs & w3 & deletes & Hrun & _).
  - reflexivity.
  - discriminate.
  - vm_compute. reflexivity.
  - vm_compute. reflexivity.
  - reflexivity.
  - eexists _, w3. split; [exact Hrun|].
    vm_compute in Hrun. injection Hrun as _ <-. reflexivity.
Defined.

(** ** Properties of the append tool *)

Section AppendToolRuns.
Context `{JsHost} `{Tokenizer} `{Client}.
Variable handleNotionError : Error -> AppendTool.ToolResponse.
Variable stringifyResponse : Response -> jsstring.

Lemma appendBlockChildren_resolved (fuel : nat)
      (params : AppendTool.AppendBlockChildrenParams) (w : World)
      (blocks : list NotionBlock) (ws : Warnings) :
  resolvesTo fuel params w blocks ws ->
  let fromMarkdown := AppendTool.given (AppendTool.markdown params) in
  let warnings := if fromMarkdown then getConversionWarnings ws else [] in
  let w0 := mkWorld ws (remote w) (calls w) in
  AppendTool.appendBlockChildren handleNotionError stringifyResponse fuel params w
  = if NOTION_BLOCK_LIMIT <? length blocks then
      match appendBlocksInBatches (AppendTool.blockId params) blocks w0 with
      | (Returned batchResult, w2) =>
          (Returned
             (AppendTool.mkResponse
                [join newline (AppendTool.batchMessages (AppendTool.blockId params)
                                 batchResult fromMarkdown warnings)]
                (Some (negb (success batchResult)))), w2)
      | (Threw e, w2) => (Returned (handleNotionError e), w2)
      | (Diverged, w2) => (Diverged, w2)
      end
    else
      match childrenAppend (AppendTool.blockId params) blocks w0 with
      | (Returned response, w2) =>
          (Returned
             (AppendTool.mkResponse
                [ join newline (AppendTool.standardMessages (AppendTool.blockId params)
                                  blocks fromMarkdown warnings);
                  js "Response: " ++ stringifyResponse response ]
                None), w2)
      | (Threw e, w2) => (Returned (handleNotionError e), w2)
      | (Diverged, w2) => (Diverged, w2)
      end.
Proof.
  intros Hresolves. cbv zeta.
  unfold AppendTool.appendBlockChildren, tryCatch.
  destruct Hresolves as [(Hchildren & Hmarkdown & ->)|(md & Hchildren & Hmarkdown & Hmd & Hconvert)].
  - rewrite Hchildren, Hmarkdown. cbn [AppendTool.provided andb negb].
    unfold Notion.bind at 1. unfold Notion.ret at 1.
    replace (mkWorld (conversionWarnings w) (remote w) (calls w)) with w
      by (now destruct w).
    destruct (NOTION_BLOCK_LIMIT <? length blocks).
    + unfold Notion.bind at 1.
      destruct (appendBlocksInBatches (AppendTool.blockId params) blocks w)
        as [[batchResult|e|] w2]; reflexivity.
    + unfold Notion.bind at 1.
      destruct (childrenAppend (AppendTool.blockId params) blocks w)
        as [[response|e|] w2]; reflexivity.
  - rewrite Hchildren, Hmarkdown. cbn [AppendTool.provided AppendTool.given andb negb].
    rewrite Hmd. cbn [andb negb].
    unfold Notion.bind at 1. unfold Notion.bind at 1. unfold convert.
    rewrite Hconvert. unfold Notion.bind at 1. unfold readWarnings.
    cbn [conversionWarnings]. unfold Notion.ret at 1.
    destruct (NOTION_BLOCK_LIMIT <? length blocks).
    + unfold Notion.bind at 1.
      destruct (appendBlocksInBatches (AppendTool.blockId params) blocks _)
        as [[batchResult|e|] w2]; reflexivity.
    + unfold Notion.bind at 1.
      destruct (childrenAppend (AppendTool.blockId params) blocks _)
        as [[response|e|] w2]; reflexivity.
Qed.

End AppendToolRuns.

(** X20.  [appendBlockChildren] wants exactly one source of blocks.
    Given both children and Markdown it returns the error "Cannot use
    both", given neither the error "Either ... is required"; an empty
    Markdown string counts as not given.  In both cases it calls
    nothing and converts nothing. *)
Theorem appendBlockChildren_requires_one_source `{JsHost} `{Tokenizer} `{Client}
        (handleNotionError : Error -> AppendTool.ToolResponse)
        (stringifyResponse : Response -> jsstring)
        (fuel : nat) (params : AppendTool.AppendBlockChildrenParams) (w : World) :
  (AppendTool.children params <> None ->
   AppendTool.given (AppendTool.markdown params) = true ->
   AppendTool.appendBlockChildren handleNotionError stringifyResponse fuel params w
   = (Returned (AppendTool.mkResponse
                  [js "Error: Cannot use both 'children' and 'markdown' parameters. Please use only one."]
                  (Some true)), w))
  /\ (AppendTool.children params = None ->
      AppendTool.markdown params = None \/ AppendTool.markdown params = Some [] ->
      AppendTool.appendBlockChildren handleNotionError stringifyResponse fuel params w
      = (Returned (AppendTool.mkResponse
                     [js "Error: Either 'children' or 'markdown' parameter is required."]
                     (Some true)), w)).
Proof.
  unfold AppendTool.appendBlockChildren, tryCatch. split.
  - intros Hchildren Hmarkdown.
    destruct (AppendTool.children params); [|now destruct Hchildren].
    rewrite Hmarkdown. reflexivity.
  - intros Hchildren Hmarkdown. rewrite Hchildren.
    destruct Hmarkdown as [->| ->]; reflexivity.
Qed.

Lemma appendBlockChildren_requires_one_source_witness :
  AppendTool.appendBlockChildren (H1 := Fixtures.acceptingClient)
    (H := Fixtures.plainHost) (H0 := Fixtures.paragraphLexer)
    plainError (fun _ => []) 2
    (AppendTool.mkAppendParams (js "page-1") None (Some []))
    (@mkWorld Fixtures.acceptingClient [] tt [])
  = (Returned (AppendTool.mkResponse
                 [js "Error: Either 'children' or 'markdown' parameter is required."]
                 (Some true)),
     @mkWorld Fixtures.acceptingClient [] tt []).
Proof.
  apply (proj2 (@appendBlockChildren_requires_one_source Fixtures.plainHost
                  Fixtures.paragraphLexer Fixtures.acceptingClient plainError
                  (fun _ => []) 2
                  (AppendTool.mkAppendParams (js "page-1") None (Some []))
                  (@mkWorld Fixtures.acceptingClient [] tt []))).
  - reflexivity.
  - right. reflexivity.
Defined.

(** X21.  Given exactly one source of blocks, and fuel for the walk
    over the Markdown when that is the source, [appendBlockChildren]
    returns a result: the conversion comes to an end and no error of
    the service gets out.  It sends every block once and in order, to
    the container, never more than 100 in a request: one request when
    there are at most 100 blocks, also when there are none, and
    [ceil(N/100)] requests otherwise. *)
Theorem appendBlockChildren_sends_all_in_order `{JsHost} `{Tokenizer} `{Client}
        (handleNotionError : Error -> AppendTool.ToolResponse)
        (stringifyResponse : Response -> jsstring)
        (fuel : nat) (params : AppendTool.AppendBlockChildrenParams) (w : World) :
  oneSource params ->
  coversMarkdown fuel params ->
  exists blocks ws result w' new,
    resolvesTo fuel params w blocks ws
    /\ AppendTool.appendBlockChildren handleNotionError stringifyResponse fuel params w
       = (Returned result, w')
    /\ calls w' = calls w ++ new
    /\ forallb (appendsTo (AppendTool.blockId params)) new = true
    /\ concat (flat_map appendedChildren new) = blocks
    /\ Forall (fun children => length children <= 100) (flat_map appendedChildren new)
    /\ length new = (if length blocks <=? 100 then 1 else (length blocks + 99) / 100)
    /\ (100 < length blocks ->
        AppendTool.isError result = Some (existsb appendFailed new)).
Proof.
  intros Hone Hfuel.
  assert (Hsource : exists blocks ws, resolvesTo fuel params w blocks ws).
  { unfold oneSource, coversMarkdown, resolvesTo in *.
    destruct (AppendTool.children params) as [given|].
    - cbn [AppendTool.provided xorb] in Hone. apply negb_true_iff in Hone.
      exists given, (conversionWarnings w). left. repeat split. exact Hone.
    - cbn [AppendTool.provided xorb] in Hone.
      destruct (AppendTool.markdown params) as [md|]; [|discriminate].
      cbn [AppendTool.given] in Hone.
      destruct (markdownToBlocks_total md (conversionWarnings w) Hfuel)
        as ([blocks ws] & Hconvert).
      exists blocks, ws. right. exists md. repeat split; assumption. }
  destruct Hsource as (blocks & ws & Hresolves).
  rewrite (appendBlockChildren_resolved handleNotionError stringifyResponse Hresolves).
  unfold NOTION_BLOCK_LIMIT.
  destruct (100 <? length blocks) eqn:Hbig.
  - apply Nat.ltb_lt in Hbig.
    destruct (appendBlocksInBatches_spec (AppendTool.blockId params) blocks
                (mkWorld ws (remote w) (calls w)))
      as (batchResult & w2 & new & chunks & -> & Hchunks & Hcalls & _ & Hflat & Hto & Hres & Hlen).
    change (chunkBlocks blocks None) with (chunkBlocks blocks (Some 100)) in Hchunks.
    destruct (@chunkBlocks_spec NotionBlock blocks 100)
      as (chunks' & Heq & Hcat & Hle & Hlo & Hhi); [lia|].
    rewrite Hchunks in Heq. injection Heq as <-.
    exists blocks, ws. eexists _, w2, new. split; [exact Hresolves|]. split; [reflexivity|].
    repeat match goal with |- _ /\ _ => split end; try assumption.
    + now rewrite Hflat.
    + now rewrite Hflat.
    + replace (length blocks <=? 100) with false by (symmetry; apply Nat.leb_gt; lia).
      rewrite Hlen. specialize (Hhi ltac:(lia)).
      apply Nat.div_unique with (r := length blocks + 99 - 100 * length chunks); lia.
    + intros _. cbn [AppendTool.isError]. f_equal. subst batchResult. cbn [success].
      destruct (existsb appendFailed new) eqn:Hfailed.
      * destruct (length (failuresFrom 0 new) =? 0) eqn:Hnone; [|reflexivity].
        apply Nat.eqb_eq in Hnone. apply failuresFrom_none in Hnone. congruence.
      * apply failuresFrom_none with (i := 0) in Hfailed. now rewrite Hfailed.
  - apply Nat.ltb_ge in Hbig.
    unfold childrenAppend. cbn [remote conversionWarnings calls].
    destruct (blocks_children_append (AppendTool.blockId params) blocks (remote w))
      as [[response|e] remote']; cbn [settle];
      (exists blocks, ws; eexists _, _, [AppendCall (AppendTool.blockId params) blocks _];
       split; [exact Hresolves|]; split; [reflexivity|];
       cbn [calls flat_map appendedChildren app concat forallb appendsTo length];
       rewrite eqb_refl, app_nil_r;
       replace (length blocks <=? 100) with true by (symmetry; apply Nat.leb_le; lia);
       repeat match goal with |- _ /\ _ => split end; try reflexivity;
       [constructor; [exact Hbig | constructor] | intros Hmore; lia]).
Qed.

Lemma appendBlockChildren_sends_all_in_order_witness :
  oneSource (AppendTool.mkAppendParams (js "page-1") None (Some (js "Hello")))
  /\ coversMarkdown (H := Fixtures.paragraphLexer) 5
       (AppendTool.mkAppendParams (js "page-1") None (Some (js "Hello")))
  /\ exists w',
      AppendTool.appendBlockChildren (H1 := Fixtures.refusingClient)
        (H := Fixtures.plainHost) (H0 := Fixtures.paragraphLexer)
        plainError (fun _ => []) 5
        (AppendTool.mkAppendParams (js "page-1") None (Some (js "Hello")))
        freshWorld
      = (Returned (plainError (js "validation_error")), w')
      /\ List.map appendedChildren (calls w')
         = [[[Paragraph [mkRichText (js "Hello") None]]]].
Proof.
  assert (Hone : oneSource
                   (AppendTool.mkAppendParams (js "page-1") None (Some (js "Hello"))))
    by reflexivity.
  assert (Hfuel : coversMarkdown (H := Fixtures.paragraphLexer) 5
                    (AppendTool.mkAppendParams (js "page-1") None (Some (js "Hello"))))
    by (vm_compute; lia).
  split; [exact Hone|]. split; [exact Hfuel|].
  destruct (@appendBlockChildren_sends_all_in_order Fixtures.plainHost
              Fixtures.paragraphLexer Fixtures.refusingClient plainError (fun _ => []) 5
              (AppendTool.mkAppendParams (js "page-1") None (Some (js "Hello")))
              freshWorld Hone Hfuel)
    as (blocks & ws & result & w' & new & _ & Hrun & _).
  exists w'. vm_compute in Hrun. injection Hrun as <- <-. split; reflexivity.
Defined.

(** * Properties of the read tools *)

Section ReadToolRuns.
Context `{ReadTools.Reader}.

Lemma cut_at_limit (md : jsstring) (m : Z) :
(0 <= m)%Z ->
(m < Z.of_nat (length md))%Z ->
ReadTools.sliceTo md (ReadTools.Int m) = firstn (Z.to_nat m) md
/\ length (firstn (Z.to_nat m) md) = Z.to_nat m.
Proof.
intros Hpos Hlong. unfold ReadTools.sliceTo.
replace (m <? 0)%Z with false by (symmetry; apply Z.ltb_ge; exact Hpos).
split; [reflexivity|]. apply firstn_length_le. lia.
Qed.

Lemma entryUnder_bounded (m : Z) (entry : ReadTools.SearchResultWithMarkdown) :
(0 <= m)%Z ->
entryUnder (ReadTools.Int m) entry ->
length (ReadTools.withMarkdown entry) <= Nat.max (Z.to_nat m + 16) 43.
Proof.
intros Hpos [[-> _] | (md & [(Hlong & -> & _) | (Hshort & -> & _)])].
- change (length ReadTools.conversionFailedMark) with 43. lia.
- cbn [ReadTools.longerThan] in Hlong. apply Z.ltb_lt in Hlong.
  destruct (cut_at_limit md Hpos Hlong) as [-> Hlen].
  rewrite length_app, Hlen. change (length ReadTools.truncationMark) with 16. lia.
- cbn [ReadTools.longerThan] in Hshort. apply Z.ltb_ge in Hshort. lia.
Qed.

Lemma searchLoop_entries (maxChars : ReadTools.ParsedInt)
    (found : list ReadTools.SearchResult) :
forall (acc : list ReadTools.SearchResultWithMarkdown) (w : World),
exists new w',
  ReadTools.searchLoop found maxChars acc w = (Returned (acc ++ new), w')
  /\ calls w' = calls w
  /\ conversionWarnings w' = conversionWarnings w
  /\ List.map ReadTools.withId new
     = List.map ReadTools.resultId (filter isPage found)
  /\ List.map ReadTools.withUrl new
     = List.map ReadTools.url (filter isPage found)
  /\ List.map ReadTools.withTitle new
     = List.map ReadTools.pageTitle (filter isPage found)
  /\ Forall (entryUnder maxChars) new.
Proof.
induction found as [|result rest IH]; intros acc w.
- exists [], w. cbn. rewrite app_nil_r. repeat split; constructor.
- cbn [ReadTools.searchLoop filter].
  change (JS.eqb (ReadTools.object result) (js "page")) with (isPage result).
  destruct (isPage result) eqn:Hpage; cbn [negb]; [|apply IH].
  unfold Notion.bind at 1, tryCatch, Notion.bind, ReadTools.remoteCall.
  assert (Hstep : forall entry remote1,
             entryUnder maxChars entry ->
             ReadTools.withId entry = ReadTools.resultId result ->
             ReadTools.withUrl entry = ReadTools.url result ->
             ReadTools.withTitle entry = ReadTools.pageTitle result ->
             exists new w',
               ReadTools.searchLoop rest maxChars (acc ++ [entry])
                 (mkWorld (conversionWarnings w) remote1 (calls w))
               = (Returned (acc ++ new), w')
               /\ calls w' = calls w
               /\ conversionWarnings w' = conversionWarnings w
               /\ List.map ReadTools.withId new
                  = List.map ReadTools.resultId (result :: filter isPage rest)
               /\ List.map ReadTools.withUrl new
                  = List.map ReadTools.url (result :: filter isPage rest)
               /\ List.map ReadTools.withTitle new
                  = List.map ReadTools.pageTitle (result :: filter isPage rest)
               /\ Forall (entryUnder maxChars) new).
  { intros entry remote1 Hentry Hid Hurl Htitle.
    destruct (IH (acc ++ [entry]) (mkWorld (conversionWarnings w) remote1 (calls w)))
      as (new & w' & Hrun & Hcalls & Hws & Hids & Hurls & Htitles & Hall).
    exists (entry :: new), w'.
    split; [rewrite Hrun, <- app_assoc; reflexivity|].
    cbn [List.map]. rewrite Hids, Hurls, Htitles, Hid, Hurl, Htitle.
    repeat split; try assumption. now constructor. }
  destruct (ReadTools.pageToMarkdown (ReadTools.resultId result) (remote w))
    as [[md|e] remote1]; cbn [settle].
  + destruct (ReadTools.longerThan md maxChars) eqn:Hlong; cbn [Notion.ret];
      apply Hstep; try reflexivity; right; exists md; [left | right];
      repeat split; assumption.
  + cbn [Notion.ret]. apply Hstep; try reflexivity. left. split; reflexivity.
Qed.

Lemma searchLoop_answers (maxChars : ReadTools.ParsedInt)
    (found : list ReadTools.SearchResult) :
forall (acc : list ReadTools.SearchResultWithMarkdown) (w : World),
exists new w',
  ReadTools.searchLoop found maxChars acc w = (Returned (acc ++ new), w')
  /\ answersPages maxChars (filter isPage found) (remote w) new (remote w').
Proof.
induction found as [|result rest IH]; intros acc w.
- exists [], w. cbn. rewrite app_nil_r. split; [reflexivity | constructor].
- cbn [ReadTools.searchLoop filter].
  change (JS.eqb (ReadTools.object result) (js "page")) with (isPage result).
  destruct (isPage result) eqn:Hpage; cbn [negb]; [|apply IH].
  unfold Notion.bind at 1, tryCatch, Notion.bind, ReadTools.remoteCall.
  destruct (ReadTools.pageToMarkdown (ReadTools.resultId result) (remote w))
    as [[md|e] remote1] eqn:Hconvert; cbn [settle].
  + assert (Hentry :
              (let '(markdown, truncated) :=
                 if ReadTools.longerThan md maxChars
                 then (ReadTools.sliceTo md maxChars ++ ReadTools.truncationMark, true)
                 else (md, false) in
               Notion.ret
                 (acc ++ [ReadTools.mkWithMarkdown (ReadTools.resultId result)
                            (ReadTools.url result) (ReadTools.pageTitle result)
                            markdown truncated]))
              = Notion.ret
                  (acc ++ [ReadTools.mkWithMarkdown (ReadTools.resultId result)
                             (ReadTools.url result) (ReadTools.pageTitle result)
                             (cutAt maxChars md) (ReadTools.longerThan md maxChars)])).
    { unfold cutAt. now destruct (ReadTools.longerThan md maxChars). }
    rewrite Hentry. cbn [Notion.ret].
    match goal with
    | |- context [ReadTools.searchLoop rest maxChars (acc ++ [?entry]) ?w1] =>
        destruct (IH (acc ++ [entry]) w1) as (new & w' & Hrun & Hanswers);
        exists (entry :: new), w'
    end.
    split; [rewrite Hrun, <- app_assoc; reflexivity|].
    eapply answers_converted; [exact Hconvert | exact Hanswers].
  + cbn [Notion.ret].
    match goal with
    | |- context [ReadTools.searchLoop rest maxChars (acc ++ [?entry]) ?w1] =>
        destruct (IH (acc ++ [entry]) w1) as (new & w' & Hrun & Hanswers);
        exists (entry :: new), w'
    end.
    split; [rewrite Hrun, <- app_assoc; reflexivity|].
    eapply answers_failed; [exact Hconvert | exact Hanswers].
Qed.

Lemma searchPages_markdown_run (params : ReadTools.SearchPagesParams) (w : World)
    (response : ReadTools.SearchResponse) (remote' : Remote) :
wantsMarkdown (ReadTools.searchMarkdownParam params) = true ->
searchOf params (remote w) = (inl response, remote') ->
exists entries w',
  ReadTools.searchPages params w
  = (Returned
       (ReadTools.mkResponse
          [ReadTools.stringifySummary
             (ReadTools.mkSummary (length (ReadTools.searchResults response))
                                  (ReadTools.searchHasMore response)
                                  (ReadTools.searchNextCursor response)
                                  entries)]
          None), w')
  /\ calls w' = calls w
  /\ List.map ReadTools.withId entries
     = List.map ReadTools.resultId (filter isPage (ReadTools.searchResults response))
  /\ List.map ReadTools.withUrl entries
     = List.map ReadTools.url (filter isPage (ReadTools.searchResults response))
  /\ List.map ReadTools.withTitle entries
     = List.map ReadTools.pageTitle (filter isPage (ReadTools.searchResults response))
  /\ Forall (entryUnder ReadTools.getMarkdownMaxChars) entries.
Proof.
intros Hmode Hsearch.
unfold ReadTools.searchPages, tryCatch, Notion.bind at 1, ReadTools.remoteCall.
unfold searchOf in Hsearch. rewrite Hsearch. cbn [settle].
unfold wantsMarkdown in Hmode. rewrite Hmode.
unfold Notion.bind.
destruct (searchLoop_entries ReadTools.getMarkdownMaxChars
            (ReadTools.searchResults response) []
            (mkWorld (conversionWarnings w) remote' (calls w)))
  as (new & w' & Hrun & Hcalls & _ & Hids & Hurls & Htitles & Hall).
rewrite Hrun. cbn [app Notion.ret].
exists new, w'. repeat split; assumption.
Qed.

(** X22.  Read as Markdown under a limit of [m] characters, [m] not
  negative, the children of a block come back as at most [m + 16]
  code units: the Markdown itself and unflagged when it fits, its
  first [m] code units followed by the truncation mark and flagged
  when it does not. *)
Theorem retrieveBlockChildren_markdown_bounded
      (params : ReadTools.RetrieveBlockChildrenParams) (w : World)
      (md : jsstring) (remote' : Remote) (m : Z) :
wantsMarkdown (ReadTools.useMarkdownParam params) = true ->
ReadTools.blockToMarkdown (ReadTools.blockId params) (remote w) = (inl md, remote') ->
ReadTools.getMarkdownMaxChars = ReadTools.Int m ->
(0 <= m)%Z ->
exists out,
  ReadTools.retrieveBlockChildren params w
  = (Returned
       (ReadTools.mkResponse
          [ReadTools.stringifyEnvelope
             (ReadTools.mkEnvelope (ReadTools.blockId params) [] out
                                   (m <? Z.of_nat (length md))%Z)]
          None),
     mkWorld (conversionWarnings w) remote' (calls w))
  /\ length out <= Z.to_nat m + 16
  /\ firstn (Z.to_nat m) out = firstn (Z.to_nat m) md
  /\ ((Z.of_nat (length md) <= m)%Z -> out = md)
  /\ ((m < Z.of_nat (length md))%Z ->
      out = firstn (Z.to_nat m) md ++ ReadTools.truncationMark).
Proof.
intros Hmode Hconvert Hlimit Hpos.
unfold ReadTools.retrieveBlockChildren, tryCatch, Notion.bind, ReadTools.remoteCall.
unfold wantsMarkdown in Hmode. rewrite Hmode, Hconvert, Hlimit.
cbn [settle ReadTools.longerThan].
destruct (m <? Z.of_nat (length md))%Z eqn:Hlong.
- apply Z.ltb_lt in Hlong.
  destruct (cut_at_limit md Hpos Hlong) as [Hslice Hlen].
  rewrite Hslice.
  exists (firstn (Z.to_nat m) md ++ ReadTools.truncationMark).
  split; [reflexivity|]. repeat split.
  + rewrite length_app, Hlen. change (length ReadTools.truncationMark) with 16. lia.
  + rewrite firstn_app, Hlen, Nat.sub_diag, firstn_firstn, Nat.min_id.
    cbn [firstn]. apply app_nil_r.
  + intros Hfits. lia.
- apply Z.ltb_ge in Hlong.
  exists md. split; [reflexivity|]. repeat split.
  + lia.
  + intros Hmore. lia.
Qed.

(** X23.  When the configured limit is not a number, or is positive
  infinity, nothing is cut: the Markdown of the block comes back
  whole and unflagged, however long it is.  At negative infinity
  nothing of it is kept: what comes back is the truncation mark
  alone, flagged as truncated. *)
Theorem retrieveBlockChildren_without_limit
      (params : ReadTools.RetrieveBlockChildrenParams) (w : World)
      (md : jsstring) (remote' : Remote) :
wantsMarkdown (ReadTools.useMarkdownParam params) = true ->
ReadTools.blockToMarkdown (ReadTools.blockId params) (remote w) = (inl md, remote') ->
(ReadTools.getMarkdownMaxChars = ReadTools.NaN
 \/ ReadTools.getMarkdownMaxChars = ReadTools.Infinite false ->
 ReadTools.retrieveBlockChildren params w
 = (Returned
      (ReadTools.mkResponse
         [ReadTools.stringifyEnvelope
            (ReadTools.mkEnvelope (ReadTools.blockId params) [] md false)]
         None),
    mkWorld (conversionWarnings w) remote' (calls w)))
/\ (ReadTools.getMarkdownMaxChars = ReadTools.Infinite true ->
    ReadTools.retrieveBlockChildren params w
    = (Returned
         (ReadTools.mkResponse
            [ReadTools.stringifyEnvelope
               (ReadTools.mkEnvelope (ReadTools.blockId params) []
                                     ReadTools.truncationMark true)]
            None),
       mkWorld (conversionWarnings w) remote' (calls w))).
Proof.
intros Hmode Hconvert.
unfold ReadTools.retrieveBlockChildren, tryCatch, Notion.bind, ReadTools.remoteCall.
unfold wantsMarkdown in Hmode. rewrite Hmode, Hconvert.
split.
- intros [-> | ->]; reflexivity.
- intros ->. reflexivity.
Qed.

(** X24.  Under a negative limit every Markdown reading is flagged as
  truncated, the empty one too: what comes back is the Markdown
  without its last [-m] code units, followed by the truncation
  mark. *)
Theorem retrieveBlockChildren_negative_limit
      (params : ReadTools.RetrieveBlockChildrenParams) (w : World)
      (md : jsstring) (remote' : Remote) (m : Z) :
wantsMarkdown (ReadTools.useMarkdownParam params) = true ->
ReadTools.blockToMarkdown (ReadTools.blockId params) (remote w) = (inl md, remote') ->
ReadTools.getMarkdownMaxChars = ReadTools.Int m ->
(m < 0)%Z ->
ReadTools.retrieveBlockChildren params w
= (Returned
     (ReadTools.mkResponse
        [ReadTools.stringifyEnvelope
           (ReadTools.mkEnvelope (ReadTools.blockId params) []
              (firstn (length md - Z.to_nat (- m)) md ++ ReadTools.truncationMark)
              true)]
        None),
   mkWorld (conversionWarnings w) remote' (calls w)).
Proof.
intros Hmode Hconvert Hlimit Hneg.
unfold ReadTools.retrieveBlockChildren, tryCatch, Notion.bind, ReadTools.remoteCall.
unfold wantsMarkdown in Hmode. rewrite Hmode, Hconvert, Hlimit.
cbn [settle ReadTools.longerThan ReadTools.sliceTo].
replace (m <? Z.of_nat (length md))%Z with true by (symmetry; apply Z.ltb_lt; lia).
replace (m <? 0)%Z with true by (symmetry; apply Z.ltb_lt; lia).
replace (Z.to_nat (Z.max 0 (Z.of_nat (length md) + m)))
  with (length md - Z.to_nat (- m)) by lia.
reflexivity.
Qed.

(** X25.  [retrieveBlockChildren] never lets an error out: it always
  returns a response, and when the conversion or the listing fails,
  that response is what the error handler makes of the error. *)
Theorem retrieveBlockChildren_never_throws
      (params : ReadTools.RetrieveBlockChildrenParams) (w : World) :
exists response w',
  ReadTools.retrieveBlockChildren params w = (Returned response, w')
  /\ (forall e remote',
         wantsMarkdown (ReadTools.useMarkdownParam params) = true ->
         ReadTools.blockToMarkdown (ReadTools.blockId params) (remote w)
         = (inr e, remote') ->
         response = ReadTools.handleNotionError e /\ remote w' = remote')
  /\ (forall e remote',
         wantsMarkdown (ReadTools.useMarkdownParam params) = false ->
         ReadTools.listChildren (ReadTools.blockId params)
           (ReadTools.start_cursor params) (ReadTools.page_size params) (remote w)
         = (inr e, remote') ->
         response = ReadTools.handleNotionError e /\ remote w' = remote').
Proof.
unfold ReadTools.retrieveBlockChildren, tryCatch, Notion.bind, ReadTools.remoteCall,
  ReadTools.childrenListOf, wantsMarkdown.
destruct (match ReadTools.useMarkdownParam params with
          | Some m => m
          | None => ReadTools.getMarkdownDefaultForRead
          end).
- destruct (ReadTools.blockToMarkdown (ReadTools.blockId params) (remote w))
    as [[md|e] remote1]; cbn [settle].
  + destruct (ReadTools.longerThan md ReadTools.getMarkdownMaxChars);
      eexists _, _; (split; [reflexivity|]); split; discriminate.
  + eexists _, _. split; [reflexivity|].
    split; [|intros e' remote' Hmode; discriminate].
    intros e' remote' _ Heq. injection Heq as <- <-. split; reflexivity.
- destruct (ReadTools.listChildren (ReadTools.blockId params)
              (ReadTools.start_cursor params) (ReadTools.page_size params) (remote w))
    as [[response|e] remote1]; cbn [settle].
  + eexists _, _. split; [reflexivity|]. split; discriminate.
  + eexists _, _. split; [reflexivity|].
    split; [intros e' remote' Hmode; discriminate|].
    intros e' remote' _ Heq. injection Heq as <- <-. split; reflexivity.
Qed.

(** X26.  A search answered in Markdown lists one entry for every
  result that is a page, in the order of the results and with the
  page's id, url and title, whether or not the page could be
  converted; results that are not pages are left out, though the
  total still counts them.  The pages are converted one after the
  other, starting from the state the search left: the entry of a
  page that converts holds the Markdown that conversion gave, whole
  or cut at the limit and flagged accordingly, the entry of a page
  that does not holds the failure mark. *)
Theorem searchPages_one_entry_per_page
      (params : ReadTools.SearchPagesParams) (w : World)
      (response : ReadTools.SearchResponse) (remote' : Remote) :
wantsMarkdown (ReadTools.searchMarkdownParam params) = true ->
searchOf params (remote w) = (inl response, remote') ->
exists entries w',
  ReadTools.searchPages params w
  = (Returned
       (ReadTools.mkResponse
          [ReadTools.stringifySummary
             (ReadTools.mkSummary (length (ReadTools.searchResults response))
                                  (ReadTools.searchHasMore response)
                                  (ReadTools.searchNextCursor response)
                                  entries)]
          None), w')
  /\ List.map ReadTools.withId entries
     = List.map ReadTools.resultId (filter isPage (ReadTools.searchResults response))
  /\ List.map ReadTools.withUrl entries
     = List.map ReadTools.url (filter isPage (ReadTools.searchResults response))
  /\ List.map ReadTools.withTitle entries
     = List.map ReadTools.pageTitle (filter isPage (ReadTools.searchResults response))
  /\ answersPages ReadTools.getMarkdownMaxChars
       (filter isPage (ReadTools.searchResults response)) remote' entries (remote w')
  /\ Forall (entryUnder ReadTools.getMarkdownMaxChars) entries.
Proof.
intros Hmode Hsearch.
unfold ReadTools.searchPages, tryCatch, Notion.bind at 1, ReadTools.remoteCall.
unfold searchOf in Hsearch. rewrite Hsearch. cbn [settle].
unfold wantsMarkdown in Hmode. rewrite Hmode.
unfold Notion.bind.
destruct (searchLoop_entries ReadTools.getMarkdownMaxChars
            (ReadTools.searchResults response) []
            (mkWorld (conversionWarnings w) remote' (calls w)))
  as (new & w' & Hrun & Hcalls & _ & Hids & Hurls & Htitles & Hall).
destruct (searchLoop_answers ReadTools.getMarkdownMaxChars
            (ReadTools.searchResults response) []
            (mkWorld (conversionWarnings w) remote' (calls w)))
  as (new2 & w2 & Hrun2 & Hanswers).
rewrite Hrun in Hrun2. cbn [app] in Hrun2. injection Hrun2 as <- <-.
rewrite Hrun. cbn [app Notion.ret].
exists new, w'. repeat split; assumption.
Qed.

(** X27.  Under a limit of [m] characters, [m] not negative, no entry
  of a search answered in Markdown holds more than [m + 16] code
  units of Markdown, or the 43 of the failure mark when that is
  more. *)
Theorem searchPages_entries_bounded
      (params : ReadTools.SearchPagesParams) (w : World)
      (response : ReadTools.SearchResponse) (remote' : Remote) (m : Z) :
wantsMarkdown (ReadTools.searchMarkdownParam params) = true ->
searchOf params (remote w) = (inl response, remote') ->
ReadTools.getMarkdownMaxChars = ReadTools.Int m ->
(0 <= m)%Z ->
exists entries w',
  ReadTools.searchPages params w
  = (Returned
       (ReadTools.mkResponse
          [ReadTools.stringifySummary
             (ReadTools.mkSummary (length (ReadTools.searchResults response))
                                  (ReadTools.searchHasMore response)
                                  (ReadTools.searchNextCursor response)
                                  entries)]
          None), w')
  /\ Forall (fun entry => length (ReadTools.withMarkdown entry)
                          <= Nat.max (Z.to_nat m + 16) 43) entries.
Proof.
intros Hmode Hsearch Hlimit Hpos.
destruct (searchPages_markdown_run params w Hmode Hsearch)
  as (entries & w' & Hrun & _ & _ & _ & _ & Hall).
exists entries, w'. split; [exact Hrun|].
rewrite Hlimit in Hall.
eapply Forall_impl; [|exact Hall].
intros entry Hentry. now apply entryUnder_bounded.
Qed.

(** X28.  [searchPages] never lets an error out: it always returns a
  response, whatever the search and the conversions of the pages
  do, and when the search itself fails no page is converted and the
  response is what the error handler makes of the error. *)
Theorem searchPages_never_throws
      (params : ReadTools.SearchPagesParams) (w : World) :
exists response w',
  ReadTools.searchPages params w = (Returned response, w')
  /\ (forall e remote',
         searchOf params (remote w) = (inr e, remote') ->
         response = ReadTools.handleNotionError e /\ remote w' = remote').
Proof.
unfold ReadTools.searchPages, tryCatch, Notion.bind at 1, ReadTools.remoteCall, searchOf.
destruct (ReadTools.search _ _ _ _ (remote w)) as [[response|e] remote1]; cbn [settle].
- destruct (match ReadTools.searchMarkdownParam params with
            | Some m => m
            | None => ReadTools.getMarkdownDefaultForRead
            end).
  + unfold Notion.bind.
    destruct (searchLoop_entries ReadTools.getMarkdownMaxChars
                (ReadTools.searchResults response) []
                (mkWorld (conversionWarnings w) remote1 (calls w)))
      as (new & w' & Hrun & Hcalls & _).
    rewrite Hrun. eexists _, _. split; [reflexivity | discriminate].
  + eexists _, _. split; [reflexivity | discriminate].
- eexists _, _. split; [reflexivity|].
  intros e' remote' Heq. injection Heq as <- <-. split; reflexivity.
Qed.

End ReadToolRuns.

Lemma retrieveBlockChildren_markdown_bounded_witness :
  exists w',
    @ReadTools.retrieveBlockChildren _ (fixedReader (ReadTools.Int 4))
      (ReadTools.mkRetrieveParams (js "b1") (Some true) None None) readWorld
    = (Returned (ReadTools.mkResponse
                   [js "0123" ++ ReadTools.truncationMark] None), w').
Proof.
  destruct (@retrieveBlockChildren_markdown_bounded Fixtures.acceptingClient
              (fixedReader (ReadTools.Int 4))
              (ReadTools.mkRetrieveParams (js "b1") (Some true) None None)
              readWorld (js "0123456789") tt 4%Z)
    as (out & Hrun & _ & _ & _ & Hcut); try reflexivity; [lia|].
  rewrite Hcut in Hrun by (cbn; lia).
  eexists. exact Hrun.
Defined.

Lemma retrieveBlockChildren_without_limit_witness :
  (exists w',
      @ReadTools.retrieveBlockChildren _ (fixedReader ReadTools.NaN)
        (ReadTools.mkRetrieveParams (js "b1") (Some true) None None) readWorld
      = (Returned (ReadTools.mkResponse [js "0123456789"] None), w'))
  /\ (exists w',
         @ReadTools.retrieveBlockChildren _ (fixedReader (ReadTools.Infinite true))
           (ReadTools.mkRetrieveParams (js "b1") (Some true) None None) readWorld
         = (Returned (ReadTools.mkResponse [ReadTools.truncationMark] None), w')).
Proof.
  split; eexists.
  - apply (proj1 (@retrieveBlockChildren_without_limit Fixtures.acceptingClient
                    (fixedReader ReadTools.NaN)
                    (ReadTools.mkRetrieveParams (js "b1") (Some true) None None)
                    readWorld (js "0123456789") tt eq_refl eq_refl)).
    left. reflexivity.
  - apply (proj2 (@retrieveBlockChildren_without_limit Fixtures.acceptingClient
                    (fixedReader (ReadTools.Infinite true))
                    (ReadTools.mkRetrieveParams (js "b1") (Some true) None None)
                    readWorld (js "0123456789") tt eq_refl eq_refl)).
    reflexivity.
Defined.

Lemma retrieveBlockChildren_negative_limit_witness :
  exists w',
    @ReadTools.retrieveBlockChildren _ (fixedReader (ReadTools.Int (-3)))
      (ReadTools.mkRetrieveParams (js "b1") (Some true) None None) readWorld
    = (Returned (ReadTools.mkResponse
                   [js "0123456" ++ ReadTools.truncationMark] None), w').
Proof.
  eexists.
  apply (@retrieveBlockChildren_negative_limit Fixtures.acceptingClient
           (fixedReader (ReadTools.Int (-3)))
           (ReadTools.mkRetrieveParams (js "b1") (Some true) None None)
           readWorld (js "0123456789") tt (-3)%Z); try reflexivity.
Defined.

Lemma searchPages_one_entry_per_page_witness :
  exists entries w',
    @ReadTools.searchPages _ (fixedReader (ReadTools.Int 4))
      (@ReadTools.mkSearchParams _ (fixedReader (ReadTools.Int 4))
         (Some (js "notes")) None (Some true) None None) readWorld
    = (Returned
         (ReadTools.mkResponse
            [@ReadTools.stringifySummary _ (fixedReader (ReadTools.Int 4))
               (ReadTools.mkSummary 3 false None entries)] None), w')
    /\ entries
       = [ ReadTools.mkWithMarkdown (js "p1") (js "https://notion.so/p1")
             (Some (js "First")) (js "0123" ++ ReadTools.truncationMark) true;
           ReadTools.mkWithMarkdown (js "p2") (js "https://notion.so/p2")
             None ReadTools.conversionFailedMark false ].
Proof.
  destruct (@searchPages_one_entry_per_page Fixtures.acceptingClient
              (fixedReader (ReadTools.Int 4))
              (@ReadTools.mkSearchParams _ (fixedReader (ReadTools.Int 4))
                 (Some (js "notes")) None (Some true) None None)
              readWorld threeResults tt)
    as (entries & w' & Hrun & _ & _ & _ & Hanswers & _); try reflexivity.
  exists entries, w'. split; [exact Hrun|].
  vm_compute in Hanswers.
  inversion Hanswers as [|p1 l1 s1 t1 u1 md1 more1 Hp1 Hrest|p1 l1 s1 t1 u1 e1 more1 Hp1 Hrest];
    subst; vm_compute in Hp1; [|discriminate].
  injection Hp1 as <- <-.
  inversion Hrest as [|p2 l2 s2 t2 u2 md2 more2 Hp2 Hlast|p2 l2 s2 t2 u2 e2 more2 Hp2 Hlast];
    subst; vm_compute in Hp2; [discriminate|].
  inversion Hlast; subst. reflexivity.
Defined.

Lemma searchPages_entries_bounded_witness :
  exists entries w',
    @ReadTools.searchPages _ (fixedReader (ReadTools.Int 4))
      (@ReadTools.mkSearchParams _ (fixedReader (ReadTools.Int 4))
         (Some (js "notes")) None (Some true) None None) readWorld
    = (Returned
         (ReadTools.mkResponse
            [@ReadTools.stringifySummary _ (fixedReader (ReadTools.Int 4))
               (ReadTools.mkSummary 3 false None entries)] None), w')
    /\ Forall (fun entry => length (ReadTools.withMarkdown entry) <= 43) entries.
Proof.
  destruct (@searchPages_entries_bounded Fixtures.acceptingClient
              (fixedReader (ReadTools.Int 4))
              (@ReadTools.mkSearchParams _ (fixedReader (ReadTools.Int 4))
                 (Some (js "notes")) None (Some true) None None)
              readWorld threeResults tt 4%Z)
    as (entries & w' & Hrun & Hall); try reflexivity; [lia|].
  exists entries, w'. split; assumption.
Defined.

Lemma retrieveBlockChildren_never_throws_witness :
  exists w',
    @ReadTools.retrieveBlockChildren _ (fixedReader (ReadTools.Int 4))
      (ReadTools.mkRetrieveParams (js "b2") (Some true) None None) readWorld
    = (Returned (ReadTools.mkResponse [js "no such block"] (Some true)), w').
Proof.
  destruct (@retrieveBlockChildren_never_throws Fixtures.acceptingClient
              (fixedReader (ReadTools.Int 4))
              (ReadTools.mkRetrieveParams (js "b2") (Some true) None None) readWorld)
    as (response & w' & Hrun & Hfailed & _).
  destruct (Hfailed (js "no such block") tt) as [Hresponse _]; try reflexivity.
  exists w'. rewrite Hrun, Hresponse. reflexivity.
Defined.

Lemma searchPages_never_throws_witness :
  exists w',
    @ReadTools.searchPages _ (fixedReader (ReadTools.Int 4))
      (@ReadTools.mkSearchParams _ (fixedReader (ReadTools.Int 4))
         (Some (js "down")) None (Some true) None None) readWorld
    = (Returned (ReadTools.mkResponse [js "search failed"] (Some true)), w').
Proof.
  destruct (@searchPages_never_throws Fixtures.acceptingClient
              (fixedReader (ReadTools.Int 4))
              (@ReadTools.mkSearchParams _ (fixedReader (ReadTools.Int 4))
                 (Some (js "down")) None (Some true) None None) readWorld)
    as (response & w' & Hrun & Hfailed).
  destruct (Hfailed (js "search failed") tt) as [Hresponse _]; try reflexivity.
  exists w'. rewrite Hrun, Hresponse. reflexivity.
Defined.
